(** * Crossword engine (CrosswordEngine.h): grid model, pattern dictionary
      and recursive search, embedded as Rocq functions.

    Conventions of the embedding.
    - [std::string] is [list ascii]; [int] is [Z] (every integer of the
      program is bounded by a grid dimension or a word length; the one
      place where a value can leave the range of [int], the pattern count
      of [CreatePatternHash], is modelled with the value the conversion
      gives, and the one comparison of an [int] with a [size_t], in
      [ReadFromFile], with its conversion).
    - A failed [assert] and an access outside a container end the run: they
      are the outcome [Abort].
    - Loops whose termination is not structural carry fuel; running out of
      it is the outcome [OutOfFuel], kept apart from [Abort].
    - Console output is not modelled, except for the solutions printed by
      [Engine::Loop], which are collected in emission order. *)

From Stdlib Require Import ZArith Ascii String Lia Sorted.
From stdpp Require Import gmap strings list fin_maps.

Open Scope Z_scope.

(** ** Outcomes *)

Inductive res (A : Type) : Type :=
| Ok (a : A)
| Abort
| OutOfFuel.
Arguments Ok {A} a.
Arguments Abort {A}.
Arguments OutOfFuel {A}.

Definition res_bind {A B : Type} (m : res A) (f : A -> res B) : res B :=
  match m with
  | Ok a => f a
  | Abort => Abort
  | OutOfFuel => OutOfFuel
  end.

Notation "'do' x <- m ; k" := (res_bind m (fun x => k))
  (at level 10, x pattern, m at level 100, k at level 200).

Definition assert (b : bool) : res unit := if b then Ok tt else Abort.

Definition lift {A : Type} (o : option A) : res A :=
  match o with Some a => Ok a | None => Abort end.

(** ** Characters and strings *)

Abbreviation str := (list ascii).

Definition lit (s : string) : str := list_ascii_of_string s.

Definition code (c : ascii) : Z := Z.of_N (N_of_ascii c).

Definition ch_block : ascii := "#"%char.
Definition ch_blank : ascii := "."%char.

(** [c == x] on [char]. *)
Definition ch_eqb (c x : ascii) : bool := code c =? code x.

(** [c >= 'A' && c <= 'Z'] *)
Definition is_upper (c : ascii) : bool := (65 <=? code c) && (code c <=? 90).

(** [toupper] in the C locale. *)
Definition toupper (c : ascii) : ascii :=
  if (97 <=? code c) && (code c <=? 122)
  then ascii_of_N (Z.to_N (code c - 32))
  else c.

(** ** Basic data structures *)

(** [struct Word { std::string s; }]: a word is its string. *)
Abbreviation Word := (list ascii).

Record Point := mkPoint { nRow : Z; nCol : Z }.

Record Span := mkSpan { point : Point; nLen : Z; bVert : bool }.

Record Attribute := mkAttr { bHasLetters : bool; bHasBlanks : bool }.

Definition attr0 : Attribute := mkAttr false false.

Definition IsEmpty (a : Attribute) : bool := bHasBlanks a && negb (bHasLetters a).
Definition IsPartial (a : Attribute) : bool := bHasBlanks a && bHasLetters a.
Definition IsFull (a : Attribute) : bool := negb (bHasBlanks a) && bHasLetters a.

Record Slot := mkSlot { span : Span; sPattern : str }.

Record Grid := mkGrid { sID : str; vecLines : list str; vecSpans : list Span }.

Definition set_lines (g : Grid) (ls : list str) : Grid :=
  mkGrid (sID g) ls (vecSpans g).

Definition set_spans (g : Grid) (sp : list Span) : Grid :=
  mkGrid (sID g) (vecLines g) sp.

(** [Span::GetPoint] *)
Definition GetPoint (s : Span) (i : Z) : res Point :=
  do _ <- assert ((0 <=? i) && (i <? nLen s));
  Ok (if bVert s
      then mkPoint (nRow (point s) + i) (nCol (point s))
      else mkPoint (nRow (point s)) (nCol (point s) + i)).

(** ** Grid *)

Definition rows (g : Grid) : Z := Z.of_nat (length (vecLines g)).

Definition cols (g : Grid) : Z :=
  match vecLines g with
  | [] => 0
  | l :: _ => Z.of_nat (length l)
  end.

Definition MaxSize (g : Grid) : Z := Z.max (rows g) (cols g).

(** [Grid::LoadFromFile]: the file is the sequence of its lines. *)
Definition keep_line (line : str) : bool :=
  match line with
  | [] => false
  | c :: _ => negb (ch_eqb c "/"%char)
  end.

Fixpoint LoadFromFile_loop (lines : list str) (vec : list str) : list str :=
  match lines with
  | [] => vec
  | line :: rest =>
      LoadFromFile_loop rest (if keep_line line then vec ++ [line] else vec)
  end.

Definition LoadFromFile (g : Grid) (lines : list str) : Grid :=
  set_lines g (LoadFromFile_loop lines (vecLines g)).

(** [Grid::CheckSize] *)
Fixpoint CheckSize_loop (c : Z) (ls : list str) : res unit :=
  match ls with
  | [] => Ok tt
  | s :: ls' =>
      do _ <- assert (Z.of_nat (length s) =? c);
      CheckSize_loop c ls'
  end.

Definition CheckSize (g : Grid) : res unit := CheckSize_loop (cols g) (vecLines g).

Definition IsInBounds (g : Grid) (p : Point) : bool :=
  (0 <=? nRow p) && (nRow p <? rows g) && (0 <=? nCol p) && (nCol p <? cols g).

(** [vecLines[r][c]]; reading outside a row is undefined in the source. *)
Definition cell (ls : list str) (r c : nat) : option ascii :=
  match ls !! r with
  | Some line => line !! c
  | None => None
  end.

Definition GetChar (g : Grid) (p : Point) : res ascii :=
  do _ <- assert (IsInBounds g p);
  lift (cell (vecLines g) (Z.to_nat (nRow p)) (Z.to_nat (nCol p))).

Definition SetChar (g : Grid) (p : Point) (c : ascii) : res Grid :=
  do _ <- assert (IsInBounds g p);
  match vecLines g !! Z.to_nat (nRow p) with
  | Some line =>
      do _ <- assert (Z.to_nat (nCol p) <? length line)%nat;
      Ok (set_lines g (<[Z.to_nat (nRow p) := <[Z.to_nat (nCol p) := c]> line]> (vecLines g)))
  | None => Abort
  end.

Definition IsBlock (g : Grid) (p : Point) : res bool :=
  do c <- GetChar g p; Ok (ch_eqb c ch_block).

Definition IsBlank (g : Grid) (p : Point) : res bool :=
  do c <- GetChar g p; Ok (ch_eqb c ch_blank).

Definition IsLetter (g : Grid) (p : Point) : res bool :=
  do c <- GetChar g p; Ok (is_upper c).

(** [Grid::GetString]: [attr] is the in/out parameter. A negative length
    makes [resize] throw. *)
Definition mark (c : ascii) (attr : Attribute) : Attribute :=
  if ch_eqb c ch_blank then mkAttr (bHasLetters attr) true
  else if is_upper c then mkAttr true (bHasBlanks attr)
  else attr.

Fixpoint GetString_loop (g : Grid) (sp : Span) (idx : list Z) (attr : Attribute)
  : res (str * Attribute) :=
  match idx with
  | [] => Ok ([], attr)
  | i :: idx' =>
      do p <- GetPoint sp i;
      do c <- GetChar g p;
      do r <- GetString_loop g sp idx' (mark c attr);
      Ok (c :: fst r, snd r)
  end.

Definition GetString (g : Grid) (sp : Span) (attr : Attribute) : res (str * Attribute) :=
  do _ <- assert (0 <=? nLen sp);
  GetString_loop g sp (seqZ 0 (nLen sp)) attr.

(** [Grid::SetString] *)
Fixpoint SetString_loop (g : Grid) (sp : Span) (idx : list Z) (s : str) : res Grid :=
  match idx with
  | [] => Ok g
  | i :: idx' =>
      do p <- GetPoint sp i;
      do c <- lift (s !! Z.to_nat i);
      do g' <- SetChar g p c;
      SetString_loop g' sp idx' s
  end.

Definition SetString (g : Grid) (sp : Span) (s : str) : res Grid :=
  do _ <- assert (nLen sp =? Z.of_nat (length s));
  SetString_loop g sp (seqZ 0 (nLen sp)) s.

(** [Grid::Next] and [Grid::NextStopAtWrap]: the moved point and the
    returned flag. *)
Definition advance (g : Grid) (p : Point) (vert : bool) : Point * bool :=
  if vert then
    let r := nRow p + 1 in
    if r >=? rows g then (mkPoint 0 (nCol p + 1), true) else (mkPoint r (nCol p), false)
  else
    let c := nCol p + 1 in
    if c >=? cols g then (mkPoint (nRow p + 1) 0, true) else (mkPoint (nRow p) c, false).

Definition Next (g : Grid) (p : Point) (vert : bool) : Point * bool :=
  let p' := fst (advance g p vert) in (p', IsInBounds g p').

Definition NextStopAtWrap (g : Grid) (p : Point) (vert : bool) : Point * bool :=
  let '(p', bWrap) := advance g p vert in (p', negb bWrap).

(** [Grid::FillSpans(bool)]: the three loops, each on fuel. *)
Fixpoint skip_blocks (fuel : nat) (g : Grid) (vert : bool) (p : Point) : res Point :=
  match fuel with
  | O => OutOfFuel
  | S n =>
      if IsInBounds g p then
        do b <- IsBlock g p;
        if b then skip_blocks n g vert (fst (Next g p vert)) else Ok p
      else Ok p
  end.

Fixpoint span_length (fuel : nat) (g : Grid) (vert : bool) (p : Point) (len : Z)
  : res (Point * Z) :=
  match fuel with
  | O => OutOfFuel
  | S n =>
      let '(p', keep_going) := NextStopAtWrap g p vert in
      let len' := len + 1 in
      if keep_going then
        do b <- IsBlock g p';
        if negb b then span_length n g vert p' len' else Ok (p', len')
      else Ok (p', len')
  end.

Definition grid_fuel (g : Grid) : nat := S (Z.to_nat (rows g * cols g)).
Arguments grid_fuel : simpl never.

Fixpoint FillSpans_loop (fuel : nat) (g : Grid) (vert : bool) (p : Point)
  (spans : list Span) : res (list Span) :=
  match fuel with
  | O => OutOfFuel
  | S n =>
      if IsInBounds g p then
        do p1 <- skip_blocks (grid_fuel g) g vert p;
        if negb (IsInBounds g p1) then Ok spans
        else
          do r <- span_length (grid_fuel g) g vert p1 0;
          FillSpans_loop n g vert (fst r) (spans ++ [mkSpan p1 (snd r) vert])
      else Ok spans
  end.

Definition FillSpans_dir (g : Grid) (vert : bool) : res Grid :=
  do sp <- FillSpans_loop (grid_fuel g) g vert (mkPoint 0 0) (vecSpans g);
  Ok (set_spans g sp).

(** [Grid::FillSpans()] *)
Definition FillSpans (g : Grid) : res Grid :=
  do _ <- assert (match vecSpans g with [] => true | _ => false end);
  do g1 <- FillSpans_dir g false;
  FillSpans_dir g1 true.

(** ** Library *)

Record Library := mkLibrary {
  m_vecWords : list Word;                       (* master list *)
  m_umapWords : gmap str (list Word)            (* pattern hash *)
}.

Definition Library0 : Library := mkLibrary [] ∅.

(** [Library::ToUpper] *)
Fixpoint ToUpper (sWord : str) : str :=
  match sWord with
  | [] => []
  | c :: rest => toupper c :: ToUpper rest
  end.

(** The inner loop of [CreatePatternHash]: position [j] becomes a wildcard
    when [(i >> j) & 1] is set. *)
Definition mask_step (i : Z) (s : str) (j : Z) : str :=
  if negb (Z.land (Z.shiftr i j) 1 =? 0) then <[Z.to_nat j := ch_blank]> s else s.

Definition mask_word (w : str) (i : Z) : str :=
  fold_left (mask_step i) (seqZ 0 (Z.of_nat (length w))) w.

(** [m_umapWords[s].push_back(word)] *)
Definition push_bucket (m : gmap str (list Word)) (s : str) (word : Word)
  : gmap str (list Word) :=
  <[s := default [] (m !! s) ++ [word]]> m.

(** [int nPatterns = pow(2, len)]: the power is computed as a [double] and
    converted. It fits an [int] up to [len = 30]; from 31 on the converted
    value is the least [int] (what the conversion yields on the usual
    targets), so the loop [for (int i = 0; i < nPatterns; i++)] is not
    entered. *)
Definition pow2_int (len : Z) : Z := if len <? 31 then 2 ^ len else - 2 ^ 31.

(** [Library::CreatePatternHash]. No step of it can fail. *)
Definition CreatePatternHash (m : gmap str (list Word)) (word : Word)
  : res (gmap str (list Word)) :=
  let len := Z.of_nat (length word) in
  let nPatterns := pow2_int len in
  Ok (fold_left (fun m' i => push_bucket m' (mask_word word i) word)
        (seqZ 0 nPatterns) m).
Arguments CreatePatternHash : simpl never.

(** The trailing character removed by [ReadFromFile]: one of carriage
    return, space and tab. *)
Definition is_trailer (c : ascii) : bool :=
  ch_eqb c "013"%char || ch_eqb c " "%char || ch_eqb c "009"%char.

Definition strip_last (line : str) : str :=
  let len := length line in
  match line !! (len - 1)%nat with
  | Some c => if is_trailer c then take (len - 1)%nat line else line
  | None => line
  end.

(** [int] to [size_t], the conversion in [line.length() <= nMaxSize]. *)
Definition to_size_t (n : Z) : Z := n mod 2 ^ 64.

(** [Library::ReadFromFile] *)
Fixpoint ReadFromFile (lib : Library) (lines : list str) (nMaxSize : Z) : res Library :=
  match lines with
  | [] => Ok lib
  | line :: rest =>
      match line with
      | [] => ReadFromFile lib rest nMaxSize
      | _ :: _ =>
          let line := strip_last (ToUpper line) in
          if Z.of_nat (length line) <=? to_size_t nMaxSize then
            do m <- CreatePatternHash (m_umapWords lib) line;
            ReadFromFile (mkLibrary (m_vecWords lib ++ [line]) m) rest nMaxSize
          else ReadFromFile lib rest nMaxSize
      end
  end.

(** [Library::IsWord] *)
Definition IsWord (lib : Library) (sWord : str) : bool :=
  match m_umapWords lib !! sWord with
  | Some _ => true
  | None => false
  end.

(** [Library::FindWord]: [None] is the null pointer. *)
Definition FindWord (lib : Library) (sPattern : str) : option (list Word) :=
  m_umapWords lib !! sPattern.

(** [Library::GetWord] *)
Definition GetWord (lib : Library) (i : Z) : res str :=
  do _ <- assert ((0 <=? i) && (i <? Z.of_nat (length (m_vecWords lib))));
  lift (m_vecWords lib !! Z.to_nat i).

(** ** StringSet *)

Definition ExistsInSet (set : gset str) (s : str) : bool := bool_decide (s ∈ set).

Definition AddToSet (set : gset str) (s : str) : res (gset str) :=
  do _ <- assert (negb (ExistsInSet set s));
  Ok ({[ s ]} ∪ set).

(** ** Engine *)

Record Engine := mkEngine { m_grid : Grid; m_lib : Library }.

(** The grid object [new cw::Grid("0")]. *)
Definition Grid0 : Grid := mkGrid (lit "0") [] [].

(** [Grid::PrintSpans]: reads every span; the text printed is not
    modelled. *)
Fixpoint PrintSpans_loop (g : Grid) (spans : list Span) : res unit :=
  match spans with
  | [] => Ok tt
  | sp :: rest =>
      do _ <- GetString g sp attr0;
      PrintSpans_loop g rest
  end.

Definition PrintSpans (g : Grid) : res unit := PrintSpans_loop g (vecSpans g).

(** [Engine::Init] on the lines of the grid file and of the word list. *)
Definition Init (gridLines libLines : list str) : res Engine :=
  let g := LoadFromFile Grid0 gridLines in
  do _ <- CheckSize g;
  do g <- FillSpans g;
  do _ <- PrintSpans g;
  do lib <- ReadFromFile Library0 libLines (MaxSize g);
  Ok (mkEngine g lib).

(** The search prints solutions as it goes: a computation yields the
    grids printed so far and its outcome. *)
Definition M (A : Type) : Type := (list Grid * res A)%type.

Definition retM {A : Type} (a : A) : M A := ([], Ok a).

Definition bindM {A B : Type} (m : M A) (f : A -> M B) : M B :=
  match snd m with
  | Ok a => let r := f a in (fst m ++ fst r, snd r)
  | Abort => (fst m, Abort)
  | OutOfFuel => (fst m, OutOfFuel)
  end.

Definition liftM {A : Type} (r : res A) : M A := ([], r).

Definition emit (g : Grid) : M unit := ([g], Ok tt).

Notation "'run' x <- m ; k" := (bindM m (fun x => k))
  (at level 10, x pattern, m at level 100, k at level 200).

(** The first loop of [Engine::Loop]: the three slot vectors. *)
Fixpoint classify (g : Grid) (spans : list Span) (vE vP vF : list Slot)
  : res (list Slot * list Slot * list Slot) :=
  match spans with
  | [] => Ok (vE, vP, vF)
  | sp :: rest =>
      do r <- GetString g sp attr0;
      let s := fst r in
      let attr := snd r in
      if IsEmpty attr then classify g rest (vE ++ [mkSlot sp s]) vP vF
      else if IsPartial attr then classify g rest vE (vP ++ [mkSlot sp s]) vF
      else if IsFull attr then classify g rest vE vP (vF ++ [mkSlot sp s])
      else classify g rest vE vP vF
  end.

(** The second loop: every full slot is a word. *)
Fixpoint all_words (lib : Library) (vF : list Slot) : bool :=
  match vF with
  | [] => true
  | w :: rest => if negb (IsWord lib (sPattern w)) then false else all_words lib rest
  end.

(** The third loop: [Ok false] when a duplicate is met. *)
Fixpoint no_dups (vF : list Slot) (usetStrings : gset str) : res bool :=
  match vF with
  | [] => Ok true
  | w :: rest =>
      if ExistsInSet usetStrings (sPattern w) then Ok false
      else
        do set' <- AddToSet usetStrings (sPattern w);
        no_dups rest set'
  end.

(** The loop of [Engine::CommitSlot]. The grid is the caller's, passed by
    reference: each candidate is written over the previous one, and the
    grid as left by the loop is returned. [loop] is the recursive call. *)
Fixpoint CommitSlot_loop (loop : Grid -> Z -> M unit) (grid : Grid) (slot : Slot)
  (words rest : list Word) (nDepth : Z) : M Grid :=
  match rest with
  | [] => retM grid
  | w :: rest' =>
      run _ <- liftM (assert (negb (match words with [] => true | _ => false end)));
      run grid' <- liftM (SetString grid (span slot) w);
      run _ <- loop grid' nDepth;
      CommitSlot_loop loop grid' slot words rest' nDepth
  end.

Definition CommitSlot (loop : Grid -> Z -> M unit) (lib : Library) (grid : Grid)
  (slot : Slot) (nDepth : Z) : M Grid :=
  match FindWord lib (sPattern slot) with
  | Some words => CommitSlot_loop loop grid slot words words nDepth
  | None => retM grid
  end.

(** [Engine::Loop]. The grid is received by value. *)
Fixpoint Loop (fuel : nat) (lib : Library) (grid : Grid) (nDepth : Z) : M unit :=
  match fuel with
  | O => liftM OutOfFuel
  | S n =>
      let nDepth := nDepth + 1 in
      run slots <- liftM (classify grid (vecSpans grid) [] [] []);
      let vecEmptySlots := fst (fst slots) in
      let vecPartialSlots := snd (fst slots) in
      let vecFullSlots := snd slots in
      let nEmpty := Z.of_nat (length vecEmptySlots) in
      let nPartial := Z.of_nat (length vecPartialSlots) in
      if negb (all_words lib vecFullSlots) then retM tt
      else
        run unique <- liftM (no_dups vecFullSlots ∅);
        if negb unique then retM tt
        else if (nPartial =? 0) && (nEmpty =? 0) then emit grid
        else
          run _ <- liftM (assert (0 <? nPartial));
          run slot <- liftM (lift (vecPartialSlots !! 0%nat));
          run _ <- CommitSlot (Loop n lib) lib grid slot nDepth;
          retM tt
  end.

(** [Engine::Search]: the engine after the search, and what was printed. *)
Definition Search (fuel : nat) (e : Engine) : M Engine :=
  run _ <- Loop fuel (m_lib e) (m_grid e) 0;
  retM e.

(** The solutions printed by a run, as the rows of each grid. *)
Definition solutions {A : Type} (m : M A) : list (list str) := map vecLines (fst m).

(** *** The write-recurse-restore discipline

    The node procedure as the specification words its last step: for each
    candidate, the word is written into a fresh grid state derived from the
    node's grid, the search recurses on it, and the node keeps its
    pre-commit state. *)
Fixpoint CommitSlot_restore_loop (loop : Grid -> Z -> M unit) (grid : Grid)
  (slot : Slot) (words rest : list Word) (nDepth : Z) : M unit :=
  match rest with
  | [] => retM tt
  | w :: rest' =>
      run _ <- liftM (assert (negb (match words with [] => true | _ => false end)));
      run copy <- liftM (SetString grid (span slot) w);
      run _ <- loop copy nDepth;
      CommitSlot_restore_loop loop grid slot words rest' nDepth
  end.

Definition CommitSlot_restore (loop : Grid -> Z -> M unit) (lib : Library)
  (grid : Grid) (slot : Slot) (nDepth : Z) : M unit :=
  match FindWord lib (sPattern slot) with
  | Some words => CommitSlot_restore_loop loop grid slot words words nDepth
  | None => retM tt
  end.

Fixpoint Loop_restore (fuel : nat) (lib : Library) (grid : Grid) (nDepth : Z) : M unit :=
  match fuel with
  | O => liftM OutOfFuel
  | S n =>
      let nDepth := nDepth + 1 in
      run slots <- liftM (classify grid (vecSpans grid) [] [] []);
      let vecEmptySlots := fst (fst slots) in
      let vecPartialSlots := snd (fst slots) in
      let vecFullSlots := snd slots in
      let nEmpty := Z.of_nat (length vecEmptySlots) in
      let nPartial := Z.of_nat (length vecPartialSlots) in
      if negb (all_words lib vecFullSlots) then retM tt
      else
        run unique <- liftM (no_dups vecFullSlots ∅);
        if negb unique then retM tt
        else if (nPartial =? 0) && (nEmpty =? 0) then emit grid
        else
          run _ <- liftM (assert (0 <? nPartial));
          run slot <- liftM (lift (vecPartialSlots !! 0%nat));
          CommitSlot_restore (Loop_restore n lib) lib grid slot nDepth
  end.

(** ** Notions used to state the properties *)

(** The pattern of [w] under the bit mask [i], position by position. *)
Definition masked (w : str) (i : Z) : str :=
  imap (fun j c => if Z.testbit i (Z.of_nat j) then ch_blank else c) w.

(** The pattern of [w] with the positions in [S] replaced by the wildcard. *)
Definition wildcard_at (S : nat -> bool) (w : str) : str :=
  imap (fun j c => if S j then ch_blank else c) w.

(** The bucket of a pattern; empty when the pattern is no key. *)
Definition bucket (m : gmap str (list Word)) (p : str) : list Word :=
  default [] (m !! p).

Definition is_mask_of (p : str) (w : Word) : Prop :=
  exists i, 0 <= i < 2 ^ Z.of_nat (length w) /\ p = mask_word w i.

(** A word whose pattern count fits an [int]: one of at most 30
    characters. *)
Definition indexable (w : Word) : Prop := Z.of_nat (length w) < 31.

#[global] Instance indexable_dec (w : Word) : Decision (indexable w).
Proof. unfold indexable. apply _. Defined.

(** What [ReadFromFile] maintains between the master list and the index:
    the keys are the patterns of the indexable words of the master list,
    and a bucket holds the indexable words of its pattern. *)
Record lib_inv (lib : Library) : Prop := {
  inv_keys : forall p, is_Some (m_umapWords lib !! p) <->
                       exists w, w ∈ m_vecWords lib /\ indexable w /\ is_mask_of p w;
  inv_members : forall p x, x ∈ bucket (m_umapWords lib) p <->
                            x ∈ m_vecWords lib /\ indexable x /\ is_mask_of p x
}.

Definition all_letters (s : str) : Prop := Forall (fun c => is_upper c = true) s.

(** A subset of positions as a bit mask. *)
Fixpoint bits_to_Z (l : list bool) : Z :=
  match l with
  | [] => 0
  | b :: l' => Z.b2z b + 2 * bits_to_Z l'
  end.

(** The lines that [ReadFromFile] keeps, normalised. *)
Definition normalise (line : str) : str := strip_last (ToUpper line).

Definition survives (nMaxSize : Z) (line : str) : bool :=
  negb (match line with [] => true | _ => false end) &&
  (Z.of_nat (length (normalise line)) <=? to_size_t nMaxSize).

(** The library loaded from the one-word list [CAT]. *)
Definition lib_CAT : Library :=
  match ReadFromFile Library0 [lit "CAT"] 3 with
  | Ok lib => lib
  | _ => Library0
  end.

(** A word of 31 letters: one letter more than the pattern count allows. *)
Definition word31 : Word := replicate 31 "A"%char.

(** The library [lib_CAT] after a second load, of the one-word list [DOG]. *)
Definition lib_CAT_DOG : Library :=
  match ReadFromFile lib_CAT [lit "DOG"] 3 with
  | Ok lib => lib
  | _ => Library0
  end.

(** The library loaded from the list COT, CAT, COT, DOG. *)
Definition lib_COT : Library :=
  match ReadFromFile Library0 [lit "COT"; lit "CAT"; lit "COT"; lit "DOG"] 3 with
  | Ok lib => lib
  | _ => Library0
  end.

(** The cell alphabet of the grid file format. *)
Definition is_cell (c : ascii) : bool :=
  ch_eqb c ch_block || ch_eqb c ch_blank || is_upper c.


(** The engine state when [Init] succeeds (an engine with nothing loaded
    otherwise). *)
Definition engine_of (r : res Engine) : Engine :=
  match r with
  | Ok e => e
  | _ => mkEngine Grid0 Library0
  end.

Definition is_ok {A : Type} (r : res A) : bool :=
  match r with
  | Ok _ => true
  | _ => false
  end.

(** The blank five-cell row with the dictionary HELLO, WORLD. *)
Definition engine_blank_row : Engine :=
  engine_of (Init [lit "....."] [lit "HELLO"; lit "WORLD"]).

(** The row [W....] with the one-letter words added. *)
Definition engine_W_row : Engine :=
  engine_of (Init [lit "W...."]
               [lit "HELLO"; lit "WORLD"; lit "W"; lit "O"; lit "R"; lit "L"; lit "D"]).

(** The lengths of the rows. *)
Definition shape (g : Grid) : list nat := length <$> vecLines g.

(** Point [i] of a span, without the range assertion. *)
Definition pt (sp : Span) (i : Z) : Point :=
  if bVert sp
  then mkPoint (nRow (point sp) + i) (nCol (point sp))
  else mkPoint (nRow (point sp)) (nCol (point sp) + i).

(** The cell at a point, as [cell] sees it. *)
Definition at_pt (g : Grid) (p : Point) : option ascii :=
  cell (vecLines g) (Z.to_nat (nRow p)) (Z.to_nat (nCol p)).

(** A point that [SetChar] can write. *)
Definition writable (g : Grid) (p : Point) : bool :=
  IsInBounds g p &&
  match vecLines g !! Z.to_nat (nRow p) with
  | Some line => (Z.to_nat (nCol p) <? length line)%nat
  | None => false
  end.

(** The attribute of a string read from a span, from a fresh [Attribute]. *)
Definition attr_of (s : str) : Attribute :=
  mkAttr (existsb is_upper s) (existsb (fun c => ch_eqb c ch_blank) s).

(** [(r, k)] is the cell of point [p]. *)
Definition is_at (p : Point) (r k : nat) : Prop :=
  r = Z.to_nat (nRow p) /\ k = Z.to_nat (nCol p).

#[local] Instance is_at_dec (p : Point) (r k : nat) : Decision (is_at p r k).
Proof. unfold is_at. apply _. Defined.

(** What reading index [i] of a span yields: the point is inside the span
    and the grid, and holds [c]. *)
Definition reads (g : Grid) (sp : Span) (i : Z) (c : ascii) : Prop :=
  0 <= i < nLen sp /\ IsInBounds g (pt sp i) = true /\ at_pt g (pt sp i) = Some c.

Definition join_attr (a b : Attribute) : Attribute :=
  mkAttr (bHasLetters a || bHasLetters b) (bHasBlanks a || bHasBlanks b).

(** A computation with its result dropped: what was printed and how it
    ended. *)
Definition forget {A : Type} (m : M A) : M unit :=
  (fst m, match snd m with
          | Ok _ => Ok tt
          | Abort => Abort
          | OutOfFuel => OutOfFuel
          end).

(** ** Notions for span derivation *)

(** The scan of direction [vert] sees the grid as lines of cells: rows for
    the horizontal walk, columns for the vertical one. *)
Definition mk_pt (vert : bool) (l q : Z) : Point :=
  if vert then mkPoint q l else mkPoint l q.

Definition nlines (g : Grid) (vert : bool) : Z := if vert then cols g else rows g.
Definition width (g : Grid) (vert : bool) : Z := if vert then rows g else cols g.

(** The block test as a total function. *)
Definition blk (g : Grid) (p : Point) : bool :=
  match at_pt g p with
  | Some c => ch_eqb c ch_block
  | None => false
  end.

Definition rect (g : Grid) : Prop :=
  Forall (fun l => Z.of_nat (length l) = cols g) (vecLines g).

(** A point that bounds a run: outside the grid, or a block. *)
Definition edge (g : Grid) (p : Point) : Prop :=
  IsInBounds g p = false \/ IsBlock g p = Ok true.

(** A span that is a maximal run of non-block cells. *)
Definition maximal_run (g : Grid) (sp : Span) : Prop :=
  1 <= nLen sp /\
  (forall i, 0 <= i < nLen sp ->
     IsInBounds g (pt sp i) = true /\ IsBlock g (pt sp i) = Ok false) /\
  edge g (pt sp (-1)) /\
  edge g (pt sp (nLen sp)).

(** Row-major order of the origins for horizontal spans, column-major for
    vertical ones. *)
Definition start_before (vert : bool) (a b : Span) : Prop :=
  if vert
  then nCol (point a) < nCol (point b) \/
       (nCol (point a) = nCol (point b) /\ nRow (point a) < nRow (point b))
  else nRow (point a) < nRow (point b) \/
       (nRow (point a) = nRow (point b) /\ nCol (point a) < nCol (point b)).

Definition covers (sp : Span) (p : Point) : Prop :=
  exists i, 0 <= i < nLen sp /\ pt sp i = p.

(** Two grids with the same dimensions and the same block cells. *)
Definition same_blocks (g1 g2 : Grid) : Prop :=
  rows g1 = rows g2 /\ cols g1 = cols g2 /\
  forall p, IsInBounds g1 p = true -> IsBlock g1 p = IsBlock g2 p.
(** The scan of direction [vert] in line and position coordinates: the
    block test, the rank of a cell in scan order, and the cells of the
    grid. *)
Definition scan_blk (g : Grid) (vert : bool) (l q : Z) : bool := blk g (mk_pt vert l q).

Definition scan_idx (g : Grid) (vert : bool) (l q : Z) : Z := l * width g vert + q.

Definition scan_inb (g : Grid) (vert : bool) (l q : Z) : Prop :=
  0 <= l < nlines g vert /\ 0 <= q < width g vert.

(** A span in the coordinates of its scan. *)
Definition span_line (vert : bool) (sp : Span) : Z :=
  if vert then nCol (point sp) else nRow (point sp).

Definition span_pos (vert : bool) (sp : Span) : Z :=
  if vert then nRow (point sp) else nCol (point sp).

(** A maximal run, in scan coordinates. *)
Definition good_span (g : Grid) (vert : bool) (sp : Span) : Prop :=
  bVert sp = vert /\
  scan_inb g vert (span_line vert sp) (span_pos vert sp) /\
  1 <= nLen sp /\
  span_pos vert sp + nLen sp <= width g vert /\
  (forall i, 0 <= i < nLen sp ->
     scan_blk g vert (span_line vert sp) (span_pos vert sp + i) = false) /\
  (span_pos vert sp = 0 \/
   scan_blk g vert (span_line vert sp) (span_pos vert sp - 1) = true) /\
  (span_pos vert sp + nLen sp = width g vert \/
   scan_blk g vert (span_line vert sp) (span_pos vert sp + nLen sp) = true).

(** The spans follow one another in scan order from rank [k] on. *)
Fixpoint sorted_from (g : Grid) (vert : bool) (k : Z) (sps : list Span) : Prop :=
  match sps with
  | [] => True
  | sp :: rest =>
      k <= scan_idx g vert (span_line vert sp) (span_pos vert sp) /\
      sorted_from g vert
        (scan_idx g vert (span_line vert sp) (span_pos vert sp) + nLen sp) rest
  end.

(** Every non-block cell of rank [k] or more lies in one of the spans. *)
Definition covered_from (g : Grid) (vert : bool) (k : Z) (sps : list Span) : Prop :=
  forall l q, scan_inb g vert l q -> k <= scan_idx g vert l q ->
    scan_blk g vert l q = false ->
    exists sp, sp ∈ sps /\ span_line vert sp = l /\
               span_pos vert sp <= q < span_pos vert sp + nLen sp.

(** ** Notions for the search *)

(** Every span with the string and the attribute read from it. *)
Fixpoint read_all (g : Grid) (spans : list Span) : res (list (Slot * Attribute)) :=
  match spans with
  | [] => Ok []
  | sp :: rest =>
      do r <- GetString g sp attr0;
      do rs <- read_all g rest;
      Ok ((mkSlot sp (fst r), snd r) :: rs)
  end.

(** The slots whose attribute passes the test [f]. *)
Definition pick (f : Attribute -> bool) (rs : list (Slot * Attribute)) : list Slot :=
  map fst (filter (fun r => f (snd r) = true) rs).

(** [g] is [g0] with some blank cells filled: same identifier, spans and
    row lengths, and every cell of [g0] that is not blank is unchanged. *)
Definition preserves (g0 g : Grid) : Prop :=
  sID g = sID g0 /\ vecSpans g = vecSpans g0 /\ shape g = shape g0 /\
  forall r k c, cell (vecLines g0) r k = Some c -> c <> ch_blank ->
                cell (vecLines g) r k = Some c.

(** [g] has no block where [g0] has none. *)
Definition no_new_block (g0 g : Grid) : Prop :=
  forall r k, cell (vecLines g) r k = Some ch_block -> cell (vecLines g0) r k = Some ch_block.

(** The number of blank cells of a grid. *)
Definition b2n (b : bool) : nat := if b then 1%nat else 0%nat.

Fixpoint count_blank (line : str) : nat :=
  match line with
  | [] => 0%nat
  | c :: rest => (b2n (ch_eqb c ch_blank) + count_blank rest)%nat
  end.

Fixpoint blanks_lines (ls : list str) : nat :=
  match ls with
  | [] => 0%nat
  | line :: rest => (count_blank line + blanks_lines rest)%nat
  end.

Definition blanks (g : Grid) : nat := blanks_lines (vecLines g).

(** The row [A.] with the word list A, [A.]: the second word holds the
    wildcard character. *)
Definition engine_dot : Engine := engine_of (Init [lit "A."] [lit "A"; lit "A."]).

(** Every cell of the grid is a block, a blank or a letter. *)
Definition grid_alphabet (g : Grid) : Prop :=
  Forall (Forall (fun c => is_cell c = true)) (vecLines g).

(** A cell of a span: blank or letter. *)
Definition fillable (c : ascii) : Prop := c = ch_blank \/ is_upper c = true.

(** The spans of the grid are [spans0], none is empty, and their cells are
    blanks and letters. *)
Definition spans_ok (spans0 : list Span) (g : Grid) : Prop :=
  vecSpans g = spans0 /\
  Forall (fun sp => 1 <= nLen sp) spans0 /\
  forall sp i c, sp ∈ spans0 -> 0 <= i < nLen sp ->
                 at_pt g (pt sp i) = Some c -> fillable c.

(** The grid of the single cell [?] with an empty word list. *)
Definition engine_qmark : Engine := engine_of (Init [lit "?"] []).

(** ** Further notions for the dictionary *)

(** A pattern position agrees with a word position: wildcard, or the same
    character. *)
Definition agrees (c x : ascii) : Prop := c = ch_blank \/ c = x.

(** The pattern matches the word: same length, agreement at every
    position. *)
Definition matches (p : str) (w : Word) : Prop := Forall2 agrees p w.

(** An ASCII letter of either case. *)
Definition is_alpha (c : ascii) : bool :=
  ((65 <=? code c) && (code c <=? 90)) || ((97 <=? code c) && (code c <=? 122)).

(** A line of letters, alone or followed by one carriage return, space or
    tab. *)
Definition letters_line (line : str) : Prop :=
  exists body tail, line = body ++ tail /\ Forall (fun c => is_alpha c = true) body /\
    (tail = [] \/ exists c, tail = [c] /\ is_trailer c = true).

(** [Library::ComputeStats]: [m_vecCounts] is the vector of the library
    before the call; the vector after the call is returned. *)
Fixpoint ComputeStats_loop (words : list Word) (counts : list Z) : list Z :=
  match words with
  | [] => counts
  | w :: rest =>
      let len := Z.of_nat (length w) in
      ComputeStats_loop rest
        (if len <? 18 then alter Z.succ (Z.to_nat len) counts else counts)
  end.

Definition ComputeStats (lib : Library) (m_vecCounts : list Z) : res (list Z) :=
  do _ <- assert (match m_vecCounts with [] => true | _ => false end);
  Ok (ComputeStats_loop (m_vecWords lib) (replicate 18 0)).

(** The number of words of length [k]. *)
Definition count_len (k : nat) (words : list Word) : Z :=
  Z.of_nat (length (filter (fun w => length w = k) words)).

#[global] Instance agrees_dec (c x : ascii) : Decision (agrees c x).
Proof. unfold agrees. apply _. Defined.

#[global] Instance matches_dec (p : str) (w : Word) : Decision (matches p w).
Proof. unfold matches. apply _. Defined.

(** Every bucket lists the matching indexable words in the order of the
    master list. *)
Definition ordered_buckets (lib : Library) : Prop :=
  forall p, bucket (m_umapWords lib) p =
            filter (fun w => matches p w /\ indexable w) (m_vecWords lib).

(** ** Further notions for the engine *)

(** Every span of the grid lies inside it. *)
Definition spans_inside (g : Grid) : Prop :=
  Forall (fun sp => 0 <= nLen sp /\
                    forall i, 0 <= i < nLen sp -> IsInBounds g (pt sp i) = true)
         (vecSpans g).

(** The row [AB] with its horizontal span, every cell filled. *)
Definition grid_AB : Grid :=
  mkGrid (lit "0") [lit "AB"] [mkSpan (mkPoint 0 0) 2 false].

(** A correctly completed grid: every span reads as a full string that is
    a key of the dictionary, and the strings are pairwise distinct. *)
Definition solved (lib : Library) (g : Grid) : Prop :=
  exists strs,
    Forall2 (fun sp s => GetString g sp attr0 = Ok (s, attr_of s) /\
                         IsFull (attr_of s) = true) (vecSpans g) strs /\
    Forall (fun s => IsWord lib s = true) strs /\ NoDup strs.

(** Every blank cell lies on a span. *)
Definition blanks_covered (g : Grid) : Prop :=
  forall r k, cell (vecLines g) r k = Some ch_blank ->
    exists sp i, sp ∈ vecSpans g /\ 0 <= i < nLen sp /\
                 pt sp i = mkPoint (Z.of_nat r) (Z.of_nat k).

(** The row [A.] with the word list A, B, AB, and its completion. *)
Definition engine_A_row : Engine :=
  engine_of (Init [lit "A."] [lit "A"; lit "B"; lit "AB"]).

Definition grid_A_row_solved : Grid :=
  mkGrid (lit "0") [lit "AB"] (vecSpans (m_grid engine_A_row)).

(** The run of [Loop] from a node ends on the failed progress assertion.
    Either the node itself passes both prunes with an empty slot and no
    partial slot; or it passes both prunes, its first partial slot has
    candidates, the candidates tried first were written and searched and
    returned normally, the next one was written, and the run from the grid
    it gives ends on the failed progress assertion. Every read, set
    insertion and write on the way has returned normally. The number
    bounds the recursion depth left. *)
Inductive fails_progress (lib : Library) : nat -> Grid -> Z -> Prop :=
| fails_here (n : nat) (g : Grid) (d : Z) (vE vF : list Slot) :
    classify g (vecSpans g) [] [] [] = Ok (vE, [], vF) ->
    all_words lib vF = true -> no_dups vF ∅ = Ok true -> vE <> [] ->
    fails_progress lib (S n) g d
| fails_below (n : nat) (g : Grid) (d : Z) (vE vP vF : list Slot) (slot : Slot)
    (pre post : list Word) (w : Word) (g' : Grid) :
    classify g (vecSpans g) [] [] [] = Ok (vE, slot :: vP, vF) ->
    all_words lib vF = true -> no_dups vF ∅ = Ok true ->
    FindWord lib (sPattern slot) = Some (pre ++ w :: post) ->
    Forall (fun w0 => exists g0, SetString g (span slot) w0 = Ok g0 /\
                                 snd (Loop n lib g0 (d + 1)) = Ok tt) pre ->
    SetString g (span slot) w = Ok g' ->
    fails_progress lib n g' (d + 1) ->
    fails_progress lib (S n) g d.

(** The row [A.#.] with the word list A, B, AB: the cell after the block
    is touched by no commit. *)
Definition engine_split : Engine :=
  engine_of (Init [lit "A.#."] [lit "A"; lit "B"; lit "AB"]).

(** The row [A.] with the word list A, B, C, AB, AC: two completions. *)
Definition engine_two : Engine :=
  engine_of (Init [lit "A."] [lit "A"; lit "B"; lit "C"; lit "AB"; lit "AC"]).

(** The row [A.] with the word list A, [A#]: the second word holds the
    block character. *)
Definition engine_hash : Engine := engine_of (Init [lit "A."] [lit "A"; lit "A#"]).

(** * Properties *)

(** ** The pattern dictionary *)

Lemma land_1_testbit (i j : Z) :
  0 <= j -> negb (Z.land (Z.shiftr i j) 1 =? 0) = Z.testbit i j.
Proof.
  intros Hj. rewrite Z.testbit_odd.
  generalize (Z.shiftr i j). intros x.
  change 1 with (Z.ones 1). rewrite Z.land_ones by lia.
  rewrite Z.pow_1_r, Zmod_odd. destruct (Z.odd x); reflexivity.
Qed.

Lemma mask_prefix (w : str) (i : Z) (k : nat) :
  fold_left (mask_step i) (seqZ 0 (Z.of_nat k)) w =
  imap (fun j c => if (j <? k)%nat && Z.testbit i (Z.of_nat j) then ch_blank else c) w.
Proof.
  induction k as [|k IH].
  - simpl. symmetry. apply list_eq. intros j. rewrite list_lookup_imap.
    destruct (w !! j); reflexivity.
  - rewrite seqZ_S, fold_left_app, IH. simpl. unfold mask_step at 1.
    rewrite land_1_testbit by lia. rewrite Z.add_0_l, Nat2Z.id.
    apply list_eq. intros j.
    destruct (Z.testbit i (Z.of_nat k)) eqn:Hb.
    + destruct (decide (j = k)) as [->|Hne].
      * rewrite !list_lookup_imap.
        destruct (w !! k) as [c|] eqn:Hw.
        -- rewrite list_lookup_insert_eq.
           2:{ rewrite length_imap. apply lookup_lt_Some in Hw. exact Hw. }
           simpl. rewrite Hb. replace (k <? S k)%nat with true by (symmetry; apply Nat.ltb_lt; lia).
           reflexivity.
        -- rewrite list_insert_ge.
           ++ rewrite list_lookup_imap, Hw. reflexivity.
           ++ rewrite length_imap. apply lookup_ge_None in Hw. exact Hw.
      * rewrite list_lookup_insert_ne by congruence.
        rewrite !list_lookup_imap. destruct (w !! j); simpl; [|reflexivity].
        f_equal. destruct (Nat.ltb_spec j k), (Nat.ltb_spec j (S k)); try lia; reflexivity.
    + rewrite !list_lookup_imap. destruct (w !! j); simpl; [|reflexivity].
      f_equal. destruct (Nat.ltb_spec j k), (Nat.ltb_spec j (S k)); try reflexivity; try lia.
      assert (j = k) as -> by lia. rewrite Hb. reflexivity.
Qed.

Lemma mask_word_masked (w : str) (i : Z) : mask_word w i = masked w i.
Proof.
  unfold mask_word, masked. rewrite mask_prefix.
  apply list_eq. intros j. rewrite !list_lookup_imap.
  destruct (w !! j) eqn:Hw; simpl; [|reflexivity].
  apply lookup_lt_Some in Hw.
  replace (j <? length w)%nat with true by (symmetry; apply Nat.ltb_lt; lia).
  reflexivity.
Qed.

Lemma length_mask_word (w : str) (i : Z) : length (mask_word w i) = length w.
Proof. rewrite mask_word_masked. apply length_imap. Qed.

Lemma mask_word_0 (w : str) : mask_word w 0 = w.
Proof.
  rewrite mask_word_masked. unfold masked. apply list_eq. intros j.
  rewrite list_lookup_imap. destruct (w !! j); simpl; [|reflexivity].
  rewrite Z.testbit_0_l. reflexivity.
Qed.

Lemma mask_word_lookup (w : str) (i : Z) (j : nat) (c : ascii) :
  w !! j = Some c ->
  mask_word w i !! j = Some (if Z.testbit i (Z.of_nat j) then ch_blank else c).
Proof.
  intros Hw. rewrite mask_word_masked. unfold masked.
  rewrite list_lookup_imap, Hw. reflexivity.
Qed.


Lemma bits_to_Z_bound (l : list bool) : 0 <= bits_to_Z l < 2 ^ Z.of_nat (length l).
Proof.
  induction l as [|b l IH]; [simpl; lia|].
  cbn [bits_to_Z length]. rewrite Nat2Z.inj_succ, Z.pow_succ_r by lia.
  destruct b; simpl Z.b2z; lia.
Qed.

Lemma bits_to_Z_testbit (l : list bool) (j : nat) (b : bool) :
  l !! j = Some b -> Z.testbit (bits_to_Z l) (Z.of_nat j) = b.
Proof.
  revert j. induction l as [|a l IH]; intros j Hj; [discriminate|].
  cbn [bits_to_Z]. rewrite Z.add_comm. destruct j as [|j].
  - simpl in Hj. injection Hj as ->. apply Z.testbit_0_r.
  - rewrite Nat2Z.inj_succ, Z.testbit_succ_r by lia. apply IH. exact Hj.
Qed.

Lemma wildcard_is_mask (S : nat -> bool) (w : str) : is_mask_of (wildcard_at S w) w.
Proof.
  exists (bits_to_Z (map S (seq 0 (length w)))). split.
  - pose proof (bits_to_Z_bound (map S (seq 0 (length w)))) as H.
    rewrite length_map, length_seq in H. exact H.
  - rewrite mask_word_masked. unfold masked, wildcard_at.
    apply list_eq. intros j. rewrite !list_lookup_imap.
    destruct (w !! j) eqn:Hw; simpl; [|reflexivity].
    apply lookup_lt_Some in Hw.
    rewrite (bits_to_Z_testbit _ j (S j)); [reflexivity|].
    rewrite list_lookup_fmap, lookup_seq_lt by lia. reflexivity.
Qed.

Lemma mask_is_wildcard (w : str) (i : Z) :
  mask_word w i = wildcard_at (fun j => Z.testbit i (Z.of_nat j)) w.
Proof. rewrite mask_word_masked. reflexivity. Qed.

(** Pushing one word under a list of keys. *)
Lemma push_bucket_lookup (m : gmap str (list Word)) (k p : str) (w : Word) :
  push_bucket m k w !! p =
  if decide (k = p) then Some (bucket m p ++ [w]) else m !! p.
Proof.
  unfold push_bucket, bucket. rewrite lookup_insert.
  destruct (decide (k = p)) as [->|]; reflexivity.
Qed.

Lemma push_all_keys (keys : list str) (w : Word) (m : gmap str (list Word)) (p : str) :
  is_Some (fold_left (fun m' k => push_bucket m' k w) keys m !! p) <->
  is_Some (m !! p) \/ p ∈ keys.
Proof.
  revert m. induction keys as [|k keys IH]; intros m; simpl.
  - split; [auto|]. intros [H|H]; [exact H|]. inversion H.
  - rewrite IH, push_bucket_lookup, elem_of_cons.
    destruct (decide (k = p)) as [->|Hne].
    + split; [auto|]. intros _. left. eexists. reflexivity.
    + split; intros [H|H]; auto. destruct H as [H|H]; [congruence|auto].
Qed.

Lemma push_all_members (keys : list str) (w : Word) (m : gmap str (list Word))
  (p : str) (x : Word) :
  x ∈ bucket (fold_left (fun m' k => push_bucket m' k w) keys m) p <->
  x ∈ bucket m p \/ (x = w /\ p ∈ keys).
Proof.
  revert m. induction keys as [|k keys IH]; intros m; simpl.
  - split; [auto|]. intros [H|[_ H]]; [exact H|]. inversion H.
  - rewrite IH. unfold bucket at 1. rewrite push_bucket_lookup, elem_of_cons.
    destruct (decide (k = p)) as [->|Hne]; simpl.
    + rewrite elem_of_app, list_elem_of_singleton. tauto.
    + fold (bucket m p). split; intros [H|[H1 H2]]; auto.
      destruct H2 as [H2|H2]; [congruence|auto].
Qed.

Lemma pow2_int_indexable (w : Word) :
  indexable w -> pow2_int (Z.of_nat (length w)) = 2 ^ Z.of_nat (length w).
Proof.
  unfold indexable, pow2_int. intros H.
  replace (Z.of_nat (length w) <? 31) with true by (symmetry; apply Z.ltb_lt; lia).
  reflexivity.
Qed.

Lemma pow2_int_long (w : Word) :
  ~ indexable w -> seqZ 0 (pow2_int (Z.of_nat (length w))) = [].
Proof.
  unfold indexable, pow2_int. intros H.
  replace (Z.of_nat (length w) <? 31) with false by (symmetry; apply Z.ltb_ge; lia).
  reflexivity.
Qed.

Lemma elem_of_mask_keys (w : Word) (p : str) :
  p ∈ map (mask_word w) (seqZ 0 (pow2_int (Z.of_nat (length w)))) <->
  indexable w /\ is_mask_of p w.
Proof.
  destruct (decide (indexable w)) as [Hw|Hw].
  - rewrite (pow2_int_indexable w Hw), list_elem_of_fmap. unfold is_mask_of. split.
    + intros (i & -> & Hi). apply elem_of_seqZ in Hi. split; [exact Hw|].
      exists i. split; [lia|reflexivity].
    + intros (_ & i & Hi & ->). exists i. split; [reflexivity|]. apply elem_of_seqZ. lia.
  - rewrite (pow2_int_long w Hw). split; [intros H; inversion H|tauto].
Qed.

Lemma CreatePatternHash_fold (m : gmap str (list Word)) (word : Word) (m' : gmap str (list Word)) :
  CreatePatternHash m word = Ok m' ->
  m' = fold_left (fun m0 k => push_bucket m0 k word)
         (map (mask_word word) (seqZ 0 (pow2_int (Z.of_nat (length word))))) m.
Proof.
  unfold CreatePatternHash. cbv zeta.
  intros [= <-]. generalize (seqZ 0 (pow2_int (Z.of_nat (length word)))). intros l. revert m.
  induction l as [|i l IH]; intros m; simpl; [reflexivity|]. apply IH.
Qed.

Lemma CreatePatternHash_total (m : gmap str (list Word)) (word : Word) :
  exists m', CreatePatternHash m word = Ok m'.
Proof. unfold CreatePatternHash. eexists. reflexivity. Qed.

Lemma lib_inv_empty : lib_inv Library0.
Proof.
  split; simpl.
  - intros p. rewrite lookup_empty. split.
    + intros [x Hx]. discriminate.
    + intros (w & Hw & _). inversion Hw.
  - intros p x. unfold bucket. rewrite lookup_empty. simpl. split.
    + intros H. inversion H.
    + intros [H _]. inversion H.
Qed.

Lemma lib_inv_add (lib : Library) (word : Word) (m' : gmap str (list Word)) :
  lib_inv lib -> CreatePatternHash (m_umapWords lib) word = Ok m' ->
  lib_inv (mkLibrary (m_vecWords lib ++ [word]) m').
Proof.
  intros [Hk Hm] Hc. apply CreatePatternHash_fold in Hc. subst m'.
  split; simpl.
  - intros p. rewrite push_all_keys, Hk, elem_of_mask_keys. split.
    + intros [(w & Hw & Hp)|Hp].
      * exists w. rewrite elem_of_app. auto.
      * exists word. rewrite elem_of_app, list_elem_of_singleton. auto.
    + intros (w & Hw & Hp). rewrite elem_of_app, list_elem_of_singleton in Hw.
      destruct Hw as [Hw| ->]; [left; eauto|right; exact Hp].
  - intros p x. rewrite push_all_members, Hm, elem_of_mask_keys.
    rewrite elem_of_app, list_elem_of_singleton. split.
    + intros [[H1 H2]|[-> H2]]; auto.
    + intros [[H1| ->] H2]; auto.
Qed.


Lemma ReadFromFile_words (lines : list str) (nMaxSize : Z) (lib lib' : Library) :
  ReadFromFile lib lines nMaxSize = Ok lib' ->
  m_vecWords lib' = m_vecWords lib ++ map normalise (filter (fun l => survives nMaxSize l = true) lines).
Proof.
  revert lib. induction lines as [|line rest IH]; intros lib H; cbn [ReadFromFile] in H.
  - injection H as <-. simpl. rewrite app_nil_r. reflexivity.
  - destruct line as [|c line].
    + rewrite (IH _ H). rewrite filter_cons_False; [reflexivity|]. simpl. discriminate.
    + fold (normalise (c :: line)) in H.
      destruct (Z.of_nat (length (normalise (c :: line))) <=? to_size_t nMaxSize) eqn:Hle.
      * destruct (CreatePatternHash (m_umapWords lib) (normalise (c :: line))) as [m| |] eqn:Hc;
          simpl in H; try discriminate.
        rewrite (IH _ H). simpl. rewrite filter_cons_True.
        2:{ unfold survives. rewrite Hle. reflexivity. }
        simpl. rewrite <- app_assoc. reflexivity.
      * rewrite (IH _ H). rewrite filter_cons_False; [reflexivity|].
        unfold survives. rewrite Hle. simpl. discriminate.
Qed.

Lemma ReadFromFile_inv (lines : list str) (nMaxSize : Z) (lib lib' : Library) :
  lib_inv lib -> ReadFromFile lib lines nMaxSize = Ok lib' -> lib_inv lib'.
Proof.
  revert lib. induction lines as [|line rest IH]; intros lib Hinv H; cbn [ReadFromFile] in H.
  - injection H as <-. exact Hinv.
  - destruct line as [|c line]; [eauto|].
    destruct (Z.of_nat (length (strip_last (ToUpper (c :: line)))) <=? to_size_t nMaxSize);
      [|eauto].
    destruct (CreatePatternHash (m_umapWords lib) (strip_last (ToUpper (c :: line))))
      as [m| |] eqn:Hc; simpl in H; try discriminate.
    eapply IH; [|exact H]. apply lib_inv_add; assumption.
Qed.

Lemma to_size_t_small (n : Z) : 0 <= n < 2 ^ 31 -> to_size_t n = n.
Proof. intros H. unfold to_size_t. apply Z.mod_small. lia. Qed.

Lemma ReadFromFile_returns (lines : list str) (nMaxSize : Z) (lib : Library) :
  exists lib', ReadFromFile lib lines nMaxSize = Ok lib'.
Proof.
  revert lib. induction lines as [|line rest IH]; intros lib; cbn [ReadFromFile].
  - eexists. reflexivity.
  - destruct line as [|c line]; [apply IH|].
    destruct (Z.of_nat (length (strip_last (ToUpper (c :: line)))) <=? to_size_t nMaxSize);
      [|apply IH].
    destruct (CreatePatternHash_total (m_umapWords lib) (strip_last (ToUpper (c :: line))))
      as [m Hm].
    rewrite Hm. simpl. apply IH.
Qed.

Lemma is_upper_not_blank (c : ascii) : is_upper c = true -> c <> ch_blank.
Proof. intros H ->. vm_compute in H. discriminate. Qed.

Lemma all_letters_mask (s : str) (w : Word) :
  all_letters s -> is_mask_of s w -> s = w.
Proof.
  intros Hs (i & _ & ->). rewrite mask_word_masked in *. unfold masked in *.
  apply list_eq. intros j. rewrite list_lookup_imap.
  destruct (w !! j) as [c|] eqn:Hw; simpl; [|reflexivity].
  destruct (Z.testbit i (Z.of_nat j)) eqn:Hb; [|reflexivity].
  exfalso. unfold all_letters in Hs. rewrite Forall_lookup in Hs.
  apply (is_upper_not_blank ch_blank); [|reflexivity].
  apply (Hs j). rewrite list_lookup_imap, Hw. simpl. rewrite Hb. reflexivity.
Qed.

Lemma self_mask (w : Word) : is_mask_of w w.
Proof.
  exists 0. split; [|symmetry; apply mask_word_0].
  pose proof (Z.pow_pos_nonneg 2 (Z.of_nat (length w))). lia.
Qed.

Lemma lib_inv_find (lib : Library) (w : Word) (p : str) :
  lib_inv lib -> w ∈ m_vecWords lib -> indexable w -> is_mask_of p w ->
  exists ws, m_umapWords lib !! p = Some ws /\ w ∈ ws.
Proof.
  intros [Hk Hm] Hw Hi Hp.
  assert (w ∈ bucket (m_umapWords lib) p) as Hin by (apply Hm; auto).
  unfold bucket in Hin. destruct (m_umapWords lib !! p) as [ws|]; simpl in Hin.
  - exists ws. auto.
  - inversion Hin.
Qed.

Lemma lib_inv_IsWord (lib : Library) (s : str) :
  lib_inv lib -> all_letters s ->
  (IsWord lib s = true <-> s ∈ m_vecWords lib /\ indexable s).
Proof.
  intros Hinv Hs. unfold IsWord. split.
  - destruct (m_umapWords lib !! s) as [ws|] eqn:E; [|discriminate]. intros _.
    assert (is_Some (m_umapWords lib !! s)) as Hk by (rewrite E; eauto).
    apply (inv_keys _ Hinv) in Hk. destruct Hk as (w & Hw & Hi & Hp).
    rewrite (all_letters_mask s w Hs Hp). auto.
  - intros [Hw Hi].
    destruct (lib_inv_find lib s s Hinv Hw Hi (self_mask s)) as (ws & -> & _).
    reflexivity.
Qed.

(** C2 as the code has it: the pattern index is complete for the loaded
    words of at most 30 characters. For a library that [ReadFromFile]
    built, every loaded word [w] of at most 30 characters is found under
    each of its masked patterns: under the pattern of every bit mask [i]
    below [2 ^ length w] (which has the wildcard exactly at the positions
    whose bit is set in [i]), and under the pattern of every subset [S] of
    its positions; [FindWord] returns a list that contains [w]. A pattern
    that is a masked pattern of no loaded word is no key, and [FindWord]
    returns the null pointer. *)
Theorem C2_pattern_index_complete (lines : list str) (nMaxSize : Z) (lib : Library) :
  ReadFromFile Library0 lines nMaxSize = Ok lib ->
  (forall w, w ∈ m_vecWords lib -> Z.of_nat (length w) <= 30 ->
     (forall i, 0 <= i < 2 ^ Z.of_nat (length w) ->
        mask_word w i = wildcard_at (fun j => Z.testbit i (Z.of_nat j)) w /\
        exists ws, m_umapWords lib !! mask_word w i = Some ws /\
                   FindWord lib (mask_word w i) = Some ws /\ w ∈ ws) /\
     (forall S : nat -> bool,
        exists ws, m_umapWords lib !! wildcard_at S w = Some ws /\
                   FindWord lib (wildcard_at S w) = Some ws /\ w ∈ ws)) /\
  (forall p, (forall w, w ∈ m_vecWords lib -> ~ is_mask_of p w) -> FindWord lib p = None).
Proof.
  intros Hload.
  assert (lib_inv lib) as Hinv by (eapply ReadFromFile_inv; [apply lib_inv_empty|exact Hload]).
  split.
  - intros w Hw Hlen.
    assert (indexable w) as Hix by (unfold indexable; lia). split.
    + intros i Hi. split; [apply mask_is_wildcard|].
      destruct (lib_inv_find lib w (mask_word w i) Hinv Hw Hix) as (ws & H1 & H2).
      * exists i. auto.
      * exists ws. unfold FindWord. auto.
    + intros S.
      destruct (lib_inv_find lib w (wildcard_at S w) Hinv Hw Hix (wildcard_is_mask S w))
        as (ws & H1 & H2).
      exists ws. unfold FindWord. auto.
  - intros p Hp. unfold FindWord.
    destruct (m_umapWords lib !! p) as [ws|] eqn:E; [|reflexivity].
    exfalso. assert (is_Some (m_umapWords lib !! p)) as Hk by (rewrite E; eauto).
    apply (inv_keys _ Hinv) in Hk. destruct Hk as (w & Hw & _ & Hm). exact (Hp w Hw Hm).
Qed.

Lemma C2_witness :
  ReadFromFile Library0 [lit "CAT"] 3 = Ok lib_CAT /\
  (exists ws, FindWord lib_CAT (lit "C.T") = Some ws /\ lit "CAT" ∈ ws) /\
  FindWord lib_CAT (lit "C.") = None.
Proof.
  assert (ReadFromFile Library0 [lit "CAT"] 3 = Ok lib_CAT) as Hload
    by (vm_compute; reflexivity).
  destruct (C2_pattern_index_complete [lit "CAT"] 3 lib_CAT Hload) as [Hfind Hnone].
  split; [exact Hload|]. split.
  - destruct (Hfind (lit "CAT")) as [_ HS].
    + vm_compute. left.
    + simpl. lia.
    + destruct (HS (fun j => Nat.eqb j 1)) as (ws & _ & H1 & H2).
      exists ws. split; [exact H1|exact H2].
  - vm_compute. reflexivity.
Defined.

(** C2 as stated fails: a word of 31 letters survives the load with a
    maximum of 31, and its own text, the pattern of the empty subset of its
    positions, is no key of the index. *)
Lemma C2_counterexample :
  exists lib, ReadFromFile Library0 [word31] 31 = Ok lib /\
    word31 ∈ m_vecWords lib /\
    wildcard_at (fun _ => false) word31 = word31 /\
    FindWord lib word31 = None.
Proof.
  eexists. split; [vm_compute; reflexivity|]. split; [left|].
  split; vm_compute; reflexivity.
Qed.

(** C10 as the code has it: [IsWord] is the test that the string is a key
    of the pattern index. On an all-letters string of at most 30 characters
    it is membership in the loaded word list (an all-letters string that it
    accepts is a loaded word whatever its length); on a string with a
    wildcard it can hold although the string is no word: after loading
    [CAT], [IsWord ".AT"] holds. *)
Theorem C10_IsWord_is_key_test (lines : list str) (nMaxSize : Z) (lib : Library) :
  ReadFromFile Library0 lines nMaxSize = Ok lib ->
  (forall s, IsWord lib s = true <-> is_Some (m_umapWords lib !! s)) /\
  (forall s, all_letters s -> Z.of_nat (length s) <= 30 ->
     (IsWord lib s = true <-> s ∈ m_vecWords lib)) /\
  (forall s, all_letters s -> IsWord lib s = true -> s ∈ m_vecWords lib) /\
  (forall w i, w ∈ m_vecWords lib -> 0 <= i < 2 ^ Z.of_nat (length w) ->
     all_letters (mask_word w i) -> mask_word w i = w) /\
  (exists libc, ReadFromFile Library0 [lit "CAT"] 3 = Ok libc /\
     m_vecWords libc = [lit "CAT"] /\
     IsWord libc (lit ".AT") = true /\ lit ".AT" ∉ m_vecWords libc).
Proof.
  intros Hload.
  assert (lib_inv lib) as Hinv by (eapply ReadFromFile_inv; [apply lib_inv_empty|exact Hload]).
  split; [|split; [|split; [|split]]].
  - intros s. unfold IsWord. destruct (m_umapWords lib !! s); split; intros H;
      try reflexivity; try discriminate; eauto. destruct H as [x Hx]. discriminate.
  - intros s Hs Hlen. rewrite (lib_inv_IsWord lib s Hinv Hs). unfold indexable. split.
    + intros [H _]. exact H.
    + intros H. split; [exact H|lia].
  - intros s Hs H. apply (lib_inv_IsWord lib s Hinv Hs) in H. apply H.
  - intros w i Hw Hi Hl. apply all_letters_mask; [exact Hl|]. exists i. auto.
  - exists lib_CAT. split; [vm_compute; reflexivity|]. split; [vm_compute; reflexivity|].
    split; [vm_compute; reflexivity|].
    intros H. apply list_elem_of_singleton in H. discriminate.
Qed.

Lemma C10_witness :
  ReadFromFile Library0 [lit "CAT"] 3 = Ok lib_CAT /\
  (IsWord lib_CAT (lit "CAT") = true <-> lit "CAT" ∈ m_vecWords lib_CAT).
Proof.
  assert (ReadFromFile Library0 [lit "CAT"] 3 = Ok lib_CAT) as Hload
    by (vm_compute; reflexivity).
  split; [exact Hload|].
  apply (C10_IsWord_is_key_test [lit "CAT"] 3 lib_CAT Hload).
  - repeat constructor.
  - simpl. lia.
Defined.

(** C10 as stated fails: a word of 31 letters is loaded with a maximum of
    31, it is made of letters only, and [IsWord] rejects it. *)
Lemma C10_counterexample :
  exists lib, ReadFromFile Library0 [word31] 31 = Ok lib /\
    all_letters word31 /\ word31 ∈ m_vecWords lib /\ IsWord lib word31 = false.
Proof.
  eexists. split; [vm_compute; reflexivity|]. split; [|split; [left|vm_compute; reflexivity]].
  unfold all_letters, word31. apply Forall_replicate. reflexivity.
Qed.

(** ** Dictionary load *)

Lemma ToUpper_map (s : str) : ToUpper s = map toupper s.
Proof. induction s as [|c s IH]; simpl; [reflexivity|]. rewrite IH. reflexivity. Qed.

Lemma toupper_spec (c : ascii) :
  (97 <= code c <= 122 -> code (toupper c) = code c - 32) /\
  (~ 97 <= code c <= 122 -> toupper c = c).
Proof.
  unfold toupper. split; intros H.
  - replace ((97 <=? code c) && (code c <=? 122)) with true
      by (symmetry; apply andb_true_iff; lia).
    unfold code at 1. rewrite N_ascii_embedding.
    + unfold code in *. lia.
    + unfold code in *. lia.
  - replace ((97 <=? code c) && (code c <=? 122)) with false; [reflexivity|].
    symmetry. apply andb_false_iff. lia.
Qed.

Lemma strip_last_snoc (l : str) (c : ascii) :
  strip_last (l ++ [c]) = if is_trailer c then l else l ++ [c].
Proof.
  unfold strip_last. rewrite length_app. simpl.
  replace (length l + 1 - 1)%nat with (length l) by lia.
  rewrite lookup_app_r by lia. rewrite Nat.sub_diag. simpl.
  destruct (is_trailer c); [|reflexivity].
  rewrite take_app_length. reflexivity.
Qed.

Lemma survives_spec (nMaxSize : Z) (line : str) :
  0 <= nMaxSize < 2 ^ 31 ->
  survives nMaxSize line = true <->
  line <> [] /\ Z.of_nat (length (normalise line)) <= nMaxSize.
Proof.
  intros Hn. unfold survives. rewrite to_size_t_small by exact Hn.
  rewrite andb_true_iff, Z.leb_le.
  destruct line; simpl; split; intros [H1 H2]; split; try congruence; auto.
Qed.

(** C5 as the code has it: every non-empty line is folded to uppercase,
    then loses its last character when that is a carriage return, a space or
    a tab; the resulting word is kept exactly when its length is at most the
    maximum. The master list holds the kept words in file order, and every
    kept word of at most 30 characters is in the pattern index under each of
    its masked patterns. No test for an empty word or for a character
    outside A-Z is made. *)
Theorem C5_load_keeps_by_length (lines : list str) (nMaxSize : Z) (lib : Library) :
  0 <= nMaxSize < 2 ^ 31 ->
  ReadFromFile Library0 lines nMaxSize = Ok lib ->
  m_vecWords lib = map normalise (filter (fun l => survives nMaxSize l = true) lines) /\
  (forall line, survives nMaxSize line = true <->
                line <> [] /\ Z.of_nat (length (normalise line)) <= nMaxSize) /\
  (forall line, normalise line = strip_last (map toupper line)) /\
  (forall c, (97 <= code c <= 122 -> code (toupper c) = code c - 32) /\
             (~ 97 <= code c <= 122 -> toupper c = c)) /\
  strip_last [] = [] /\
  (forall l c, strip_last (l ++ [c]) = if is_trailer c then l else l ++ [c]) /\
  (forall w, w ∈ m_vecWords lib -> Z.of_nat (length w) <= 30 -> forall S : nat -> bool,
     exists ws, m_umapWords lib !! wildcard_at S w = Some ws /\ w ∈ ws).
Proof.
  intros Hn Hload.
  assert (lib_inv lib) as Hinv by (eapply ReadFromFile_inv; [apply lib_inv_empty|exact Hload]).
  split; [|split; [|split; [|split; [|split; [|split]]]]].
  - apply ReadFromFile_words in Hload. exact Hload.
  - intros line. apply survives_spec. exact Hn.
  - intros line. unfold normalise. rewrite ToUpper_map. reflexivity.
  - apply toupper_spec.
  - reflexivity.
  - apply strip_last_snoc.
  - intros w Hw Hlen S.
    apply lib_inv_find; [exact Hinv|exact Hw|unfold indexable; lia|apply wildcard_is_mask].
Qed.

Lemma C5_witness :
  ReadFromFile Library0 [lit "CAT"] 3 = Ok lib_CAT /\ m_vecWords lib_CAT = [lit "CAT"].
Proof.
  assert (ReadFromFile Library0 [lit "CAT"] 3 = Ok lib_CAT) as Hload
    by (vm_compute; reflexivity).
  split; [exact Hload|].
  assert (0 <= 3 < 2 ^ 31) as Hn by (split; [discriminate|reflexivity]).
  rewrite (proj1 (C5_load_keeps_by_length [lit "CAT"] 3 lib_CAT Hn Hload)).
  vm_compute. reflexivity.
Defined.

(** C5 as stated fails: the line [a1] is kept as the word [A1], which has a
    character outside A-Z, and a line made of a carriage return alone is
    kept as the empty word; a word of 31 letters that passes the length test
    is appended to the master list and is under no key of the index. *)
Lemma C5_counterexample :
  (exists lib, ReadFromFile Library0 [lit "a1"; ["013"%char]] 5 = Ok lib /\
               m_vecWords lib = [lit "A1"; []] /\
               ~ all_letters (lit "A1")) /\
  (exists lib, ReadFromFile Library0 [word31] 31 = Ok lib /\
               m_vecWords lib = [word31] /\ m_umapWords lib !! word31 = None).
Proof.
  split.
  - eexists. split; [vm_compute; reflexivity|]. split; [vm_compute; reflexivity|].
    intros H. inversion H as [|? ? _ H2]. inversion H2 as [|? ? H3 _].
    vm_compute in H3. discriminate.
  - eexists. split; [vm_compute; reflexivity|]. split; vm_compute; reflexivity.
Qed.

(** ** Grid construction *)

Lemma LoadFromFile_loop_filter (lines vec : list str) :
  LoadFromFile_loop lines vec = vec ++ filter (fun l => keep_line l = true) lines.
Proof.
  revert vec. induction lines as [|line rest IH]; intros vec; simpl.
  - rewrite app_nil_r. reflexivity.
  - rewrite IH. destruct (keep_line line) eqn:E.
    + rewrite filter_cons_True by exact E. rewrite <- app_assoc. reflexivity.
    + rewrite filter_cons_False by congruence. reflexivity.
Qed.

Lemma keep_line_spec (line : str) :
  keep_line line = true <-> line <> [] /\ head line <> Some "/"%char.
Proof.
  destruct line as [|c line]; simpl.
  - split; [discriminate|]. intros [H _]. congruence.
  - rewrite negb_true_iff. unfold ch_eqb, code. split.
    + intros H. split; [discriminate|]. intros [= ->]. vm_compute in H. discriminate.
    + intros [_ H]. apply Z.eqb_neq. intros E. apply H. f_equal.
      apply N2Z.inj in E. rewrite <- (ascii_N_embedding c), E. reflexivity.
Qed.

Lemma CheckSize_loop_spec (c : Z) (ls : list str) :
  CheckSize_loop c ls = Ok tt <-> Forall (fun l => Z.of_nat (length l) = c) ls.
Proof.
  induction ls as [|l ls IH]; simpl.
  - split; [constructor|reflexivity].
  - rewrite Forall_cons. destruct (Z.eqb_spec (Z.of_nat (length l)) c) as [E|E]; simpl.
    + rewrite IH. tauto.
    + split; [discriminate|]. intros [H _]. contradiction.
Qed.

Lemma CheckSize_loop_cases (c : Z) (ls : list str) :
  CheckSize_loop c ls = Ok tt \/ CheckSize_loop c ls = Abort.
Proof.
  induction ls as [|l ls IH]; simpl; [left; reflexivity|].
  destruct (Z.of_nat (length l) =? c); simpl; auto.
Qed.

Lemma CheckSize_spec (g : Grid) :
  CheckSize g = Ok tt <-> Forall (fun l => Z.of_nat (length l) = cols g) (vecLines g).
Proof. apply CheckSize_loop_spec. Qed.

Lemma CheckSize_same_length (g : Grid) :
  CheckSize g = Ok tt <->
  forall l1 l2, l1 ∈ vecLines g -> l2 ∈ vecLines g -> length l1 = length l2.
Proof.
  rewrite CheckSize_spec, Forall_forall. unfold cols. split.
  - intros H l1 l2 H1 H2. apply H in H1, H2. lia.
  - intros H l Hl. destruct (vecLines g) as [|l0 ls]; [inversion Hl|].
    rewrite (H l l0 Hl); [reflexivity|]. left.
Qed.

(** C6 as the code has it: the grid keeps exactly the lines that are not
    empty and do not begin with [/], in order and unchanged; the size check
    passes exactly when all kept lines have one length and otherwise fails
    its assertion. Cells are not validated against an alphabet. *)
Theorem C6_grid_lines_kept_and_sized (lines : list str) :
  vecLines (LoadFromFile Grid0 lines) = filter (fun l => keep_line l = true) lines /\
  (forall l, keep_line l = true <-> l <> [] /\ head l <> Some "/"%char) /\
  (CheckSize (LoadFromFile Grid0 lines) = Ok tt <->
   forall l1 l2, l1 ∈ vecLines (LoadFromFile Grid0 lines) ->
                 l2 ∈ vecLines (LoadFromFile Grid0 lines) -> length l1 = length l2) /\
  (CheckSize (LoadFromFile Grid0 lines) = Ok tt \/
   CheckSize (LoadFromFile Grid0 lines) = Abort).
Proof.
  split; [|split; [|split]].
  - unfold LoadFromFile. simpl. apply LoadFromFile_loop_filter.
  - apply keep_line_spec.
  - apply CheckSize_same_length.
  - apply CheckSize_loop_cases.
Qed.

(** C6 as stated fails: the grid line [a?] is accepted by the whole
    initialisation although neither of its characters is in the cell
    alphabet. *)
Lemma C6_counterexample :
  exists e, Init [lit "a?"] [] = Ok e /\
            vecLines (m_grid e) = [lit "a?"] /\
            Forall (fun c => is_cell c = false) (lit "a?").
Proof.
  eexists. split; [vm_compute; reflexivity|]. split; [vm_compute; reflexivity|].
  repeat constructor.
Qed.

(** A carriage return that ends a grid line is kept as a cell: the row
    [AB] followed by a carriage return has three columns. *)
Example grid_line_keeps_carriage_return :
  vecLines (LoadFromFile Grid0 [lit "AB" ++ ["013"%char]]) = [lit "AB" ++ ["013"%char]] /\
  cols (LoadFromFile Grid0 [lit "AB" ++ ["013"%char]]) = 3.
Proof. split; reflexivity. Qed.

(** ** The progress assertion *)

Lemma engine_of_ok (r : res Engine) : is_ok r = true -> r = Ok (engine_of r).
Proof. destruct r; simpl; intros H; try discriminate. reflexivity. Qed.

Lemma Search_unfold (fuel : nat) (e : Engine) :
  Search fuel e =
  (fst (Loop fuel (m_lib e) (m_grid e) 0),
   match snd (Loop fuel (m_lib e) (m_grid e) 0) with
   | Ok _ => Ok e
   | Abort => Abort
   | OutOfFuel => OutOfFuel
   end).
Proof.
  unfold Search, bindM. destruct (Loop fuel (m_lib e) (m_grid e) 0) as [out [[]| |]]; simpl;
    rewrite ?app_nil_r; reflexivity.
Qed.

Lemma Search_ok (fuel : nat) (e : Engine) :
  snd (Loop fuel (m_lib e) (m_grid e) 0) = Ok tt -> snd (Search fuel e) = Ok e.
Proof. intros H. rewrite Search_unfold. simpl. rewrite H. reflexivity. Qed.

Lemma Loop_no_partial_aborts (fuel : nat) (lib : Library) (g : Grid) (d : Z)
  (vE vF : list Slot) :
  classify g (vecSpans g) [] [] [] = Ok (vE, [], vF) ->
  vE <> [] ->
  all_words lib vF = true ->
  no_dups vF ∅ = Ok true ->
  Loop (S fuel) lib g d = ([], Abort).
Proof.
  intros Hc HE Hw Hd. simpl. rewrite Hc. unfold bindM at 1. simpl.
  rewrite Hw. simpl. rewrite Hd. unfold bindM at 1. simpl.
  destruct vE as [|s vE]; [congruence|]. reflexivity.
Qed.

(** C3: what the code does on the input of the claim. On the single-row
    grid of five blanks with the dictionary HELLO, WORLD the search prints
    no solution, where HELLO and WORLD are expected, and ends on its own
    failed assertion [assert(nPartial > 0)] at the first node: all six spans
    of that node (the row and the five one-cell columns) are empty and none
    is partial. Any node that passes both prunes with an empty slot and no
    partial slot fails that assertion. With the first letter given and the
    one-letter words in the dictionary the row is solved: the grid [W....]
    with HELLO, WORLD, W, O, R, L, D yields the one solution WORLD. *)
Theorem C3_blank_row_fails_progress :
  (Init [lit "....."] [lit "HELLO"; lit "WORLD"] = Ok engine_blank_row /\
   (exists vE, classify (m_grid engine_blank_row) (vecSpans (m_grid engine_blank_row))
                 [] [] [] = Ok (vE, [], []) /\ length vE = 6%nat) /\
   (forall fuel, Search (S fuel) engine_blank_row = ([], Abort)) /\
   (forall fuel, solutions (Search fuel engine_blank_row) = [])) /\
  (forall fuel lib g d vE vF,
     classify g (vecSpans g) [] [] [] = Ok (vE, [], vF) ->
     vE <> [] -> all_words lib vF = true -> no_dups vF ∅ = Ok true ->
     Loop (S fuel) lib g d = ([], Abort)) /\
  (Init [lit "W...."]
     [lit "HELLO"; lit "WORLD"; lit "W"; lit "O"; lit "R"; lit "L"; lit "D"] = Ok engine_W_row /\
   forall fuel, solutions (Search (S (S fuel)) engine_W_row) = [[lit "WORLD"]] /\
                snd (Search (S (S fuel)) engine_W_row) = Ok engine_W_row).
Proof.
  split; [|split].
  - split; [apply engine_of_ok; vm_compute; reflexivity|]. split; [|split].
    + eexists. split; [vm_compute; reflexivity|]. reflexivity.
    + intros fuel. vm_compute. reflexivity.
    + intros [|fuel]; vm_compute; reflexivity.
  - intros. eapply Loop_no_partial_aborts; eassumption.
  - split; [apply engine_of_ok; vm_compute; reflexivity|].
    intros fuel. split; [vm_compute; reflexivity|].
    apply Search_ok. vm_compute. reflexivity.
Qed.

Lemma C3_witness :
  Loop 1 Library0 (mkGrid (lit "0") [lit "."] [mkSpan (mkPoint 0 0) 1 false]) 0 = ([], Abort).
Proof.
  apply (proj1 (proj2 C3_blank_row_fails_progress) 0%nat Library0 _ 0
           [mkSlot (mkSpan (mkPoint 0 0) 1 false) (lit ".")] []).
  - vm_compute. reflexivity.
  - discriminate.
  - reflexivity.
  - reflexivity.
Defined.

(** ** Cells, [SetChar] and the span strings *)

Lemma ch_eqb_eq (c x : ascii) : ch_eqb c x = true <-> c = x.
Proof.
  unfold ch_eqb, code. rewrite Z.eqb_eq. split; [|intros ->; reflexivity].
  intros H. apply N2Z.inj in H.
  rewrite <- (ascii_N_embedding c), <- (ascii_N_embedding x), H. reflexivity.
Qed.

Lemma ch_eqb_refl (c : ascii) : ch_eqb c c = true.
Proof. apply ch_eqb_eq. reflexivity. Qed.

Lemma ch_eqb_neq (c x : ascii) : ch_eqb c x = false <-> c <> x.
Proof.
  rewrite <- ch_eqb_eq. destruct (ch_eqb c x); split; congruence.
Qed.

Lemma rows_shape (g : Grid) : rows g = Z.of_nat (length (shape g)).
Proof. unfold rows, shape. rewrite length_fmap. reflexivity. Qed.

Lemma cols_shape (g : Grid) : cols g = Z.of_nat (default 0%nat (head (shape g))).
Proof. unfold cols, shape. destruct (vecLines g); reflexivity. Qed.

Lemma IsInBounds_shape (g1 g2 : Grid) (p : Point) :
  shape g1 = shape g2 -> IsInBounds g1 p = IsInBounds g2 p.
Proof.
  intros H. unfold IsInBounds. rewrite !rows_shape, !cols_shape, H. reflexivity.
Qed.

Lemma writable_shape (g1 g2 : Grid) (p : Point) :
  shape g1 = shape g2 -> writable g1 p = writable g2 p.
Proof.
  intros H. unfold writable. rewrite (IsInBounds_shape g1 g2 p H). f_equal.
  assert (shape g1 !! Z.to_nat (nRow p) = shape g2 !! Z.to_nat (nRow p)) as E
    by (rewrite H; reflexivity).
  unfold shape in E. rewrite !list_lookup_fmap in E.
  destruct (vecLines g1 !! Z.to_nat (nRow p)), (vecLines g2 !! Z.to_nat (nRow p));
    simpl in E; try discriminate; [|reflexivity].
  injection E as ->. reflexivity.
Qed.

Lemma SetChar_writable (g : Grid) (p : Point) (c : ascii) :
  SetChar g p c =
  if writable g p
  then Ok (set_lines g (alter (fun line => <[Z.to_nat (nCol p) := c]> line)
                          (Z.to_nat (nRow p)) (vecLines g)))
  else Abort.
Proof.
  unfold SetChar, writable. destruct (IsInBounds g p); simpl; [|reflexivity].
  destruct (vecLines g !! Z.to_nat (nRow p)) as [line|] eqn:E; [|reflexivity].
  destruct (Z.to_nat (nCol p) <? length line)%nat; simpl; [|reflexivity].
  f_equal. f_equal. apply list_eq. intros r.
  destruct (decide (r = Z.to_nat (nRow p))) as [->|Hne].
  - rewrite list_lookup_alter_eq, E. simpl.
    rewrite list_lookup_insert_eq; [reflexivity|]. apply lookup_lt_Some in E. exact E.
  - rewrite list_lookup_alter_ne by congruence.
    rewrite list_lookup_insert_ne by congruence. reflexivity.
Qed.

Lemma SetChar_frame (g g' : Grid) (p : Point) (c : ascii) :
  SetChar g p c = Ok g' ->
  sID g' = sID g /\ vecSpans g' = vecSpans g /\ shape g' = shape g.
Proof.
  rewrite SetChar_writable. destruct (writable g p); [|discriminate].
  intros [= <-]. simpl. split; [reflexivity|]. split; [reflexivity|].
  unfold shape. simpl. apply list_eq. intros r. rewrite !list_lookup_fmap.
  destruct (decide (r = Z.to_nat (nRow p))) as [->|Hne].
  - rewrite list_lookup_alter_eq. destruct (vecLines g !! Z.to_nat (nRow p)); simpl; [|reflexivity].
    rewrite length_insert. reflexivity.
  - rewrite list_lookup_alter_ne by congruence. reflexivity.
Qed.

Lemma SetChar_cell (g g' : Grid) (p : Point) (c : ascii) (r k : nat) :
  SetChar g p c = Ok g' ->
  cell (vecLines g') r k =
  if decide (r = Z.to_nat (nRow p) /\ k = Z.to_nat (nCol p)) then Some c
  else cell (vecLines g) r k.
Proof.
  rewrite SetChar_writable. unfold writable.
  destruct (IsInBounds g p); simpl; [|discriminate].
  destruct (vecLines g !! Z.to_nat (nRow p)) as [line|] eqn:E; [|discriminate].
  destruct (Nat.ltb_spec (Z.to_nat (nCol p)) (length line)) as [Hlt|]; [|discriminate].
  intros [= <-]. simpl. unfold cell.
  destruct (decide (r = Z.to_nat (nRow p))) as [->|Hne].
  - rewrite list_lookup_alter_eq, E. simpl.
    destruct (decide (k = Z.to_nat (nCol p))) as [->|Hk].
    + rewrite list_lookup_insert_eq by exact Hlt.
      destruct (decide _) as [_|H]; [reflexivity|]. exfalso. apply H. auto.
    + rewrite list_lookup_insert_ne by congruence.
      destruct (decide _) as [[_ H]|_]; [congruence|reflexivity].
  - rewrite list_lookup_alter_ne by congruence.
    destruct (decide _) as [[H _]|_]; [congruence|reflexivity].
Qed.

Lemma SetChar_in_bounds (g g' : Grid) (p : Point) (c : ascii) :
  SetChar g p c = Ok g' -> IsInBounds g p = true.
Proof.
  unfold SetChar. destruct (IsInBounds g p); [reflexivity|discriminate].
Qed.

Lemma grid_ext (g1 g2 : Grid) :
  sID g1 = sID g2 -> vecSpans g1 = vecSpans g2 -> shape g1 = shape g2 ->
  (forall r k, cell (vecLines g1) r k = cell (vecLines g2) r k) ->
  g1 = g2.
Proof.
  destruct g1 as [i1 l1 s1], g2 as [i2 l2 s2]. simpl. unfold shape. simpl.
  intros -> -> Hs Hc. f_equal. apply list_eq. intros r.
  specialize (fun k => Hc r k). unfold cell in Hc.
  assert (length <$> l1 !! r = length <$> l2 !! r) as Hl
    by (rewrite <- !list_lookup_fmap; f_equal; exact Hs).
  destruct (l1 !! r) as [a|], (l2 !! r) as [b|]; simpl in Hl; try discriminate; [|reflexivity].
  f_equal. apply list_eq. exact Hc.
Qed.

Lemma GetPoint_pt (sp : Span) (i : Z) :
  GetPoint sp i = if (0 <=? i) && (i <? nLen sp) then Ok (pt sp i) else Abort.
Proof. unfold GetPoint, pt. destruct ((0 <=? i) && (i <? nLen sp)); reflexivity. Qed.

Lemma pt_inj (sp : Span) (i j : Z) : pt sp i = pt sp j -> i = j.
Proof. unfold pt. destruct (bVert sp); intros [= H]; lia. Qed.

Lemma is_at_inj (g : Grid) (sp : Span) (i j : Z) (r k : nat) :
  IsInBounds g (pt sp i) = true -> IsInBounds g (pt sp j) = true ->
  is_at (pt sp i) r k -> is_at (pt sp j) r k -> i = j.
Proof.
  unfold IsInBounds, is_at, pt. destruct (bVert sp); simpl; intros H1 H2 [-> ->] [E1 E2];
    repeat (apply andb_true_iff in H1 as [H1 ?]); repeat (apply andb_true_iff in H2 as [H2 ?]);
    lia.
Qed.

Lemma SetString_loop_frame (sp : Span) (s : str) (idx : list Z) (g g' : Grid) :
  SetString_loop g sp idx s = Ok g' ->
  sID g' = sID g /\ vecSpans g' = vecSpans g /\ shape g' = shape g.
Proof.
  revert g. induction idx as [|i idx IH]; intros g H; simpl in H.
  - injection H as <-. auto.
  - destruct (GetPoint sp i) as [p| |]; simpl in H; try discriminate.
    destruct (s !! Z.to_nat i) as [c|]; simpl in H; try discriminate.
    destruct (SetChar g p c) as [g1| |] eqn:E; simpl in H; try discriminate.
    apply SetChar_frame in E. apply IH in H. destruct E as (? & ? & ?), H as (? & ? & ?).
    repeat split; congruence.
Qed.

Lemma SetString_loop_bounds (sp : Span) (s : str) (idx : list Z) (g g' : Grid) :
  SetString_loop g sp idx s = Ok g' ->
  forall i, i ∈ idx ->
    0 <= i < nLen sp /\ IsInBounds g (pt sp i) = true /\ is_Some (s !! Z.to_nat i).
Proof.
  revert g. induction idx as [|j idx IH]; intros g H i Hi; simpl in H.
  - inversion Hi.
  - rewrite GetPoint_pt in H.
    destruct ((0 <=? j) && (j <? nLen sp)) eqn:Hj; simpl in H; try discriminate.
    destruct (s !! Z.to_nat j) as [c|] eqn:Hs; simpl in H; try discriminate.
    destruct (SetChar g (pt sp j) c) as [g1| |] eqn:E; simpl in H; try discriminate.
    apply elem_of_cons in Hi. destruct Hi as [->|Hi].
    + split; [apply andb_true_iff in Hj; lia|]. split; [|eauto].
      eapply SetChar_in_bounds. exact E.
    + destruct (IH _ H i Hi) as (H1 & H2 & H3). split; [exact H1|]. split; [|exact H3].
      rewrite <- H2. apply IsInBounds_shape. symmetry. apply (SetChar_frame _ _ _ _ E).
Qed.

Lemma SetString_loop_other (sp : Span) (s : str) (idx : list Z) (g g' : Grid) (r k : nat) :
  SetString_loop g sp idx s = Ok g' ->
  (forall i, i ∈ idx -> ~ is_at (pt sp i) r k) ->
  cell (vecLines g') r k = cell (vecLines g) r k.
Proof.
  revert g. induction idx as [|j idx IH]; intros g H Hn; simpl in H.
  - injection H as <-. reflexivity.
  - rewrite GetPoint_pt in H.
    destruct ((0 <=? j) && (j <? nLen sp)); simpl in H; try discriminate.
    destruct (s !! Z.to_nat j) as [c|]; simpl in H; try discriminate.
    destruct (SetChar g (pt sp j) c) as [g1| |] eqn:E; simpl in H; try discriminate.
    rewrite (IH _ H). 2:{ intros i Hi. apply Hn. right. exact Hi. }
    rewrite (SetChar_cell _ _ _ _ r k E).
    destruct (decide _) as [Hat|_]; [|reflexivity].
    exfalso. apply (Hn j); [left|exact Hat].
Qed.

Lemma SetString_loop_written (sp : Span) (s : str) (idx : list Z) (g g' : Grid) (i : Z) :
  SetString_loop g sp idx s = Ok g' -> NoDup idx -> i ∈ idx ->
  at_pt g' (pt sp i) = s !! Z.to_nat i.
Proof.
  revert g. induction idx as [|j idx IH]; intros g H Hnd Hi.
  - inversion Hi.
  - pose proof (SetString_loop_bounds _ _ _ _ _ H) as Hb.
    simpl in H. rewrite GetPoint_pt in H.
    destruct ((0 <=? j) && (j <? nLen sp)); simpl in H; try discriminate.
    destruct (s !! Z.to_nat j) as [c|] eqn:Hs; simpl in H; try discriminate.
    destruct (SetChar g (pt sp j) c) as [g1| |] eqn:E; simpl in H; try discriminate.
    apply NoDup_cons in Hnd as [Hj Hnd].
    apply elem_of_cons in Hi. destruct Hi as [->|Hi].
    + unfold at_pt. rewrite (SetString_loop_other _ _ _ _ _ _ _ H).
      * rewrite (SetChar_cell _ _ _ _ _ _ E).
        destruct (decide _) as [_|Hne]; [congruence|]. exfalso. apply Hne. split; reflexivity.
      * intros i Hi Hat. apply Hj.
        assert (i = j); [|subst; exact Hi].
        eapply (is_at_inj g); [| |exact Hat|split; reflexivity].
        -- apply Hb. right. exact Hi.
        -- apply Hb. left.
    + apply (IH _ H Hnd Hi).
Qed.

Lemma SetString_loop_no_fuel (sp : Span) (s : str) (idx : list Z) (g : Grid) :
  SetString_loop g sp idx s <> OutOfFuel.
Proof.
  revert g. induction idx as [|j idx IH]; intros g; simpl; [discriminate|].
  rewrite GetPoint_pt. destruct ((0 <=? j) && (j <? nLen sp)); simpl; [|discriminate].
  destruct (s !! Z.to_nat j) as [c|]; simpl; [|discriminate].
  rewrite SetChar_writable. destruct (writable g (pt sp j)); simpl; [apply IH|discriminate].
Qed.

Lemma SetString_loop_ok_shape (sp : Span) (s1 s2 : str) (idx : list Z) (g1 g2 : Grid) :
  shape g1 = shape g2 -> length s1 = length s2 ->
  is_ok (SetString_loop g1 sp idx s1) = is_ok (SetString_loop g2 sp idx s2).
Proof.
  intros Hs Hl. revert g1 g2 Hs. induction idx as [|j idx IH]; intros g1 g2 Hs; simpl;
    [reflexivity|].
  rewrite GetPoint_pt. destruct ((0 <=? j) && (j <? nLen sp)); simpl; [|reflexivity].
  assert (is_Some (s1 !! Z.to_nat j) <-> is_Some (s2 !! Z.to_nat j)) as Hsome
    by (rewrite !lookup_lt_is_Some, Hl; reflexivity).
  destruct (s1 !! Z.to_nat j) as [c1|], (s2 !! Z.to_nat j) as [c2|]; simpl;
    try reflexivity;
    try (exfalso; destruct Hsome as [Ha Hb];
         first [destruct Ha as [? ?]; [eauto|discriminate]
               |destruct Hb as [? ?]; [eauto|discriminate]]).
  pose proof (writable_shape g1 g2 (pt sp j) Hs) as Hw.
  destruct (SetChar g1 (pt sp j) c1) as [g1'| |] eqn:E1;
    destruct (SetChar g2 (pt sp j) c2) as [g2'| |] eqn:E2; simpl;
    rewrite SetChar_writable in E1, E2; rewrite Hw in E1;
    destruct (writable g2 (pt sp j)); try discriminate; try reflexivity.
  apply IH.
  injection E1 as <-. injection E2 as <-. unfold shape. simpl.
  unfold shape in Hs.
  apply list_eq. intros r. rewrite !list_lookup_fmap.
  assert (length <$> vecLines g1 !! r = length <$> vecLines g2 !! r) as Hr
    by (rewrite <- !list_lookup_fmap, Hs; reflexivity).
  destruct (decide (r = Z.to_nat (nRow (pt sp j)))) as [->|Hne].
  - rewrite !list_lookup_alter_eq.
    destruct (vecLines g1 !! _), (vecLines g2 !! _); simpl in *; try discriminate;
      [|reflexivity].
    rewrite !length_insert. exact Hr.
  - rewrite !list_lookup_alter_ne by congruence. exact Hr.
Qed.

Lemma SetString_unfold (g : Grid) (sp : Span) (s : str) :
  SetString g sp s =
  if nLen sp =? Z.of_nat (length s) then SetString_loop g sp (seqZ 0 (nLen sp)) s else Abort.
Proof. unfold SetString. destruct (nLen sp =? Z.of_nat (length s)); reflexivity. Qed.

Lemma SetString_frame (g g' : Grid) (sp : Span) (s : str) :
  SetString g sp s = Ok g' ->
  nLen sp = Z.of_nat (length s) /\
  sID g' = sID g /\ vecSpans g' = vecSpans g /\ shape g' = shape g.
Proof.
  rewrite SetString_unfold. destruct (Z.eqb_spec (nLen sp) (Z.of_nat (length s))); [|discriminate].
  intros H. split; [assumption|]. eapply SetString_loop_frame. exact H.
Qed.

Lemma SetString_written (g g' : Grid) (sp : Span) (s : str) (i : Z) :
  SetString g sp s = Ok g' -> 0 <= i < nLen sp ->
  IsInBounds g (pt sp i) = true /\ at_pt g' (pt sp i) = s !! Z.to_nat i.
Proof.
  rewrite SetString_unfold. destruct (nLen sp =? Z.of_nat (length s)); [|discriminate].
  intros H Hi. assert (i ∈ seqZ 0 (nLen sp)) as Hin by (apply elem_of_seqZ; lia). split.
  - apply (SetString_loop_bounds _ _ _ _ _ H i Hin).
  - apply (SetString_loop_written _ _ _ _ _ _ H (NoDup_seqZ _ _) Hin).
Qed.

Lemma SetString_other (g g' : Grid) (sp : Span) (s : str) (r k : nat) :
  SetString g sp s = Ok g' ->
  (forall i, 0 <= i < nLen sp -> ~ is_at (pt sp i) r k) ->
  cell (vecLines g') r k = cell (vecLines g) r k.
Proof.
  rewrite SetString_unfold. destruct (nLen sp =? Z.of_nat (length s)); [|discriminate].
  intros H Hn. apply (SetString_loop_other _ _ _ _ _ _ _ H).
  intros i Hi. apply Hn. apply elem_of_seqZ in Hi. lia.
Qed.

Lemma SetString_no_fuel (g : Grid) (sp : Span) (s : str) : SetString g sp s <> OutOfFuel.
Proof.
  rewrite SetString_unfold. destruct (nLen sp =? Z.of_nat (length s)); [|discriminate].
  apply SetString_loop_no_fuel.
Qed.

Lemma on_span_dec (sp : Span) (r k : nat) :
  {i | 0 <= i < nLen sp /\ is_at (pt sp i) r k} +
  {forall i, 0 <= i < nLen sp -> ~ is_at (pt sp i) r k}.
Proof.
  destruct (decide (Exists (fun i => is_at (pt sp i) r k) (seqZ 0 (nLen sp)))) as [H|H].
  - left. apply Exists_exists in H.
    destruct (list_find (fun i => is_at (pt sp i) r k) (seqZ 0 (nLen sp))) as [[n i]|] eqn:E.
    + apply list_find_Some in E. destruct E as (E1 & E2 & _).
      exists i. split; [|exact E2].
      apply list_elem_of_lookup_2 in E1. apply elem_of_seqZ in E1. lia.
    + exfalso. apply list_find_None in E. destruct H as (i & Hi & Hat).
      rewrite Forall_forall in E. exact (E i Hi Hat).
  - right. intros i Hi Hat. apply H. apply Exists_exists. exists i. split; [|exact Hat].
    apply elem_of_seqZ. lia.
Qed.

(** Writing a second word over a first one is writing the second alone. *)
Lemma SetString_overwrite (g0 g1 : Grid) (sp : Span) (w1 w2 : str) :
  SetString g0 sp w1 = Ok g1 -> SetString g1 sp w2 = SetString g0 sp w2.
Proof.
  intros H1.
  destruct (SetString_frame _ _ _ _ H1) as (HL & Hid & Hsp & Hsh).
  destruct (SetString g1 sp w2) as [ga| |] eqn:Ea;
    destruct (SetString g0 sp w2) as [gb| |] eqn:Eb;
    try reflexivity;
    try (exfalso; eapply SetString_no_fuel; eassumption).
  - f_equal.
    destruct (SetString_frame _ _ _ _ Ea) as (_ & Hida & Hspa & Hsha).
    destruct (SetString_frame _ _ _ _ Eb) as (_ & Hidb & Hspb & Hshb).
    apply grid_ext; try congruence.
    intros r k. destruct (on_span_dec sp r k) as [(i & Hi & [-> ->])|Hn].
    + destruct (SetString_written _ _ _ _ i Ea Hi) as [_ Ha].
      destruct (SetString_written _ _ _ _ i Eb Hi) as [_ Hb].
      unfold at_pt in Ha, Hb. congruence.
    + rewrite (SetString_other _ _ _ _ _ _ Ea Hn), (SetString_other _ _ _ _ _ _ Eb Hn).
      apply (SetString_other _ _ _ _ _ _ H1 Hn).
  - exfalso. rewrite SetString_unfold in Ea, Eb.
    destruct (nLen sp =? Z.of_nat (length w2)); [|discriminate].
    pose proof (SetString_loop_ok_shape sp w2 w2 (seqZ 0 (nLen sp)) g1 g0 Hsh eq_refl) as E.
    rewrite Ea, Eb in E. discriminate.
  - exfalso. rewrite SetString_unfold in Ea, Eb.
    destruct (nLen sp =? Z.of_nat (length w2)); [|discriminate].
    pose proof (SetString_loop_ok_shape sp w2 w2 (seqZ 0 (nLen sp)) g1 g0 Hsh eq_refl) as E.
    rewrite Ea, Eb in E. discriminate.
Qed.

Lemma GetChar_reads (g : Grid) (p : Point) (c : ascii) :
  GetChar g p = Ok c <-> IsInBounds g p = true /\ at_pt g p = Some c.
Proof.
  unfold GetChar, at_pt. destruct (IsInBounds g p); simpl.
  - destruct (cell _ _ _); simpl; split; intros H; try discriminate.
    + injection H as ->. auto.
    + destruct H as [_ H]. congruence.
    + destruct H as [_ H]. discriminate.
  - split; [discriminate|]. intros [H _]. discriminate.
Qed.

Lemma mark_join (c : ascii) (a : Attribute) : mark c a = join_attr a (attr_of [c]).
Proof.
  unfold mark, join_attr, attr_of. simpl. rewrite !orb_false_r.
  destruct (ch_eqb c ch_blank) eqn:E.
  - apply ch_eqb_eq in E. subst c. rewrite orb_true_r.
    change (is_upper ch_blank) with false. rewrite orb_false_r. reflexivity.
  - rewrite orb_false_r. destruct a as [l b]. simpl. destruct (is_upper c).
    + rewrite orb_true_r. reflexivity.
    + rewrite orb_false_r. reflexivity.
Qed.

Lemma join_attr_assoc (a : Attribute) (c : ascii) (s : str) :
  join_attr (join_attr a (attr_of [c])) (attr_of s) = join_attr a (attr_of (c :: s)).
Proof.
  unfold join_attr, attr_of. simpl. rewrite !orb_false_r, !orb_assoc. reflexivity.
Qed.

Lemma GetString_loop_spec (g : Grid) (sp : Span) (idx : list Z) (a : Attribute)
  (s : str) (a' : Attribute) :
  GetString_loop g sp idx a = Ok (s, a') <->
  Forall2 (reads g sp) idx s /\ a' = join_attr a (attr_of s).
Proof.
  revert a s a'. induction idx as [|i idx IH]; intros a s a'; simpl.
  - split.
    + intros [= <- <-]. split; [constructor|]. destruct a as [l b].
      unfold join_attr, attr_of. simpl. rewrite !orb_false_r. reflexivity.
    + intros [H ->]. inversion H. subst. destruct a as [l b].
      unfold join_attr, attr_of. simpl. rewrite !orb_false_r. reflexivity.
  - rewrite GetPoint_pt. split.
    + destruct ((0 <=? i) && (i <? nLen sp)) eqn:Hi; simpl; [|discriminate].
      destruct (GetChar g (pt sp i)) as [c| |] eqn:Hc; simpl; try discriminate.
      destruct (GetString_loop g sp idx (mark c a)) as [[s1 a1]| |] eqn:Hr; simpl;
        try discriminate.
      intros [= <- <-]. apply IH in Hr. destruct Hr as [Hf ->]. split.
      * constructor; [|exact Hf]. apply GetChar_reads in Hc.
        unfold reads. apply andb_true_iff in Hi. split; [lia|exact Hc].
      * rewrite mark_join. apply join_attr_assoc.
    + intros [Hf ->]. inversion Hf as [|? c ? s1 (Hi & Hb & Hc) Hf']. subst.
      replace ((0 <=? i) && (i <? nLen sp)) with true
        by (symmetry; apply andb_true_iff; lia).
      simpl. rewrite (proj2 (GetChar_reads g (pt sp i) c)) by auto. simpl.
      rewrite (proj2 (IH (mark c a) s1 (join_attr (mark c a) (attr_of s1))))
        by (split; [exact Hf'|reflexivity]).
      simpl. rewrite mark_join, join_attr_assoc. reflexivity.
Qed.

Lemma join_attr0 (a : Attribute) : join_attr attr0 a = a.
Proof. destruct a. reflexivity. Qed.

Lemma GetString_spec (g : Grid) (sp : Span) (s : str) (a : Attribute) :
  GetString g sp attr0 = Ok (s, a) <->
  0 <= nLen sp /\ Forall2 (reads g sp) (seqZ 0 (nLen sp)) s /\ a = attr_of s.
Proof.
  unfold GetString. destruct (Z.leb_spec 0 (nLen sp)) as [Hn|Hn]; simpl.
  - rewrite GetString_loop_spec, join_attr0. tauto.
  - split; [discriminate|]. intros [H _]. lia.
Qed.

Lemma reads_seqZ_lookup (g : Grid) (sp : Span) (n : Z) (s : str) :
  Forall2 (reads g sp) (seqZ 0 n) s ->
  length s = Z.to_nat n /\
  forall i, 0 <= i < n -> IsInBounds g (pt sp i) = true /\
                          at_pt g (pt sp i) = s !! Z.to_nat i.
Proof.
  intros H. pose proof (Forall2_length _ _ _ H) as HL. rewrite length_seqZ in HL.
  split; [congruence|]. intros i Hi.
  assert (seqZ 0 n !! Z.to_nat i = Some i) as Hl
    by (rewrite lookup_seqZ_lt by lia; f_equal; lia).
  destruct (Forall2_lookup_l _ _ _ _ _ H Hl) as (c & Hc & (_ & Hb & Ha)).
  split; [exact Hb|]. congruence.
Qed.

(** ** Overwriting candidates against restoring the grid *)

Lemma bindM_ret_forget {A : Type} (m : M A) : bindM m (fun _ => retM tt) = forget m.
Proof.
  unfold bindM, forget, retM. destruct m as [out [a| |]]; simpl; rewrite ?app_nil_r; reflexivity.
Qed.

Lemma forget_bindM {A B : Type} (m : M A) (f : A -> M B) :
  forget (bindM m f) = bindM m (fun a => forget (f a)).
Proof. unfold bindM, forget. destruct m as [out [a| |]]; simpl; reflexivity. Qed.

Lemma forget_unit (m : M unit) : forget m = m.
Proof. destruct m as [out [[]| |]]; reflexivity. Qed.

Lemma bindM_ext {A B : Type} (m : M A) (f1 f2 : A -> M B) :
  (forall a, f1 a = f2 a) -> bindM m f1 = bindM m f2.
Proof. intros H. unfold bindM. destruct (snd m); rewrite ?H; reflexivity. Qed.

Lemma bindM_lift_ok {A B : Type} (a : A) (f : A -> M B) : bindM (liftM (Ok a)) f = f a.
Proof. unfold bindM, liftM. simpl. destruct (f a). reflexivity. Qed.

Lemma bindM_lift_abort {A B : Type} (f : A -> M B) : bindM (liftM Abort) f = liftM Abort.
Proof. reflexivity. Qed.

Lemma bindM_lift_fuel {A B : Type} (f : A -> M B) : bindM (liftM OutOfFuel) f = liftM OutOfFuel.
Proof. reflexivity. Qed.

Lemma CommitSlot_loop_restore (loop1 loop2 : Grid -> Z -> M unit)
  (slot : Slot) (words rest : list Word) (d : Z) (grid0 grid : Grid) :
  (forall g n, loop1 g n = loop2 g n) ->
  (forall w, SetString grid (span slot) w = SetString grid0 (span slot) w) ->
  forget (CommitSlot_loop loop1 grid slot words rest d) =
  CommitSlot_restore_loop loop2 grid0 slot words rest d.
Proof.
  intros Hloop. revert grid. induction rest as [|w rest IH]; intros grid Hinv; simpl.
  - reflexivity.
  - rewrite forget_bindM. apply bindM_ext. intros _.
    rewrite forget_bindM. rewrite Hinv.
    destruct (SetString grid0 (span slot) w) as [copy| |] eqn:E;
      [|reflexivity|reflexivity].
    rewrite !bindM_lift_ok. rewrite forget_bindM, Hloop.
    apply bindM_ext. intros _. apply IH.
    intros w'. apply (SetString_overwrite grid0 copy (span slot) w w' E).
Qed.

Lemma CommitSlot_loop_last (loop : Grid -> Z -> M unit)
  (slot : Slot) (words rest : list Word) (d : Z) (grid0 grid g' : Grid) :
  (forall w, SetString grid (span slot) w = SetString grid0 (span slot) w) ->
  snd (CommitSlot_loop loop grid slot words rest d) = Ok g' ->
  match last rest with
  | Some w => SetString grid0 (span slot) w = Ok g'
  | None => g' = grid
  end.
Proof.
  revert grid. induction rest as [|w rest IH]; intros grid Hinv; simpl.
  - intros [= <-]. reflexivity.
  - destruct words as [|w0 words]; [simpl; discriminate|]. simpl.
    rewrite Hinv.
    destruct (SetString grid0 (span slot) w) as [copy| |] eqn:E;
      [|simpl; discriminate|simpl; discriminate].
    rewrite bindM_lift_ok. unfold bindM at 1.
    destruct (snd (loop copy d)) as [[]| |]; simpl; try discriminate.
    intros H. apply IH in H.
    2:{ intros w'. apply (SetString_overwrite grid0 copy (span slot) w w' E). }
    destruct rest as [|w1 rest]; [simpl in H; subst; exact E|].
    change (last (w :: w1 :: rest)) with (last (w1 :: rest)).
    destruct (last (w1 :: rest)) eqn:El; [exact H|].
    apply last_None in El. discriminate.
Qed.

Lemma CommitSlot_restore_eq (loop1 loop2 : Grid -> Z -> M unit) (lib : Library)
  (grid : Grid) (slot : Slot) (d : Z) :
  (forall g n, loop1 g n = loop2 g n) ->
  forget (CommitSlot loop1 lib grid slot d) = CommitSlot_restore loop2 lib grid slot d.
Proof.
  intros Hloop. unfold CommitSlot, CommitSlot_restore.
  destruct (FindWord lib (sPattern slot)) as [words|]; [|reflexivity].
  apply CommitSlot_loop_restore; [exact Hloop|reflexivity].
Qed.

Lemma Loop_restore_eq (fuel : nat) (lib : Library) (grid : Grid) (d : Z) :
  Loop fuel lib grid d = Loop_restore fuel lib grid d.
Proof.
  revert grid d. induction fuel as [|n IH]; intros grid d; simpl; [reflexivity|].
  apply bindM_ext. intros slots.
  destruct (negb (all_words lib (snd slots))); [reflexivity|].
  apply bindM_ext. intros unique.
  destruct (negb unique); [reflexivity|].
  destruct ((Z.of_nat (length (snd (fst slots))) =? 0) && (Z.of_nat (length (fst (fst slots))) =? 0));
    [reflexivity|].
  apply bindM_ext. intros _. apply bindM_ext. intros slot.
  rewrite bindM_ret_forget. apply CommitSlot_restore_eq. exact IH.
Qed.

Lemma bucket_length (lib : Library) (p : str) (ws : list Word) (w : Word) :
  lib_inv lib -> FindWord lib p = Some ws -> w ∈ ws -> length w = length p.
Proof.
  intros Hinv Hf Hw. unfold FindWord in Hf.
  assert (w ∈ bucket (m_umapWords lib) p) as Hb by (unfold bucket; rewrite Hf; exact Hw).
  apply (inv_members _ Hinv) in Hb. destruct Hb as (_ & _ & i & _ & ->).
  symmetry. apply length_mask_word.
Qed.

(** C9: [CommitSlot] writes each candidate over the previous one and
    returns the grid holding the last candidate; it never writes the
    pattern back. Every candidate found for a pattern has the length of the
    pattern, writing a second word into a span over a first one gives the
    grid that writing the second alone gives, so the node procedure with the
    overwriting loop, whatever the recursive call does with the grid it is
    handed, prints the same grids and ends the same way as the loop that
    writes every candidate into a fresh copy of the node's grid; the whole
    search equals the search with that discipline. *)
Theorem C9_overwrite_equals_restore :
  (forall lines nMaxSize lib p ws w,
     ReadFromFile Library0 lines nMaxSize = Ok lib ->
     FindWord lib p = Some ws -> w ∈ ws -> length w = length p) /\
  (forall g0 g1 sp w1 w2,
     SetString g0 sp w1 = Ok g1 -> SetString g1 sp w2 = SetString g0 sp w2) /\
  (forall loop lib grid slot d,
     forget (CommitSlot loop lib grid slot d) = CommitSlot_restore loop lib grid slot d) /\
  (forall loop lib grid slot d words g',
     FindWord lib (sPattern slot) = Some words ->
     snd (CommitSlot loop lib grid slot d) = Ok g' ->
     match last words with
     | Some w => SetString grid (span slot) w = Ok g'
     | None => g' = grid
     end) /\
  (forall fuel lib grid d, Loop fuel lib grid d = Loop_restore fuel lib grid d).
Proof.
  split; [|split; [|split; [|split]]].
  - intros lines nMaxSize lib p ws w Hload. apply bucket_length.
    eapply ReadFromFile_inv; [apply lib_inv_empty|exact Hload].
  - apply SetString_overwrite.
  - intros. apply CommitSlot_restore_eq. reflexivity.
  - intros loop lib grid slot d words g' Hf. unfold CommitSlot. rewrite Hf.
    apply CommitSlot_loop_last. reflexivity.
  - apply Loop_restore_eq.
Qed.

Lemma C9_witness :
  SetString (mkGrid (lit "0") [lit "C.T"] []) (mkSpan (mkPoint 0 0) 3 false) (lit "CAT")
  = Ok (mkGrid (lit "0") [lit "CAT"] []) /\
  SetString (mkGrid (lit "0") [lit "CAT"] []) (mkSpan (mkPoint 0 0) 3 false) (lit "COT")
  = SetString (mkGrid (lit "0") [lit "C.T"] []) (mkSpan (mkPoint 0 0) 3 false) (lit "COT").
Proof.
  assert (SetString (mkGrid (lit "0") [lit "C.T"] []) (mkSpan (mkPoint 0 0) 3 false) (lit "CAT")
          = Ok (mkGrid (lit "0") [lit "CAT"] [])) as H by (vm_compute; reflexivity).
  split; [exact H|].
  apply (proj1 (proj2 C9_overwrite_equals_restore) _ _ _ (lit "CAT") (lit "COT") H).
Defined.

(** ** Span derivation *)

Lemma IsInBounds_iff (g : Grid) (p : Point) :
  IsInBounds g p = true <-> 0 <= nRow p < rows g /\ 0 <= nCol p < cols g.
Proof. unfold IsInBounds. rewrite !andb_true_iff. lia. Qed.

Lemma IsInBounds_mk (g : Grid) (vert : bool) (l q : Z) :
  IsInBounds g (mk_pt vert l q) = true <-> 0 <= l < nlines g vert /\ 0 <= q < width g vert.
Proof. rewrite IsInBounds_iff. unfold mk_pt, nlines, width. destruct vert; simpl; lia. Qed.

Lemma IsInBounds_mk_false (g : Grid) (vert : bool) (l q : Z) :
  IsInBounds g (mk_pt vert l q) = false <-> ~ (0 <= l < nlines g vert /\ 0 <= q < width g vert).
Proof.
  rewrite <- IsInBounds_mk. destruct (IsInBounds g (mk_pt vert l q)); split; congruence.
Qed.

Lemma advance_mk (g : Grid) (vert : bool) (l q : Z) :
  advance g (mk_pt vert l q) vert =
  if q + 1 >=? width g vert then (mk_pt vert (l + 1) 0, true)
  else (mk_pt vert l (q + 1), false).
Proof. unfold advance, mk_pt, width. destruct vert; simpl; reflexivity. Qed.

Lemma rect_at_pt (g : Grid) (p : Point) :
  rect g -> IsInBounds g p = true -> is_Some (at_pt g p).
Proof.
  intros Hr Hb. apply IsInBounds_iff in Hb. unfold at_pt, cell, rows in *.
  destruct (vecLines g !! Z.to_nat (nRow p)) as [line|] eqn:E.
  - apply lookup_lt_is_Some.
    unfold rect in Hr. rewrite Forall_forall in Hr.
    assert (Z.of_nat (length line) = cols g) as Hl
      by (apply Hr; eapply list_elem_of_lookup_2; exact E).
    lia.
  - apply lookup_ge_None in E. lia.
Qed.

Lemma IsBlock_blk (g : Grid) (p : Point) :
  rect g -> IsInBounds g p = true -> IsBlock g p = Ok (blk g p).
Proof.
  intros Hr Hb. destruct (rect_at_pt g p Hr Hb) as [c Hc].
  unfold IsBlock, blk. rewrite (proj2 (GetChar_reads g p c)) by auto.
  rewrite Hc. reflexivity.
Qed.

Section Scan.
Variable g : Grid.
Variable vert : bool.
Hypothesis Hrect : rect g.

Local Abbreviation L := (nlines g vert).
Local Abbreviation W := (width g vert).
Local Abbreviation B := (scan_blk g vert).
Local Abbreviation idx := (scan_idx g vert).
Local Abbreviation inb := (scan_inb g vert).

Lemma idx_inj (l q l' q' : Z) :
  0 <= q < W -> 0 <= q' < W -> idx l q = idx l' q' -> l = l' /\ q = q'.
Proof. unfold scan_idx. intros H1 H2 E. assert (l = l') by nia. subst. lia. Qed.

Lemma idx_lt_lex (l q l' q' : Z) :
  0 <= q < W -> 0 <= q' < W ->
  (idx l q < idx l' q' <-> l < l' \/ (l = l' /\ q < q')).
Proof. unfold scan_idx. intros H1 H2. split; [|intros [H|[-> H]]]; nia. Qed.

Lemma idx_bound (l q : Z) : inb l q -> 0 <= idx l q < L * W.
Proof. unfold scan_idx, scan_inb. intros [H1 H2]. nia. Qed.

Lemma idx_next_line (l q : Z) : idx (l + 1) 0 = idx l q + (W - q).
Proof. unfold scan_idx. ring. Qed.

Lemma skip_blocks_spec (fuel : nat) (l q : Z) :
  inb l q \/ (l = L /\ q = 0) ->
  L * W - idx l q < Z.of_nat fuel ->
  exists l1 q1,
    skip_blocks fuel g vert (mk_pt vert l q) = Ok (mk_pt vert l1 q1) /\
    idx l q <= idx l1 q1 /\
    (forall l' q', inb l' q' -> idx l q <= idx l' q' < idx l1 q1 -> B l' q' = true) /\
    ((l1 = L /\ q1 = 0) \/ (inb l1 q1 /\ B l1 q1 = false)).
Proof.
  revert l q. induction fuel as [|n IH]; intros l q Hp Hf.
  - exfalso. destruct Hp as [Hp|[-> ->]].
    + pose proof (idx_bound l q Hp). lia.
    + unfold scan_idx in Hf. lia.
  - simpl. destruct Hp as [Hp|[-> ->]].
    + rewrite (proj2 (IsInBounds_mk g vert l q)) by exact Hp.
      rewrite IsBlock_blk by (try assumption; apply IsInBounds_mk; exact Hp).
      simpl. fold (scan_blk g vert l q). destruct (B l q) eqn:HB.
      * rewrite advance_mk.
        destruct (Z.geb_spec (q + 1) W) as [Hw|Hw]; simpl.
        -- assert (q + 1 = W) as Hq by (destruct Hp; lia).
           destruct (IH (l + 1) 0) as (l1 & q1 & E & Hle & Hblk & Hend).
           ++ destruct (Z.eq_dec (l + 1) L) as [HL|HL]; [right; auto|left].
              destruct Hp. unfold scan_inb. lia.
           ++ rewrite (idx_next_line l q). lia.
           ++ exists l1, q1. split; [exact E|]. rewrite (idx_next_line l q) in *.
              split; [lia|]. split; [|exact Hend].
              intros l' q' Hin Hr.
              destruct (Z.eq_dec (idx l' q') (idx l q)) as [He|He].
              ** apply idx_inj in He; [|destruct Hin; lia|destruct Hp; lia].
                 destruct He as [-> ->]. exact HB.
              ** apply Hblk; [exact Hin|]. lia.
        -- destruct (IH l (q + 1)) as (l1 & q1 & E & Hle & Hblk & Hend).
           ++ left. destruct Hp. unfold scan_inb. lia.
           ++ unfold scan_idx in *. lia.
           ++ exists l1, q1. split; [exact E|].
              assert (idx l (q + 1) = idx l q + 1) as Hs by (unfold scan_idx; ring).
              rewrite Hs in *. split; [lia|]. split; [|exact Hend].
              intros l' q' Hin Hr.
              destruct (Z.eq_dec (idx l' q') (idx l q)) as [He|He].
              ** apply idx_inj in He; [|destruct Hin; lia|destruct Hp; lia].
                 destruct He as [-> ->]. exact HB.
              ** apply Hblk; [exact Hin|]. lia.
      * exists l, q. split; [reflexivity|]. split; [lia|]. split; [intros; lia|].
        right. auto.
    + rewrite (proj2 (IsInBounds_mk_false g vert L 0)) by lia.
      exists L, 0. split; [reflexivity|]. split; [lia|]. split; [intros; lia|]. left. auto.
Qed.

Lemma span_length_spec (fuel : nat) (l q len : Z) :
  inb l q -> W - q <= Z.of_nat fuel ->
  exists e, q < e <= W /\
    (forall q', q < q' < e -> B l q' = false) /\
    (e = W \/ B l e = true) /\
    span_length fuel g vert (mk_pt vert l q) len =
    Ok (if e =? W then mk_pt vert (l + 1) 0 else mk_pt vert l e, len + (e - q)).
Proof.
  revert q len. induction fuel as [|n IH]; intros q len Hp Hf.
  - exfalso. destruct Hp. lia.
  - simpl. unfold NextStopAtWrap. rewrite advance_mk.
    destruct (Z.geb_spec (q + 1) W) as [Hw|Hw]; simpl.
    + assert (q + 1 = W) as Hq by (destruct Hp; lia).
      exists W. split; [lia|]. split; [intros; lia|]. split; [left; reflexivity|].
      rewrite Z.eqb_refl. f_equal. f_equal. lia.
    + rewrite IsBlock_blk by (try assumption; apply IsInBounds_mk; destruct Hp; lia).
      simpl. fold (scan_blk g vert l (q + 1)). destruct (B l (q + 1)) eqn:HB; simpl.
      * exists (q + 1). split; [lia|]. split; [intros; lia|]. split; [right; exact HB|].
        destruct (Z.eqb_spec (q + 1) W); [lia|]. f_equal. f_equal. lia.
      * destruct (IH (q + 1) (len + 1)) as (e & He & Hnb & Hend & E).
        -- destruct Hp. unfold scan_inb. lia.
        -- lia.
        -- exists e. split; [lia|]. split; [|split; [exact Hend|]].
           ++ intros q' Hq'. destruct (Z.eq_dec q' (q + 1)) as [->|]; [exact HB|].
              apply Hnb. lia.
           ++ rewrite E. f_equal. f_equal. lia.
Qed.

Lemma cells_LW : L * W = rows g * cols g.
Proof. unfold nlines, width. destruct vert; ring. Qed.

Lemma span_line_mk (l q n : Z) : span_line vert (mkSpan (mk_pt vert l q) n vert) = l.
Proof. unfold span_line, mk_pt. destruct vert; reflexivity. Qed.

Lemma span_pos_mk (l q n : Z) : span_pos vert (mkSpan (mk_pt vert l q) n vert) = q.
Proof. unfold span_pos, mk_pt. destruct vert; reflexivity. Qed.

Lemma FillSpans_loop_spec (fuel : nat) (l q : Z) (acc : list Span) :
  (inb l q /\ (q = 0 \/ B l q = true)) \/ (l = L /\ q = 0) ->
  L * W - idx l q < Z.of_nat fuel ->
  exists new,
    FillSpans_loop fuel g vert (mk_pt vert l q) acc = Ok (acc ++ new) /\
    Forall (good_span g vert) new /\
    sorted_from g vert (idx l q) new /\
    covered_from g vert (idx l q) new.
Proof.
  revert l q acc. induction fuel as [|n IH]; intros l q acc Hp Hf.
  - exfalso. destruct Hp as [[Hp _]|[-> ->]].
    + pose proof (idx_bound l q Hp). lia.
    + unfold scan_idx in Hf. lia.
  - cbn [FillSpans_loop]. destruct Hp as [[Hp HI]|[-> ->]].
    + rewrite (proj2 (IsInBounds_mk g vert l q)) by exact Hp.
      pose proof (idx_bound l q Hp) as Hib.
      destruct (skip_blocks_spec (grid_fuel g) l q) as (l1 & q1 & E & Hle & Hblk & Hend).
      { left. exact Hp. }
      { unfold grid_fuel. rewrite cells_LW in *. lia. }
      rewrite E. cbn [res_bind]. destruct Hend as [[-> ->]|[Hp1 HB1]].
      * rewrite (proj2 (IsInBounds_mk_false g vert L 0)) by lia. cbn [negb].
        exists []. rewrite app_nil_r. split; [reflexivity|]. split; [constructor|].
        split; [exact I|].
        intros l' q' Hin Hk Hb. exfalso.
        rewrite Hblk in Hb; [discriminate|exact Hin|].
        pose proof (idx_bound l' q' Hin). unfold scan_idx in *. lia.
      * rewrite (proj2 (IsInBounds_mk g vert l1 q1)) by exact Hp1. cbn [negb].
        destruct (span_length_spec (grid_fuel g) l1 q1 0 Hp1) as (e & He & Hnb & Hedge & E2).
        { unfold grid_fuel. rewrite <- cells_LW. destruct Hp1 as [H1 H2]. nia. }
        rewrite E2. cbn [res_bind fst snd]. rewrite Z.add_0_l.
        set (sp := mkSpan (mk_pt vert l1 q1) (e - q1) vert).
        assert (good_span g vert sp) as Hgood.
        { unfold good_span, sp. rewrite span_line_mk, span_pos_mk. simpl.
          split; [reflexivity|]. split; [exact Hp1|]. split; [lia|]. split; [lia|].
          split; [|split].
          - intros i Hi. destruct (Z.eq_dec i 0) as [->|Hi0].
            + rewrite Z.add_0_r. exact HB1.
            + apply Hnb. lia.
          - destruct (Z.eq_dec q1 0) as [Hq|Hq]; [left; exact Hq|right].
            destruct (Z.eq_dec (idx l q) (idx l1 q1)) as [Heq|Hne].
            + apply idx_inj in Heq; [|destruct Hp; lia|destruct Hp1; lia].
              destruct Heq as [-> ->]. destruct HI as [HI|HI]; [lia|congruence].
            + apply Hblk.
              * destruct Hp1. unfold scan_inb. lia.
              * unfold scan_idx in *. lia.
          - replace (q1 + (e - q1)) with e by lia. exact Hedge. }
        assert (exists l2 q2,
                  (if e =? W then mk_pt vert (l1 + 1) 0 else mk_pt vert l1 e) = mk_pt vert l2 q2 /\
                  idx l2 q2 = idx l1 q1 + (e - q1) /\
                  ((inb l2 q2 /\ (q2 = 0 \/ B l2 q2 = true)) \/ (l2 = L /\ q2 = 0)))
          as (l2 & q2 & -> & Hidx2 & Hp2).
        { destruct (Z.eqb_spec e W) as [->|HeW].
          - exists (l1 + 1), 0. split; [reflexivity|]. split; [unfold scan_idx; ring|].
            destruct (Z.eq_dec (l1 + 1) L) as [HL|HL]; [right; auto|left].
            split; [|left; reflexivity]. destruct Hp1. unfold scan_inb. lia.
          - exists l1, e. split; [reflexivity|]. split; [unfold scan_idx; ring|].
            left. split; [destruct Hp1; unfold scan_inb; lia|].
            right. destruct Hedge; [lia|assumption]. }
        destruct (IH l2 q2 (acc ++ [sp]) Hp2) as (new & E3 & Hg & Hs & Hc); [lia|].
        exists (sp :: new). rewrite E3, <- app_assoc. split; [reflexivity|].
        split; [constructor; assumption|]. split.
        -- simpl. unfold sp at 1 2. rewrite span_line_mk, span_pos_mk.
           split; [exact Hle|]. unfold sp. rewrite span_line_mk, span_pos_mk. simpl.
           rewrite <- Hidx2. exact Hs.
        -- intros l' q' Hin Hk Hb.
           destruct (Z.lt_ge_cases (idx l' q') (idx l1 q1)) as [Hlt|Hge].
           { rewrite Hblk in Hb; [discriminate|exact Hin|lia]. }
           destruct (Z.lt_ge_cases (idx l' q') (idx l2 q2)) as [Hlt2|Hge2].
           ++ exists sp. split; [left|]. unfold sp. rewrite span_line_mk, span_pos_mk. simpl.
              rewrite Hidx2 in Hlt2. destruct Hin as [_ Hq'], Hp1 as [_ Hq1].
              unfold scan_idx in *.
              assert (l' = l1) by nia. subst l'. split; [reflexivity|lia].
           ++ destruct (Hc l' q' Hin Hge2 Hb) as (sp' & Hin' & H1 & H2).
              exists sp'. split; [right; exact Hin'|]. auto.
    + rewrite (proj2 (IsInBounds_mk_false g vert L 0)) by lia.
      exists []. rewrite app_nil_r. split; [reflexivity|]. split; [constructor|].
      split; [exact I|]. intros l' q' Hin Hk _. exfalso.
      pose proof (idx_bound l' q' Hin). unfold scan_idx in *. lia.
Qed.

End Scan.

Lemma pt_scan (vert : bool) (sp : Span) (i : Z) :
  bVert sp = vert ->
  pt sp i = mk_pt vert (span_line vert sp) (span_pos vert sp + i).
Proof.
  intros <-. unfold pt, mk_pt, span_line, span_pos. destruct (bVert sp); reflexivity.
Qed.

Lemma good_span_maximal (g : Grid) (vert : bool) (sp : Span) :
  rect g -> good_span g vert sp -> bVert sp = vert /\ maximal_run g sp.
Proof.
  intros Hr (Hv & Hin & Hn & Hw & Hcells & Hstart & Hend). split; [exact Hv|].
  unfold maximal_run. split; [exact Hn|]. split; [|split].
  - intros i Hi. rewrite (pt_scan vert sp i Hv).
    assert (IsInBounds g (mk_pt vert (span_line vert sp) (span_pos vert sp + i)) = true) as Hb
      by (apply IsInBounds_mk; destruct Hin; lia).
    split; [exact Hb|]. rewrite (IsBlock_blk g _ Hr Hb). f_equal. apply (Hcells i Hi).
  - rewrite (pt_scan vert sp (-1) Hv). unfold edge.
    destruct (Z.eq_dec (span_pos vert sp) 0) as [H0|H0].
    + left. apply IsInBounds_mk_false. lia.
    + right. destruct Hstart as [?|Hb]; [contradiction|].
      rewrite IsBlock_blk; [|exact Hr|apply IsInBounds_mk; destruct Hin; lia].
      f_equal. exact Hb.
  - rewrite (pt_scan vert sp (nLen sp) Hv). unfold edge.
    destruct (Z.eq_dec (span_pos vert sp + nLen sp) (width g vert)) as [H0|H0].
    + left. apply IsInBounds_mk_false. lia.
    + right. destruct Hend as [?|Hb]; [contradiction|].
      rewrite IsBlock_blk; [|exact Hr|apply IsInBounds_mk; destruct Hin; lia].
      f_equal. exact Hb.
Qed.

Lemma sorted_from_lower (g : Grid) (vert : bool) (k : Z) (sps : list Span) :
  Forall (good_span g vert) sps -> sorted_from g vert k sps ->
  Forall (fun sp => k <= scan_idx g vert (span_line vert sp) (span_pos vert sp)) sps.
Proof.
  revert k. induction sps as [|sp sps IH]; intros k Hg Hs; [constructor|].
  inversion Hg as [|? ? Hsp Hg']. subst. destruct Hs as [Hk Hs].
  constructor; [exact Hk|].
  eapply Forall_impl; [apply (IH _ Hg' Hs)|].
  simpl. intros sp' H. destruct Hsp as (_ & _ & Hn & _). lia.
Qed.

Lemma sorted_from_strongly (g : Grid) (vert : bool) (k : Z) (sps : list Span) :
  Forall (good_span g vert) sps -> sorted_from g vert k sps ->
  StronglySorted (start_before vert) sps.
Proof.
  revert k. induction sps as [|sp sps IH]; intros k Hg Hs; [constructor|].
  inversion Hg as [|? ? Hsp Hg']. subst. destruct Hs as [Hk Hs].
  constructor; [apply (IH _ Hg' Hs)|].
  pose proof (sorted_from_lower g vert _ sps Hg' Hs) as Hlow.
  rewrite Forall_forall in Hlow, Hg'. apply Forall_forall. intros sp' Hin.
  specialize (Hlow sp' Hin). specialize (Hg' sp' Hin).
  destruct Hsp as (_ & [_ Hq] & Hn & _), Hg' as (_ & [_ Hq'] & _).
  assert (scan_idx g vert (span_line vert sp) (span_pos vert sp) <
          scan_idx g vert (span_line vert sp') (span_pos vert sp')) as Hlt by lia.
  apply (idx_lt_lex g vert) in Hlt; [|exact Hq|exact Hq'].
  unfold start_before, span_line, span_pos in *. destruct vert; exact Hlt.
Qed.

Lemma covered_from_covers (g : Grid) (vert : bool) (sps : list Span) (p : Point) :
  rect g -> Forall (good_span g vert) sps -> covered_from g vert 0 sps ->
  IsInBounds g p = true -> IsBlock g p = Ok false ->
  exists sp, sp ∈ sps /\ covers sp p.
Proof.
  intros Hr Hg Hc Hb Hblk.
  set (l := if vert then nCol p else nRow p).
  set (q := if vert then nRow p else nCol p).
  assert (p = mk_pt vert l q) as Hp by (destruct p, vert; reflexivity).
  rewrite Hp in Hb, Hblk.
  pose proof (proj1 (IsInBounds_mk g vert l q) Hb) as Hin.
  rewrite (IsBlock_blk g _ Hr Hb) in Hblk. injection Hblk as Hblk.
  destruct (Hc l q Hin) as (sp & Hsp & Hl & Hq).
  - unfold scan_idx. destruct Hin. nia.
  - exact Hblk.
  - exists sp. split; [exact Hsp|]. rewrite Forall_forall in Hg.
    destruct (Hg sp Hsp) as (Hv & _).
    exists (q - span_pos vert sp). split; [lia|].
    rewrite (pt_scan vert sp _ Hv), Hp, Hl. f_equal. lia.
Qed.

Lemma same_blocks_bounds (g1 g2 : Grid) (p : Point) :
  same_blocks g1 g2 -> IsInBounds g1 p = IsInBounds g2 p.
Proof. intros (Hr & Hc & _). unfold IsInBounds. rewrite Hr, Hc. reflexivity. Qed.

Lemma same_blocks_IsBlock (g1 g2 : Grid) (p : Point) :
  same_blocks g1 g2 -> IsBlock g1 p = IsBlock g2 p.
Proof.
  intros H. pose proof (same_blocks_bounds g1 g2 p H) as Hb.
  destruct (IsInBounds g1 p) eqn:E.
  - apply H. exact E.
  - unfold IsBlock, GetChar. rewrite E, <- Hb. reflexivity.
Qed.

Lemma same_blocks_advance (g1 g2 : Grid) (p : Point) (vert : bool) :
  same_blocks g1 g2 -> advance g1 p vert = advance g2 p vert.
Proof. intros (Hr & Hc & _). unfold advance. rewrite Hr, Hc. reflexivity. Qed.

Lemma same_blocks_skip (g1 g2 : Grid) (vert : bool) (fuel : nat) (p : Point) :
  same_blocks g1 g2 -> skip_blocks fuel g1 vert p = skip_blocks fuel g2 vert p.
Proof.
  intros H. revert p. induction fuel as [|n IH]; intros p; simpl; [reflexivity|].
  rewrite (same_blocks_bounds g1 g2 p H), (same_blocks_IsBlock g1 g2 p H).
  rewrite (same_blocks_advance g1 g2 p vert H).
  destruct (IsInBounds g2 p); [|reflexivity].
  destruct (IsBlock g2 p) as [[]| |]; simpl; auto.
Qed.

Lemma same_blocks_length (g1 g2 : Grid) (vert : bool) (fuel : nat) (p : Point) (len : Z) :
  same_blocks g1 g2 -> span_length fuel g1 vert p len = span_length fuel g2 vert p len.
Proof.
  intros H. revert p len. induction fuel as [|n IH]; intros p len; simpl; [reflexivity|].
  unfold NextStopAtWrap. rewrite (same_blocks_advance g1 g2 p vert H).
  destruct (advance g2 p vert) as [p' [|]]; simpl; [reflexivity|].
  rewrite (same_blocks_IsBlock g1 g2 p' H).
  destruct (IsBlock g2 p') as [[]| |]; simpl; auto.
Qed.

Lemma same_blocks_fuel (g1 g2 : Grid) : same_blocks g1 g2 -> grid_fuel g1 = grid_fuel g2.
Proof. intros (Hr & Hc & _). unfold grid_fuel. rewrite Hr, Hc. reflexivity. Qed.

Lemma same_blocks_loop (g1 g2 : Grid) (vert : bool) (fuel : nat) (p : Point)
  (acc : list Span) :
  same_blocks g1 g2 ->
  FillSpans_loop fuel g1 vert p acc = FillSpans_loop fuel g2 vert p acc.
Proof.
  intros H. revert p acc. induction fuel as [|n IH]; intros p acc; [reflexivity|].
  cbn [FillSpans_loop].
  rewrite (same_blocks_bounds g1 g2 p H), (same_blocks_fuel g1 g2 H).
  rewrite (same_blocks_skip g1 g2 vert _ p H).
  destruct (IsInBounds g2 p); [|reflexivity].
  destruct (skip_blocks (grid_fuel g2) g2 vert p) as [p1| |]; cbn [res_bind];
    [|reflexivity|reflexivity].
  rewrite (same_blocks_bounds g1 g2 p1 H), (same_blocks_length g1 g2 vert _ p1 0 H).
  destruct (negb (IsInBounds g2 p1)); [reflexivity|].
  destruct (span_length (grid_fuel g2) g2 vert p1 0) as [r| |]; cbn [res_bind];
    [|reflexivity|reflexivity].
  apply IH.
Qed.

Lemma same_blocks_spans (g1 g2 : Grid) (sp : list Span) :
  same_blocks g1 g2 -> same_blocks (set_spans g1 sp) (set_spans g2 sp).
Proof. intros H. exact H. Qed.

Lemma rect_set_spans (g : Grid) (sp : list Span) : rect g -> rect (set_spans g sp).
Proof. intros H. exact H. Qed.

Lemma FillSpans_dir_spec (g : Grid) (vert : bool) :
  rect g ->
  exists new,
    FillSpans_dir g vert = Ok (set_spans g (vecSpans g ++ new)) /\
    Forall (good_span g vert) new /\
    sorted_from g vert 0 new /\
    covered_from g vert 0 new.
Proof.
  intros Hr. unfold FillSpans_dir.
  assert (mkPoint 0 0 = mk_pt vert 0 0) as Hm by (destruct vert; reflexivity).
  rewrite Hm.
  destruct (IsInBounds g (mk_pt vert 0 0)) eqn:Hb0.
  - apply IsInBounds_mk in Hb0.
    destruct (FillSpans_loop_spec g vert Hr (grid_fuel g) 0 0 (vecSpans g))
      as (new & E & Hg & Hs & Hc).
    + left. split; [exact Hb0|left; reflexivity].
    + unfold grid_fuel, scan_idx. rewrite (cells_LW g vert).
      assert (0 <= rows g * cols g) by (unfold rows, cols; destruct (vecLines g); lia).
      lia.
    + rewrite E. simpl. exists new. unfold scan_idx in Hs, Hc. simpl in Hs, Hc. auto.
  - exists []. rewrite app_nil_r. split; [|split; [constructor|split; [exact I|]]].
    + unfold grid_fuel. cbn [FillSpans_loop]. rewrite Hb0. simpl.
      destruct g. reflexivity.
    + intros l q Hin _ _. exfalso. apply IsInBounds_mk_false in Hb0. apply Hb0.
      destruct Hin. lia.
Qed.

Lemma sorted_from_set_spans (g : Grid) (hs : list Span) (vert : bool) (k : Z)
  (sps : list Span) :
  sorted_from (set_spans g hs) vert k sps -> sorted_from g vert k sps.
Proof.
  revert k. induction sps as [|sp sps IH]; intros k; simpl; [auto|].
  intros [H1 H2]. split; [exact H1|]. apply IH. exact H2.
Qed.

Lemma FillSpans_spec (g : Grid) :
  rect g -> vecSpans g = [] ->
  exists hs vs,
    FillSpans g = Ok (set_spans g (hs ++ vs)) /\
    Forall (good_span g false) hs /\ sorted_from g false 0 hs /\ covered_from g false 0 hs /\
    Forall (good_span g true) vs /\ sorted_from g true 0 vs /\ covered_from g true 0 vs.
Proof.
  intros Hr He. unfold FillSpans. rewrite He. simpl.
  destruct (FillSpans_dir_spec g false Hr) as (hs & E1 & Hg1 & Hs1 & Hc1).
  rewrite E1, He. simpl.
  destruct (FillSpans_dir_spec (set_spans g hs) true (rect_set_spans g hs Hr))
    as (vs & E2 & Hg2 & Hs2 & Hc2).
  rewrite E2. exists hs, vs. split; [reflexivity|].
  split; [exact Hg1|]. split; [exact Hs1|]. split; [exact Hc1|].
  split; [exact Hg2|]. split; [|exact Hc2].
  eapply sorted_from_set_spans. exact Hs2.
Qed.

Lemma FillSpans_same_blocks (g1 g2 : Grid) :
  same_blocks g1 g2 -> vecSpans g1 = [] -> vecSpans g2 = [] ->
  forall sps, FillSpans g1 = Ok (set_spans g1 sps) -> FillSpans g2 = Ok (set_spans g2 sps).
Proof.
  intros H E1 E2 sps. unfold FillSpans, FillSpans_dir. rewrite E1, E2.
  cbn [assert res_bind].
  rewrite (same_blocks_fuel g1 g2 H), (same_blocks_loop g1 g2 false _ _ _ H).
  destruct (FillSpans_loop (grid_fuel g2) g2 false (mkPoint 0 0) []) as [hs| |];
    cbn [res_bind]; try discriminate.
  change (grid_fuel (set_spans g1 hs)) with (grid_fuel g1).
  change (grid_fuel (set_spans g2 hs)) with (grid_fuel g2).
  rewrite (same_blocks_fuel g1 g2 H).
  rewrite (same_blocks_loop (set_spans g1 hs) (set_spans g2 hs) true _ _ _
             (same_blocks_spans g1 g2 hs H)).
  change (vecSpans (set_spans g1 hs)) with hs.
  change (vecSpans (set_spans g2 hs)) with hs.
  destruct (FillSpans_loop (grid_fuel g2) (set_spans g2 hs) true (mkPoint 0 0) hs)
    as [vs| |]; cbn [res_bind]; try discriminate.
  intros [= <-]. reflexivity.
Qed.

(** C7: on a grid whose rows have one length, span derivation returns the
    horizontal spans followed by the vertical spans. Every span has length
    at least 1, lies inside the grid, holds no block, and is bounded before
    its origin and after its end by the edge of the grid or a block. The
    horizontal spans are listed in row-major order of their origins and the
    vertical ones in column-major order; every non-block cell lies in a
    horizontal and in a vertical span. A grid with the same dimensions and
    the same block cells gets the same span list. *)
Theorem C7_spans_are_maximal_runs (g : Grid) :
  CheckSize g = Ok tt -> vecSpans g = [] ->
  exists hs vs,
    FillSpans g = Ok (set_spans g (hs ++ vs)) /\
    Forall (fun sp => bVert sp = false /\ maximal_run g sp) hs /\
    Forall (fun sp => bVert sp = true /\ maximal_run g sp) vs /\
    StronglySorted (start_before false) hs /\
    StronglySorted (start_before true) vs /\
    (forall p, IsInBounds g p = true -> IsBlock g p = Ok false ->
       (exists sp, sp ∈ hs /\ covers sp p) /\ (exists sp, sp ∈ vs /\ covers sp p)) /\
    (forall g2, same_blocks g g2 -> vecSpans g2 = [] ->
       FillSpans g2 = Ok (set_spans g2 (hs ++ vs))).
Proof.
  intros Hsize He. apply CheckSize_spec in Hsize. fold (rect g) in Hsize.
  destruct (FillSpans_spec g Hsize He) as (hs & vs & E & Hg1 & Hs1 & Hc1 & Hg2 & Hs2 & Hc2).
  exists hs, vs. split; [exact E|].
  split; [eapply Forall_impl; [exact Hg1|]; intros sp; apply good_span_maximal; exact Hsize|].
  split; [eapply Forall_impl; [exact Hg2|]; intros sp; apply good_span_maximal; exact Hsize|].
  split; [eapply sorted_from_strongly; eassumption|].
  split; [eapply sorted_from_strongly; eassumption|].
  split.
  - intros p Hb Hblk. split; eapply covered_from_covers; eassumption.
  - intros g2 Hsame He2. eapply FillSpans_same_blocks; eassumption.
Qed.

Lemma C7_witness :
  exists hs vs,
    FillSpans (mkGrid (lit "0") [lit "A.#"; lit ".#."; lit "..."] []) =
    Ok (set_spans (mkGrid (lit "0") [lit "A.#"; lit ".#."; lit "..."] []) (hs ++ vs)) /\
    Forall (fun sp => bVert sp = false) hs /\ Forall (fun sp => bVert sp = true) vs.
Proof.
  destruct (C7_spans_are_maximal_runs (mkGrid (lit "0") [lit "A.#"; lit ".#."; lit "..."] []))
    as (hs & vs & E & Hh & Hv & _).
  - vm_compute. reflexivity.
  - reflexivity.
  - exists hs, vs. split; [exact E|]. split.
    + eapply Forall_impl; [exact Hh|]. intros sp [H _]. exact H.
    + eapply Forall_impl; [exact Hv|]. intros sp [H _]. exact H.
Defined.

(** ** The search node *)

Lemma pick_cons (f : Attribute -> bool) (r : Slot * Attribute) (rs : list (Slot * Attribute)) :
  pick f (r :: rs) = if f (snd r) then fst r :: pick f rs else pick f rs.
Proof.
  unfold pick. destruct (f (snd r)) eqn:E.
  - rewrite filter_cons_True by exact E. reflexivity.
  - rewrite filter_cons_False by congruence. reflexivity.
Qed.

Lemma classify_read_all (g : Grid) (spans : list Span) (vE vP vF : list Slot) :
  classify g spans vE vP vF =
  do rs <- read_all g spans;
  Ok (vE ++ pick IsEmpty rs, vP ++ pick IsPartial rs, vF ++ pick IsFull rs).
Proof.
  revert vE vP vF. induction spans as [|sp spans IH]; intros vE vP vF; simpl.
  - rewrite !app_nil_r. reflexivity.
  - destruct (GetString g sp attr0) as [[s a]| |]; simpl; [|reflexivity|reflexivity].
    destruct a as [l b]. unfold IsEmpty, IsPartial, IsFull. simpl.
    destruct b, l; simpl; rewrite IH; destruct (read_all g spans) as [rs| |]; simpl;
      try reflexivity; rewrite !pick_cons; unfold IsEmpty, IsPartial, IsFull; simpl;
      rewrite <- ?app_assoc; reflexivity.
Qed.

Lemma read_all_spec (g : Grid) (spans : list Span) (rs : list (Slot * Attribute)) :
  read_all g spans = Ok rs <->
  Forall2 (fun sp r => span (fst r) = sp /\
                       GetString g sp attr0 = Ok (sPattern (fst r), snd r)) spans rs.
Proof.
  revert rs. induction spans as [|sp spans IH]; intros rs; simpl.
  - split; [intros [= <-]; constructor|]. intros H. inversion H. reflexivity.
  - split.
    + destruct (GetString g sp attr0) as [[s a]| |] eqn:Eg; simpl; try discriminate.
      destruct (read_all g spans) as [rs'| |]; simpl; try discriminate.
      intros [= <-]. constructor; [simpl; auto|]. apply (proj1 (IH rs') eq_refl).
    + intros H. inversion H as [|? r ? rs' (H1 & H2) H3]. subst.
      rewrite H2. simpl. rewrite (proj2 (IH rs') H3). simpl.
      destruct r as [[sp' s] a]. simpl in *. reflexivity.
Qed.

Lemma all_words_spec (lib : Library) (vF : list Slot) :
  all_words lib vF = true <-> Forall (fun w => IsWord lib (sPattern w) = true) vF.
Proof.
  induction vF as [|w vF IH]; simpl.
  - split; [constructor|reflexivity].
  - rewrite Forall_cons, <- IH. destruct (IsWord lib (sPattern w)); simpl; split;
      try tauto; try discriminate.
Qed.

Lemma no_dups_spec (vF : list Slot) (set : gset str) :
  no_dups vF set = Ok true ->
  NoDup (map sPattern vF) /\ Forall (fun w => sPattern w ∉ set) vF.
Proof.
  revert set. induction vF as [|w vF IH]; intros set; simpl.
  - intros _. split; constructor.
  - unfold AddToSet, ExistsInSet.
    destruct (bool_decide (sPattern w ∈ set)) eqn:E; [discriminate|]. simpl.
    apply bool_decide_eq_false in E. intros H. apply IH in H. destruct H as [H1 H2].
    split.
    + constructor; [|exact H1]. intros Hin. apply list_elem_of_fmap in Hin.
      destruct Hin as (w' & Heq & Hin). rewrite Forall_forall in H2.
      apply (H2 w' Hin). rewrite <- Heq. apply elem_of_union. left.
      apply elem_of_singleton. reflexivity.
    + constructor; [exact E|]. eapply Forall_impl; [exact H2|]. simpl.
      intros w' Hn Hin. apply Hn. apply elem_of_union. right. exact Hin.
Qed.

Lemma no_dups_cases (vF : list Slot) (set : gset str) :
  exists b, no_dups vF set = Ok b.
Proof.
  revert set. induction vF as [|w vF IH]; intros set; simpl; [eauto|].
  unfold AddToSet. destruct (ExistsInSet set (sPattern w)); simpl; [eauto|apply IH].
Qed.

Lemma elem_of_bindM {A B : Type} (m : M A) (f : A -> M B) (x : Grid) :
  x ∈ fst (bindM m f) -> x ∈ fst m \/ exists a, snd m = Ok a /\ x ∈ fst (f a).
Proof.
  unfold bindM. destruct m as [out [a| |]]; simpl; auto.
  rewrite elem_of_app. intros [H|H]; [auto|right; eauto].
Qed.

Lemma CommitSlot_restore_loop_emits (loop : Grid -> Z -> M unit) (grid : Grid)
  (slot : Slot) (words rest : list Word) (d : Z) (x : Grid) :
  x ∈ fst (CommitSlot_restore_loop loop grid slot words rest d) ->
  exists w g', w ∈ rest /\ SetString grid (span slot) w = Ok g' /\ x ∈ fst (loop g' d).
Proof.
  induction rest as [|w rest IH]; simpl.
  - intros H. inversion H.
  - intros H. apply elem_of_bindM in H. destruct H as [H|(_ & _ & H)]; [inversion H|].
    apply elem_of_bindM in H. destruct H as [H|(g' & Hg & H)]; [inversion H|].
    simpl in Hg. apply elem_of_bindM in H. destruct H as [H|(_ & _ & H)].
    + exists w, g'. split; [left|]. auto.
    + destruct (IH H) as (w' & g'' & H1 & H2 & H3). exists w', g''.
      split; [right; exact H1|]. auto.
Qed.

(** What a printed grid tells about the node that printed it or passed it
    up. *)
Lemma Loop_restore_emits (n : nat) (lib : Library) (g : Grid) (d : Z) (x : Grid) :
  x ∈ fst (Loop_restore (S n) lib g d) ->
  exists rs, read_all g (vecSpans g) = Ok rs /\
    all_words lib (pick IsFull rs) = true /\
    no_dups (pick IsFull rs) ∅ = Ok true /\
    ((pick IsPartial rs = [] /\ pick IsEmpty rs = [] /\ x = g) \/
     (exists slot ws w g',
        head (pick IsPartial rs) = Some slot /\
        FindWord lib (sPattern slot) = Some ws /\ w ∈ ws /\
        SetString g (span slot) w = Ok g' /\
        x ∈ fst (Loop_restore n lib g' (d + 1)))).
Proof.
  cbn [Loop_restore]. rewrite classify_read_all.
  destruct (read_all g (vecSpans g)) as [rs| |] eqn:Hrs; cbn [res_bind];
    [|intros H; inversion H|intros H; inversion H].
  rewrite bindM_lift_ok. cbn [fst snd app].
  destruct (all_words lib (pick IsFull rs)) eqn:Hw; cbn [negb]; [|intros H; inversion H].
  destruct (no_dups_cases (pick IsFull rs) ∅) as [b Hb]. rewrite Hb, bindM_lift_ok.
  destruct b; cbn [negb]; [|intros H; inversion H].
  intros H. exists rs. split; [reflexivity|]. split; [exact Hw|]. split; [exact Hb|].
  destruct (pick IsPartial rs) as [|slot vP] eqn:HP.
  - destruct (pick IsEmpty rs) as [|e vE] eqn:HE.
    + left. simpl in H. apply list_elem_of_singleton in H. auto.
    + simpl in H. inversion H.
  - right. simpl in H. unfold CommitSlot_restore in H.
    destruct (FindWord lib (sPattern slot)) as [ws|] eqn:Hf; [|inversion H].
    apply CommitSlot_restore_loop_emits in H. destruct H as (w & g' & H1 & H2 & H3).
    exists slot, ws, w, g'. split; [reflexivity|]. auto.
Qed.

Lemma pick_elem (f : Attribute -> bool) (rs : list (Slot * Attribute)) (slot : Slot) :
  slot ∈ pick f rs <-> exists a, (slot, a) ∈ rs /\ f a = true.
Proof.
  unfold pick. rewrite list_elem_of_fmap. split.
  - intros ([s a] & -> & H). apply list_elem_of_filter in H. simpl in *. exists a. tauto.
  - intros (a & H1 & H2). exists (slot, a). split; [reflexivity|].
    apply list_elem_of_filter. auto.
Qed.

Lemma read_all_elem (g : Grid) (spans : list Span) (rs : list (Slot * Attribute))
  (slot : Slot) (a : Attribute) :
  read_all g spans = Ok rs -> (slot, a) ∈ rs ->
  span slot ∈ spans /\ GetString g (span slot) attr0 = Ok (sPattern slot, a).
Proof.
  intros H Hin. apply read_all_spec in H.
  apply list_elem_of_lookup in Hin. destruct Hin as [i Hi].
  destruct (Forall2_lookup_r _ _ _ _ _ H Hi) as (sp & Hsp & H1 & H2). simpl in *.
  subst sp. split; [|exact H2]. eapply list_elem_of_lookup_2. exact Hsp.
Qed.

(** A property of grids that every commit of a candidate into a partial
    slot preserves holds of every printed grid, and a printed grid is a
    node where both prunes pass and no partial and no empty slot is left. *)
Lemma Loop_restore_invariant (lib : Library) (Inv : Grid -> Prop) :
  (forall g sp s a ws w g',
     Inv g -> sp ∈ vecSpans g -> GetString g sp attr0 = Ok (s, a) ->
     IsPartial a = true -> FindWord lib s = Some ws -> w ∈ ws ->
     SetString g sp w = Ok g' -> Inv g') ->
  forall fuel g d x,
    Inv g -> x ∈ fst (Loop_restore fuel lib g d) ->
    Inv x /\
    exists rs, read_all x (vecSpans x) = Ok rs /\
      all_words lib (pick IsFull rs) = true /\
      no_dups (pick IsFull rs) ∅ = Ok true /\
      pick IsPartial rs = [] /\ pick IsEmpty rs = [].
Proof.
  intros Hstep fuel. induction fuel as [|n IH]; intros g d x Hg Hx.
  - inversion Hx.
  - apply Loop_restore_emits in Hx.
    destruct Hx as (rs & Hrs & Hw & Hd & [(HP & HE & ->)|(slot & ws & w & g' & Hh & Hf & Hin & Hs & Hx)]).
    + split; [exact Hg|]. exists rs. auto.
    + apply (IH g' (d + 1) x); [|exact Hx].
      assert (slot ∈ pick IsPartial rs) as Hslot.
      { destruct (pick IsPartial rs); [discriminate|]. injection Hh as ->. left. }
      apply pick_elem in Hslot. destruct Hslot as (a & Ha & Hpa).
      destruct (read_all_elem _ _ _ _ _ Hrs Ha) as [Hsp Hget].
      eapply Hstep; eauto.
Qed.

(** ** What the search leaves unchanged *)

Lemma preserves_refl (g : Grid) : preserves g g.
Proof. unfold preserves. auto. Qed.

Lemma preserves_trans (g0 g1 g2 : Grid) :
  preserves g0 g1 -> preserves g1 g2 -> preserves g0 g2.
Proof.
  intros (A1 & A2 & A3 & A4) (B1 & B2 & B3 & B4).
  unfold preserves. repeat split; try congruence.
  intros r k c Hc Hn. apply B4; [|exact Hn]. apply A4; assumption.
Qed.

Lemma GetString_lookup (g : Grid) (sp : Span) (s : str) (a : Attribute) (i : Z) :
  GetString g sp attr0 = Ok (s, a) -> 0 <= i < nLen sp ->
  IsInBounds g (pt sp i) = true /\ at_pt g (pt sp i) = s !! Z.to_nat i.
Proof.
  intros H Hi. apply GetString_spec in H. destruct H as (_ & H & _).
  apply reads_seqZ_lookup in H. apply H. exact Hi.
Qed.

Lemma GetString_length (g : Grid) (sp : Span) (s : str) (a : Attribute) :
  GetString g sp attr0 = Ok (s, a) ->
  0 <= nLen sp /\ Z.of_nat (length s) = nLen sp /\ a = attr_of s.
Proof.
  intros H. apply GetString_spec in H. destruct H as (Hn & H & Ha).
  apply reads_seqZ_lookup in H. destruct H as [HL _]. split; [exact Hn|]. split; [lia|exact Ha].
Qed.

Lemma found_is_mask (lib : Library) (s : str) (ws : list Word) (w : Word) :
  lib_inv lib -> FindWord lib s = Some ws -> w ∈ ws ->
  w ∈ m_vecWords lib /\ is_mask_of s w.
Proof.
  intros Hinv Hf Hw.
  assert (w ∈ bucket (m_umapWords lib) s) as H
    by (unfold bucket, FindWord in *; rewrite Hf; exact Hw).
  apply (inv_members _ Hinv) in H. tauto.
Qed.

Lemma found_indexable (lib : Library) (s : str) (ws : list Word) (w : Word) :
  lib_inv lib -> FindWord lib s = Some ws -> w ∈ ws -> indexable w.
Proof.
  intros Hinv Hf Hw.
  assert (w ∈ bucket (m_umapWords lib) s) as H
    by (unfold bucket, FindWord in *; rewrite Hf; exact Hw).
  apply (inv_members _ Hinv) in H. tauto.
Qed.

Lemma commit_preserves (lib : Library) (g g' : Grid) (sp : Span) (s : str)
  (a : Attribute) (ws : list Word) (w : Word) :
  lib_inv lib -> GetString g sp attr0 = Ok (s, a) ->
  FindWord lib s = Some ws -> w ∈ ws -> SetString g sp w = Ok g' ->
  preserves g g'.
Proof.
  intros Hinv Hget Hf Hw Hset.
  destruct (SetString_frame _ _ _ _ Hset) as (HL & Hid & Hsp & Hsh).
  unfold preserves. split; [exact Hid|]. split; [exact Hsp|]. split; [exact Hsh|].
  intros r k c Hc Hn.
  destruct (on_span_dec sp r k) as [(i & Hi & [-> ->])|Hno].
  - destruct (SetString_written _ _ _ _ i Hset Hi) as [_ Hwr].
    destruct (GetString_lookup _ _ _ _ i Hget Hi) as [_ Hrd].
    unfold at_pt in Hwr, Hrd. rewrite Hwr. rewrite Hrd in Hc.
    destruct (found_is_mask lib s ws w Hinv Hf Hw) as [_ (m & _ & ->)].
    destruct (w !! Z.to_nat i) as [x|] eqn:Hx.
    + rewrite (mask_word_lookup w m _ x Hx) in Hc. injection Hc as Hc.
      destruct (Z.testbit m (Z.of_nat (Z.to_nat i))); [congruence|]. congruence.
    + apply lookup_ge_None in Hx. lia.
  - rewrite (SetString_other _ _ _ _ _ _ Hset Hno). exact Hc.
Qed.

Lemma commit_no_new_block (g g' : Grid) (sp : Span) (w : Word) :
  ch_block ∉ w -> SetString g sp w = Ok g' -> no_new_block g g'.
Proof.
  intros Hw Hset r k Hc.
  destruct (on_span_dec sp r k) as [(i & Hi & [-> ->])|Hno].
  - destruct (SetString_written _ _ _ _ i Hset Hi) as [_ Hwr].
    unfold at_pt in Hwr. rewrite Hwr in Hc. exfalso. apply Hw.
    eapply list_elem_of_lookup_2. exact Hc.
  - rewrite <- (SetString_other _ _ _ _ _ _ Hset Hno). exact Hc.
Qed.

Lemma Loop_preserves (lib : Library) (fuel : nat) (g : Grid) (d : Z) (x : Grid) :
  lib_inv lib -> x ∈ fst (Loop fuel lib g d) -> preserves g x.
Proof.
  intros Hinv Hx. rewrite Loop_restore_eq in Hx.
  apply (Loop_restore_invariant lib (preserves g)) in Hx.
  - apply Hx.
  - intros g1 sp s a ws w g' H1 _ Hget _ Hf Hw Hset.
    apply (preserves_trans g g1 g' H1). eapply commit_preserves; eassumption.
  - apply preserves_refl.
Qed.

Lemma Loop_no_new_block (lib : Library) (fuel : nat) (g : Grid) (d : Z) (x : Grid) :
  lib_inv lib -> (forall w, w ∈ m_vecWords lib -> ch_block ∉ w) ->
  x ∈ fst (Loop fuel lib g d) -> no_new_block g x.
Proof.
  intros Hinv Hnb Hx. rewrite Loop_restore_eq in Hx.
  apply (Loop_restore_invariant lib (no_new_block g)) in Hx.
  - apply Hx.
  - intros g1 sp s a ws w g' H1 _ Hget _ Hf Hw Hset r k Hc.
    apply H1. eapply commit_no_new_block; [|exact Hset|exact Hc].
    apply Hnb. eapply found_is_mask; eassumption.
  - intros r k Hc. exact Hc.
Qed.

Lemma Init_lib_inv (gridLines libLines : list str) (e : Engine) :
  Init gridLines libLines = Ok e ->
  lib_inv (m_lib e) /\
  ReadFromFile Library0 libLines (MaxSize (m_grid e)) = Ok (m_lib e).
Proof.
  unfold Init. destruct (CheckSize _) as [[]| |]; simpl; try discriminate.
  destruct (FillSpans _) as [g| |]; simpl; try discriminate.
  destruct (PrintSpans g) as [[]| |]; simpl; try discriminate.
  destruct (ReadFromFile Library0 libLines (MaxSize g)) as [lib| |] eqn:E; simpl;
    try discriminate.
  intros [= <-]. simpl. split; [|exact E].
  eapply ReadFromFile_inv; [apply lib_inv_empty|exact E].
Qed.

(** C4 as the code has it: every grid the search prints has the rows and
    spans of the input grid, a block wherever the input grid has one and the
    given letter wherever the input grid has a letter (every cell of the
    input that is not blank is unchanged); when no loaded word holds the
    block character, the printed grid has blocks nowhere else. The engine
    after the search is the engine before it: its grid is not changed. *)
Theorem C4_solutions_keep_blocks_and_letters (gridLines libLines : list str)
  (e : Engine) (fuel : nat) :
  Init gridLines libLines = Ok e ->
  (forall sol, sol ∈ fst (Search fuel e) ->
     shape sol = shape (m_grid e) /\ vecSpans sol = vecSpans (m_grid e) /\
     (forall r k, cell (vecLines (m_grid e)) r k = Some ch_block ->
                  cell (vecLines sol) r k = Some ch_block) /\
     (forall r k c, cell (vecLines (m_grid e)) r k = Some c -> is_upper c = true ->
                    cell (vecLines sol) r k = Some c) /\
     (forall r k c, cell (vecLines (m_grid e)) r k = Some c -> c <> ch_blank ->
                    cell (vecLines sol) r k = Some c) /\
     ((forall w, w ∈ m_vecWords (m_lib e) -> ch_block ∉ w) ->
      forall r k, cell (vecLines sol) r k = Some ch_block ->
                  cell (vecLines (m_grid e)) r k = Some ch_block)) /\
  (forall e', snd (Search fuel e) = Ok e' -> e' = e).
Proof.
  intros Hinit. destruct (Init_lib_inv _ _ _ Hinit) as [Hinv _]. split.
  - intros sol Hsol. rewrite Search_unfold in Hsol. simpl in Hsol.
    pose proof (Loop_preserves _ _ _ _ _ Hinv Hsol) as (_ & Hsp & Hsh & Hcell).
    split; [exact Hsh|]. split; [exact Hsp|]. split; [|split; [|split]].
    + intros r k Hc. apply Hcell; [exact Hc|]. discriminate.
    + intros r k c Hc Hu. apply Hcell; [exact Hc|]. apply is_upper_not_blank. exact Hu.
    + exact Hcell.
    + intros Hnb. apply (Loop_no_new_block _ _ _ _ _ Hinv Hnb Hsol).
  - intros e'. rewrite Search_unfold. simpl.
    destruct (snd (Loop fuel (m_lib e) (m_grid e) 0)); intros H; try discriminate.
    injection H as <-. reflexivity.
Qed.

Lemma C4_witness :
  Init [lit "W...."]
    [lit "HELLO"; lit "WORLD"; lit "W"; lit "O"; lit "R"; lit "L"; lit "D"] = Ok engine_W_row /\
  forall sol, sol ∈ fst (Search 2 engine_W_row) ->
              cell (vecLines sol) 0 0 = Some "W"%char.
Proof.
  assert (Init [lit "W...."]
            [lit "HELLO"; lit "WORLD"; lit "W"; lit "O"; lit "R"; lit "L"; lit "D"]
          = Ok engine_W_row) as Hinit by (apply engine_of_ok; vm_compute; reflexivity).
  split; [exact Hinit|]. intros sol Hsol.
  destruct (C4_solutions_keep_blocks_and_letters _ _ _ 2%nat Hinit) as [H _].
  destruct (H sol Hsol) as (_ & _ & _ & Hl & _).
  apply Hl; vm_compute; reflexivity.
Defined.

(** C4 as stated fails: on the row [A.] with the word list A, [A#] the
    search prints the grid [A#], which has a block where the input grid has
    a blank; the blocks of a printed grid are not at exactly the positions
    of the blocks of the input. *)
Lemma C4_counterexample :
  Init [lit "A."] [lit "A"; lit "A#"] = Ok engine_hash /\
  cell (vecLines (m_grid engine_hash)) 0 1 = Some ch_blank /\
  solutions (Search 2 engine_hash) = [[lit "A#"]] /\
  exists sol, sol ∈ fst (Search 2 engine_hash) /\
              cell (vecLines sol) 0 1 = Some ch_block.
Proof.
  split; [apply engine_of_ok; vm_compute; reflexivity|].
  split; [vm_compute; reflexivity|]. split; [vm_compute; reflexivity|].
  destruct (fst (Search 2 engine_hash)) as [|sol l] eqn:E; [vm_compute in E; discriminate|].
  exists sol. split; [left|]. vm_compute in E. injection E as <- _.
  vm_compute. reflexivity.
Qed.

(** ** Termination of the search *)

Lemma count_blank_insert (line : str) (k : nat) (old c : ascii) :
  line !! k = Some old ->
  (count_blank (<[k := c]> line) + b2n (ch_eqb old ch_blank) =
   count_blank line + b2n (ch_eqb c ch_blank))%nat.
Proof.
  revert k. induction line as [|x line IH]; intros k H; [discriminate|].
  destruct k as [|k]; simpl in *.
  - injection H as ->. lia.
  - specialize (IH k H). lia.
Qed.

Lemma blanks_lines_alter (ls : list str) (r : nat) (line : str) (f : str -> str) :
  ls !! r = Some line ->
  (blanks_lines (alter f r ls) + count_blank line =
   blanks_lines ls + count_blank (f line))%nat.
Proof.
  revert r. induction ls as [|x ls IH]; intros r H; [discriminate|].
  destruct r as [|r].
  - simpl in H. injection H as ->. change (alter f 0%nat (line :: ls)) with (f line :: ls).
    simpl. lia.
  - simpl in H. specialize (IH r H).
    change (alter f (S r) (x :: ls)) with (x :: alter f r ls). simpl. lia.
Qed.

Lemma SetChar_blanks (g g' : Grid) (p : Point) (c : ascii) :
  SetChar g p c = Ok g' ->
  exists old, at_pt g p = Some old /\
    (blanks g' + b2n (ch_eqb old ch_blank) = blanks g + b2n (ch_eqb c ch_blank))%nat.
Proof.
  rewrite SetChar_writable. unfold writable.
  destruct (IsInBounds g p); simpl; [|discriminate].
  destruct (vecLines g !! Z.to_nat (nRow p)) as [line|] eqn:E; [|discriminate].
  destruct (Nat.ltb_spec (Z.to_nat (nCol p)) (length line)) as [Hlt|]; [|discriminate].
  intros [= <-]. apply lookup_lt_is_Some in Hlt. destruct Hlt as [old Hold].
  exists old. split.
  - unfold at_pt, cell. rewrite E. exact Hold.
  - unfold blanks. simpl.
    pose proof (blanks_lines_alter (vecLines g) _ line
                  (fun l => <[Z.to_nat (nCol p) := c]> l) E) as H1.
    pose proof (count_blank_insert line _ old c Hold) as H2. simpl in H1. lia.
Qed.

Lemma SetString_loop_blanks_le (sp : Span) (s : str) (idx : list Z) (g g' : Grid) :
  ch_blank ∉ s -> SetString_loop g sp idx s = Ok g' -> (blanks g' <= blanks g)%nat.
Proof.
  intros Hs. revert g. induction idx as [|j idx IH]; intros g H; simpl in H.
  - injection H as <-. lia.
  - rewrite GetPoint_pt in H.
    destruct ((0 <=? j) && (j <? nLen sp)); simpl in H; try discriminate.
    destruct (s !! Z.to_nat j) as [c|] eqn:Hc; simpl in H; try discriminate.
    destruct (SetChar g (pt sp j) c) as [g1| |] eqn:E; simpl in H; try discriminate.
    apply IH in H. apply SetChar_blanks in E. destruct E as (old & _ & E).
    assert (ch_eqb c ch_blank = false) as Hcb.
    { apply ch_eqb_neq. intros ->. apply Hs. eapply list_elem_of_lookup_2. exact Hc. }
    rewrite Hcb in E. simpl in E. lia.
Qed.

Lemma SetString_loop_blanks_lt (sp : Span) (s : str) (idx : list Z) (g g' : Grid) (i : Z) :
  ch_blank ∉ s -> SetString_loop g sp idx s = Ok g' -> i ∈ idx ->
  at_pt g (pt sp i) = Some ch_blank -> (blanks g' < blanks g)%nat.
Proof.
  intros Hs. revert g. induction idx as [|j idx IH]; intros g H Hi Hat.
  - inversion Hi.
  - pose proof (SetString_loop_bounds _ _ _ _ _ H) as Hb.
    simpl in H. rewrite GetPoint_pt in H.
    destruct ((0 <=? j) && (j <? nLen sp)); simpl in H; try discriminate.
    destruct (s !! Z.to_nat j) as [c|] eqn:Hc; simpl in H; try discriminate.
    destruct (SetChar g (pt sp j) c) as [g1| |] eqn:E; simpl in H; try discriminate.
    assert (ch_eqb c ch_blank = false) as Hcb.
    { apply ch_eqb_neq. intros ->. apply Hs. eapply list_elem_of_lookup_2. exact Hc. }
    destruct (Z.eq_dec i j) as [->|Hne].
    + pose proof (SetString_loop_blanks_le _ _ _ _ _ Hs H) as Hle.
      apply SetChar_blanks in E. destruct E as (old & Hold & E).
      rewrite Hat in Hold. injection Hold as <-.
      rewrite Hcb, ch_eqb_refl in E. simpl in E. lia.
    + apply elem_of_cons in Hi. destruct Hi as [->|Hi]; [contradiction|].
      assert (blanks g1 <= blanks g)%nat as Hle.
      { pose proof E as E'. apply SetChar_blanks in E'. destruct E' as (old & _ & E').
        rewrite Hcb in E'. simpl in E'. lia. }
      assert (blanks g' < blanks g1)%nat; [|lia].
      apply (IH _ H Hi). unfold at_pt.
      rewrite (SetChar_cell _ _ _ _ _ _ E).
      destruct (decide _) as [Hat'|_]; [|exact Hat].
      exfalso. apply Hne. eapply (is_at_inj g sp i j);
        [apply Hb; right; exact Hi|apply Hb; left|split; reflexivity|].
      destruct Hat' as [-> ->]. split; reflexivity.
Qed.

Lemma existsb_blank_lookup (s : str) :
  existsb (fun c => ch_eqb c ch_blank) s = true -> exists j, s !! j = Some ch_blank.
Proof.
  induction s as [|c s IH]; simpl; [discriminate|].
  destruct (ch_eqb c ch_blank) eqn:E; simpl.
  - intros _. exists 0%nat. apply ch_eqb_eq in E. subst. reflexivity.
  - intros H. destruct (IH H) as [j Hj]. exists (S j). exact Hj.
Qed.

(** Writing a word without wildcard into a partial slot fills at least one
    blank cell. *)
Lemma commit_fills (g g' : Grid) (sp : Span) (s : str) (a : Attribute) (w : Word) :
  GetString g sp attr0 = Ok (s, a) -> IsPartial a = true -> ch_blank ∉ w ->
  SetString g sp w = Ok g' -> (blanks g' < blanks g)%nat.
Proof.
  intros Hget Hp Hw Hset.
  destruct (GetString_length _ _ _ _ Hget) as (Hn & HL & ->).
  unfold IsPartial, attr_of in Hp. simpl in Hp. apply andb_true_iff in Hp as [Hb _].
  apply existsb_blank_lookup in Hb. destruct Hb as [j Hj].
  assert (0 <= Z.of_nat j < nLen sp) as Hi by (apply lookup_lt_Some in Hj; lia).
  destruct (GetString_lookup _ _ _ _ _ Hget Hi) as [_ Hat].
  rewrite Nat2Z.id, Hj in Hat.
  rewrite SetString_unfold in Hset.
  destruct (nLen sp =? Z.of_nat (length w)); [|discriminate].
  eapply SetString_loop_blanks_lt; [exact Hw|exact Hset| |exact Hat].
  apply elem_of_seqZ. lia.
Qed.

Lemma GetString_no_fuel (g : Grid) (sp : Span) (a : Attribute) :
  GetString g sp a <> OutOfFuel.
Proof.
  unfold GetString. destruct (0 <=? nLen sp); simpl; [|discriminate].
  generalize (seqZ 0 (nLen sp)). intros idx. revert a.
  induction idx as [|i idx IH]; intros a; simpl; [discriminate|].
  rewrite GetPoint_pt. destruct ((0 <=? i) && (i <? nLen sp)); simpl; [|discriminate].
  unfold GetChar. destruct (IsInBounds g (pt sp i)); simpl; [|discriminate].
  destruct (cell _ _ _); simpl; [|discriminate].
  specialize (IH (mark a0 a)).
  destruct (GetString_loop g sp idx (mark a0 a)); simpl; congruence.
Qed.

Lemma read_all_no_fuel (g : Grid) (spans : list Span) : read_all g spans <> OutOfFuel.
Proof.
  induction spans as [|sp spans IH]; simpl; [discriminate|].
  pose proof (GetString_no_fuel g sp attr0).
  destruct (GetString g sp attr0); simpl; try congruence.
  destruct (read_all g spans); simpl; congruence.
Qed.

Lemma snd_bindM_fuel {A B : Type} (m : M A) (f : A -> M B) :
  snd (bindM m f) = OutOfFuel ->
  snd m = OutOfFuel \/ exists a, snd m = Ok a /\ snd (f a) = OutOfFuel.
Proof.
  unfold bindM. destruct m as [out [a| |]]; simpl; try discriminate; eauto.
Qed.

Lemma CommitSlot_restore_loop_fuel (loop : Grid -> Z -> M unit) (grid : Grid)
  (slot : Slot) (words rest : list Word) (d : Z) :
  snd (CommitSlot_restore_loop loop grid slot words rest d) = OutOfFuel ->
  exists w g', w ∈ rest /\ SetString grid (span slot) w = Ok g' /\
               snd (loop g' d) = OutOfFuel.
Proof.
  induction rest as [|w rest IH]; simpl; [discriminate|].
  intros H. apply snd_bindM_fuel in H. destruct H as [H|(_ & _ & H)].
  { simpl in H. destruct words; discriminate. }
  apply snd_bindM_fuel in H. destruct H as [H|(g' & Hg & H)].
  { simpl in H. exfalso. eapply SetString_no_fuel. exact H. }
  simpl in Hg. apply snd_bindM_fuel in H. destruct H as [H|(_ & _ & H)].
  - exists w, g'. split; [left|]. auto.
  - destruct (IH H) as (w' & g'' & H1 & H2 & H3). exists w', g''.
    split; [right; exact H1|]. auto.
Qed.

Lemma Loop_restore_fuel (n : nat) (lib : Library) (g : Grid) (d : Z) :
  snd (Loop_restore (S n) lib g d) = OutOfFuel ->
  exists rs slot ws w g',
    read_all g (vecSpans g) = Ok rs /\
    head (pick IsPartial rs) = Some slot /\
    FindWord lib (sPattern slot) = Some ws /\ w ∈ ws /\
    SetString g (span slot) w = Ok g' /\
    snd (Loop_restore n lib g' (d + 1)) = OutOfFuel.
Proof.
  cbn [Loop_restore]. rewrite classify_read_all.
  pose proof (read_all_no_fuel g (vecSpans g)) as Hnf.
  destruct (read_all g (vecSpans g)) as [rs| |] eqn:Hrs; cbn [res_bind];
    [|discriminate|congruence].
  rewrite bindM_lift_ok. cbn [fst snd app].
  destruct (all_words lib (pick IsFull rs)) eqn:Hw; cbn [negb]; [|discriminate].
  destruct (no_dups_cases (pick IsFull rs) ∅) as [b Hb]. rewrite Hb, bindM_lift_ok.
  destruct b; cbn [negb]; [|discriminate].
  intros H. exists rs.
  destruct (pick IsPartial rs) as [|slot vP] eqn:HP.
  - destruct (pick IsEmpty rs) as [|e vE] eqn:HE; simpl in H; discriminate.
  - simpl in H. unfold CommitSlot_restore in H.
    destruct (FindWord lib (sPattern slot)) as [ws|] eqn:Hf; [|discriminate].
    apply CommitSlot_restore_loop_fuel in H. destruct H as (w & g' & H1 & H2 & H3).
    exists slot, ws, w, g'. split; [reflexivity|]. split; [reflexivity|]. auto.
Qed.

Lemma Loop_restore_terminates (lib : Library) :
  lib_inv lib -> (forall w, w ∈ m_vecWords lib -> ch_blank ∉ w) ->
  forall fuel g d, (blanks g < fuel)%nat -> snd (Loop_restore fuel lib g d) <> OutOfFuel.
Proof.
  intros Hinv Hnb fuel. induction fuel as [|n IH]; intros g d Hlt H; [lia|].
  apply Loop_restore_fuel in H.
  destruct H as (rs & slot & ws & w & g' & Hrs & Hh & Hf & Hw & Hset & Hout).
  assert (slot ∈ pick IsPartial rs) as Hslot.
  { destruct (pick IsPartial rs); [discriminate|]. injection Hh as ->. left. }
  apply pick_elem in Hslot. destruct Hslot as (a & Ha & Hpa).
  destruct (read_all_elem _ _ _ _ _ Hrs Ha) as [_ Hget].
  assert (blanks g' < blanks g)%nat.
  { eapply commit_fills; [exact Hget|exact Hpa| |exact Hset].
    apply Hnb. eapply found_is_mask; eassumption. }
  apply (IH g' (d + 1)); [lia|exact Hout].
Qed.

Lemma bindM_ok_ext {A B : Type} (m : M A) (f1 f2 : A -> M B) :
  (forall a, snd m = Ok a -> f1 a = f2 a) -> bindM m f1 = bindM m f2.
Proof.
  intros H. unfold bindM. destruct (snd m) as [a| |]; [|reflexivity|reflexivity].
  rewrite (H a eq_refl). reflexivity.
Qed.

Lemma snd_bindM_not_fuel {A B : Type} (m : M A) (f : A -> M B) :
  snd (bindM m f) <> OutOfFuel ->
  snd m <> OutOfFuel /\ forall a, snd m = Ok a -> snd (f a) <> OutOfFuel.
Proof.
  unfold bindM. destruct m as [out [a| |]]; simpl; intros H.
  - split; [discriminate|]. intros a' [= <-]. exact H.
  - split; [discriminate|]. intros a' E. discriminate.
  - contradiction.
Qed.

Lemma CommitSlot_restore_loop_mono (loop1 loop2 : Grid -> Z -> M unit) (grid : Grid)
  (slot : Slot) (words rest : list Word) (d : Z) :
  (forall g n, snd (loop2 g n) <> OutOfFuel -> loop1 g n = loop2 g n) ->
  snd (CommitSlot_restore_loop loop2 grid slot words rest d) <> OutOfFuel ->
  CommitSlot_restore_loop loop1 grid slot words rest d =
  CommitSlot_restore_loop loop2 grid slot words rest d.
Proof.
  intros Hloop. induction rest as [|w rest IH]; simpl; [reflexivity|].
  intros H. apply snd_bindM_not_fuel in H. destruct H as [_ H].
  apply bindM_ok_ext. intros u Hu. specialize (H u Hu).
  apply snd_bindM_not_fuel in H. destruct H as [_ H].
  apply bindM_ok_ext. intros copy Hc. specialize (H copy Hc).
  apply snd_bindM_not_fuel in H. destruct H as [H1 H2].
  rewrite (Hloop copy d H1). apply bindM_ok_ext. intros u' Hu'. apply IH.
  apply (H2 u' Hu').
Qed.

(** Once the search has ended within its fuel, more fuel changes nothing. *)
Lemma Loop_restore_mono (lib : Library) (n : nat) (g : Grid) (d : Z) :
  snd (Loop_restore n lib g d) <> OutOfFuel ->
  Loop_restore (S n) lib g d = Loop_restore n lib g d.
Proof.
  revert g d. induction n as [|n IH]; intros g d H; [simpl in H; contradiction|].
  revert H. cbn [Loop_restore]. intros H.
  apply snd_bindM_not_fuel in H. destruct H as [_ H].
  apply bindM_ok_ext. intros slots Hs. specialize (H slots Hs).
  destruct (negb (all_words lib (snd slots))); [reflexivity|].
  apply snd_bindM_not_fuel in H. destruct H as [_ H].
  apply bindM_ok_ext. intros unique Hu. specialize (H unique Hu).
  destruct (negb unique); [reflexivity|].
  destruct ((Z.of_nat (length (snd (fst slots))) =? 0) &&
            (Z.of_nat (length (fst (fst slots))) =? 0)); [reflexivity|].
  apply snd_bindM_not_fuel in H. destruct H as [_ H].
  apply bindM_ok_ext. intros u Hu'. specialize (H u Hu').
  apply snd_bindM_not_fuel in H. destruct H as [_ H].
  apply bindM_ok_ext. intros slot Hslot. specialize (H slot Hslot).
  unfold CommitSlot_restore in *.
  destruct (FindWord lib (sPattern slot)); [|reflexivity].
  apply CommitSlot_restore_loop_mono; [|exact H].
  intros g' n' Hn. apply IH. exact Hn.
Qed.

Lemma Loop_restore_enough (lib : Library) (n m : nat) (g : Grid) (d : Z) :
  snd (Loop_restore n lib g d) <> OutOfFuel -> (n <= m)%nat ->
  Loop_restore m lib g d = Loop_restore n lib g d.
Proof.
  intros H Hle. induction Hle as [|m Hle IH]; [reflexivity|].
  rewrite Loop_restore_mono; [exact IH|]. rewrite IH. exact H.
Qed.

Lemma Search_Loop (fuel1 fuel2 : nat) (e : Engine) :
  Loop fuel1 (m_lib e) (m_grid e) 0 = Loop fuel2 (m_lib e) (m_grid e) 0 ->
  Search fuel1 e = Search fuel2 e.
Proof. intros H. unfold Search. rewrite H. reflexivity. Qed.

Lemma Search_not_fuel (fuel : nat) (e : Engine) :
  snd (Loop fuel (m_lib e) (m_grid e) 0) <> OutOfFuel -> snd (Search fuel e) <> OutOfFuel.
Proof.
  intros H. rewrite Search_unfold. simpl.
  destruct (snd (Loop fuel (m_lib e) (m_grid e) 0)); congruence.
Qed.

(** C8 as the code has it: when no loaded word holds the wildcard
    character, every commit writes a word without wildcard into a slot that
    has a blank, so the grid handed to the recursive call has fewer blank
    cells than the grid of the node; the search ends within a recursion
    depth of one more than the number of blank cells of the input grid, and
    any larger bound gives the same run. *)
Theorem C8_search_terminates_without_wildcard_words (gridLines libLines : list str)
  (e : Engine) :
  Init gridLines libLines = Ok e ->
  (forall w, w ∈ m_vecWords (m_lib e) -> ch_blank ∉ w) ->
  (forall g sp s a ws w g',
     GetString g sp attr0 = Ok (s, a) -> IsPartial a = true ->
     FindWord (m_lib e) s = Some ws -> w ∈ ws -> SetString g sp w = Ok g' ->
     (blanks g' < blanks g)%nat) /\
  (forall fuel, (blanks (m_grid e) < fuel)%nat -> snd (Search fuel e) <> OutOfFuel) /\
  (forall fuel, (blanks (m_grid e) < fuel)%nat ->
     Search fuel e = Search (S (blanks (m_grid e))) e).
Proof.
  intros Hinit Hnb. destruct (Init_lib_inv _ _ _ Hinit) as [Hinv _].
  split; [|split].
  - intros g sp s a ws w g' Hget Hp Hf Hw Hset.
    eapply commit_fills; [exact Hget|exact Hp| |exact Hset].
    apply Hnb. eapply found_is_mask; eassumption.
  - intros fuel Hlt. apply Search_not_fuel. rewrite Loop_restore_eq.
    apply Loop_restore_terminates; assumption.
  - intros fuel Hlt. apply Search_Loop. rewrite !Loop_restore_eq.
    apply Loop_restore_enough; [|lia].
    apply Loop_restore_terminates; [assumption|assumption|lia].
Qed.

Lemma C8_witness :
  Init [lit "W...."]
    [lit "HELLO"; lit "WORLD"; lit "W"; lit "O"; lit "R"; lit "L"; lit "D"] = Ok engine_W_row /\
  snd (Search 5 engine_W_row) <> OutOfFuel.
Proof.
  assert (Init [lit "W...."]
            [lit "HELLO"; lit "WORLD"; lit "W"; lit "O"; lit "R"; lit "L"; lit "D"]
          = Ok engine_W_row) as Hinit by (apply engine_of_ok; vm_compute; reflexivity).
  split; [exact Hinit|].
  apply (C8_search_terminates_without_wildcard_words _ _ _ Hinit).
  - intros w Hw Hin.
    assert (existsb (fun w => existsb (fun c => ch_eqb c ch_blank) w)
              (m_vecWords (m_lib engine_W_row)) = false) as Hno by (vm_compute; reflexivity).
    assert (existsb (fun w => existsb (fun c => ch_eqb c ch_blank) w)
              (m_vecWords (m_lib engine_W_row)) = true); [|congruence].
    apply existsb_exists. exists w. split; [apply list_elem_of_In; exact Hw|].
    apply existsb_exists. exists ch_blank. split; [apply list_elem_of_In; exact Hin|].
    apply ch_eqb_refl.
  - vm_compute. lia.
Defined.

(** A node whose first candidate leaves the grid as it is never ends. *)
Lemma Loop_stuck (lib : Library) (g : Grid) (vE vP vF : list Slot) (slot : Slot)
  (w : Word) (ws : list Word) :
  classify g (vecSpans g) [] [] [] = Ok (vE, slot :: vP, vF) ->
  all_words lib vF = true ->
  no_dups vF ∅ = Ok true ->
  FindWord lib (sPattern slot) = Some (w :: ws) ->
  SetString g (span slot) w = Ok g ->
  forall fuel d, Loop fuel lib g d = ([], OutOfFuel).
Proof.
  intros Hc Hw Hd Hf Hs fuel. induction fuel as [|n IH]; intros d; [reflexivity|].
  cbn [Loop]. rewrite Hc, bindM_lift_ok. cbn [fst snd]. rewrite Hw. cbn [negb].
  rewrite Hd, bindM_lift_ok. cbn [negb length]. 
  replace ((Z.of_nat (S (length vP)) =? 0) && (Z.of_nat (length vE) =? 0)) with false
    by (symmetry; apply andb_false_iff; left; apply Z.eqb_neq; lia).
  replace (0 <? Z.of_nat (S (length vP))) with true by (symmetry; apply Z.ltb_lt; lia).
  cbn [assert]. rewrite bindM_lift_ok. cbn [lookup list_lookup lift].
  rewrite bindM_lift_ok. unfold CommitSlot. rewrite Hf. cbn [CommitSlot_loop negb assert].
  rewrite bindM_lift_ok, Hs, bindM_lift_ok, IH. reflexivity.
Qed.

(** C8 as stated fails: with the word list A, [A.] the loader keeps the
    word [A.]; on the row [A.] the slot's pattern finds that word, writing
    it leaves the grid unchanged, and the search recurses on the same grid
    for ever: it runs out of every fuel. *)
Lemma C8_counterexample :
  Init [lit "A."] [lit "A"; lit "A."] = Ok engine_dot /\
  m_vecWords (m_lib engine_dot) = [lit "A"; lit "A."] /\
  forall fuel, Search fuel engine_dot = ([], OutOfFuel).
Proof.
  split; [apply engine_of_ok; vm_compute; reflexivity|].
  split; [vm_compute; reflexivity|].
  intros fuel. rewrite Search_unfold.
  rewrite (Loop_stuck (m_lib engine_dot) (m_grid engine_dot)
             [mkSlot (mkSpan (mkPoint 0 1) 1 true) (lit ".")]
             []
             [mkSlot (mkSpan (mkPoint 0 0) 1 true) (lit "A")]
             (mkSlot (mkSpan (mkPoint 0 0) 2 false) (lit "A."))
             (lit "A.") [lit "A."]).
  - reflexivity.
  - vm_compute. reflexivity.
  - vm_compute. reflexivity.
  - vm_compute. reflexivity.
  - vm_compute. reflexivity.
  - vm_compute. reflexivity.
Qed.

(** ** The printed grids are solutions *)

Lemma Init_grid (gridLines libLines : list str) (e : Engine) :
  Init gridLines libLines = Ok e ->
  rect (m_grid e) /\ Forall (maximal_run (m_grid e)) (vecSpans (m_grid e)).
Proof.
  unfold Init. cbv zeta.
  destruct (CheckSize (LoadFromFile Grid0 gridLines)) as [[]| |] eqn:Hsize;
    cbn [res_bind]; try discriminate.
  apply CheckSize_spec in Hsize.
  destruct (FillSpans_spec (LoadFromFile Grid0 gridLines) Hsize eq_refl)
    as (hs & vs & E & Hg1 & _ & _ & Hg2 & _ & _).
  rewrite E. cbn [res_bind].
  destruct (PrintSpans _) as [[]| |]; cbn [res_bind]; try discriminate.
  destruct (ReadFromFile Library0 libLines _) as [lib| |]; cbn [res_bind]; try discriminate.
  intros [= <-]. cbn [m_grid]. split; [exact Hsize|].
  change (vecSpans (set_spans (LoadFromFile Grid0 gridLines) (hs ++ vs))) with (hs ++ vs).
  apply Forall_app. split.
  - eapply Forall_impl; [exact Hg1|]. intros sp Hsp.
    apply (good_span_maximal _ _ _ Hsize) in Hsp. destruct Hsp as [_ Hsp]. exact Hsp.
  - eapply Forall_impl; [exact Hg2|]. intros sp Hsp.
    apply (good_span_maximal _ _ _ Hsize) in Hsp. destruct Hsp as [_ Hsp]. exact Hsp.
Qed.

Lemma at_pt_elem (g : Grid) (p : Point) (c : ascii) :
  at_pt g p = Some c -> exists line, line ∈ vecLines g /\ c ∈ line.
Proof.
  unfold at_pt, cell. destruct (vecLines g !! Z.to_nat (nRow p)) as [line|] eqn:E;
    [|discriminate].
  intros H. exists line. split; eapply list_elem_of_lookup_2; eassumption.
Qed.

Lemma spans_ok_init (g : Grid) :
  rect g -> grid_alphabet g -> Forall (maximal_run g) (vecSpans g) ->
  spans_ok (vecSpans g) g.
Proof.
  intros Hr Ha Hm. unfold spans_ok. split; [reflexivity|]. split.
  - eapply Forall_impl; [exact Hm|]. intros sp (H & _). exact H.
  - intros sp i c Hsp Hi Hc. rewrite Forall_forall in Hm.
    destruct (Hm sp Hsp) as (_ & Hcells & _). destruct (Hcells i Hi) as [Hb Hblk].
    rewrite (IsBlock_blk g _ Hr Hb) in Hblk. injection Hblk as Hblk.
    unfold blk in Hblk. rewrite Hc in Hblk.
    destruct (at_pt_elem g _ c Hc) as (line & Hl & Hcl).
    unfold grid_alphabet in Ha. rewrite Forall_forall in Ha. specialize (Ha line Hl).
    rewrite Forall_forall in Ha. specialize (Ha c Hcl). unfold is_cell in Ha.
    rewrite Hblk in Ha. simpl in Ha. apply orb_true_iff in Ha.
    destruct Ha as [Ha|Ha]; [left; apply ch_eqb_eq; exact Ha|right; exact Ha].
Qed.

Lemma spans_ok_commit (spans0 : list Span) (g g' : Grid) (sp : Span) (w : Word) :
  spans_ok spans0 g -> all_letters w -> SetString g sp w = Ok g' -> spans_ok spans0 g'.
Proof.
  intros (H1 & H2 & H3) Hw Hset.
  destruct (SetString_frame _ _ _ _ Hset) as (_ & _ & Hsp & _).
  unfold spans_ok. split; [congruence|]. split; [exact H2|].
  intros sp' i c Hin Hi Hc. unfold at_pt in Hc.
  destruct (on_span_dec sp (Z.to_nat (nRow (pt sp' i))) (Z.to_nat (nCol (pt sp' i))))
    as [(j & Hj & Hat)|Hno].
  - destruct (SetString_written _ _ _ _ j Hset Hj) as [_ Hwr].
    unfold at_pt in Hwr. destruct Hat as [Hr Hk]. rewrite Hr, Hk, Hwr in Hc.
    right. unfold all_letters in Hw. rewrite Forall_forall in Hw. apply Hw.
    eapply list_elem_of_lookup_2. exact Hc.
  - rewrite (SetString_other _ _ _ _ _ _ Hset Hno) in Hc.
    apply (H3 sp' i c Hin Hi). exact Hc.
Qed.

Lemma existsb_false_Forall {A : Type} (f : A -> bool) (l : list A) :
  existsb f l = false -> Forall (fun x => f x = false) l.
Proof.
  induction l as [|x l IH]; simpl; [constructor|].
  intros H. apply orb_false_iff in H as [H1 H2]. constructor; auto.
Qed.

(** At a node without partial and without empty slot, every span is full
    and its string is made of letters. *)
Lemma terminal_all_full (g : Grid) (rs : list (Slot * Attribute)) :
  spans_ok (vecSpans g) g -> read_all g (vecSpans g) = Ok rs ->
  pick IsPartial rs = [] -> pick IsEmpty rs = [] ->
  Forall (fun r => IsFull (snd r) = true /\ all_letters (sPattern (fst r))) rs.
Proof.
  intros (_ & Hlen & Hcells) Hrs HP HE. apply Forall_forall. intros [slot a] Hin.
  destruct (read_all_elem _ _ _ _ _ Hrs Hin) as [Hsp Hget].
  assert (IsPartial a = false) as Hp.
  { destruct (IsPartial a) eqn:E; [|reflexivity].
    assert (slot ∈ pick IsPartial rs) as H by (apply pick_elem; eauto).
    rewrite HP in H. inversion H. }
  assert (IsEmpty a = false) as He.
  { destruct (IsEmpty a) eqn:E; [|reflexivity].
    assert (slot ∈ pick IsEmpty rs) as H by (apply pick_elem; eauto).
    rewrite HE in H. inversion H. }
  destruct (GetString_length _ _ _ _ Hget) as (_ & HL & ->).
  rewrite Forall_forall in Hlen. specialize (Hlen _ Hsp).
  simpl. unfold IsPartial, IsEmpty, IsFull, attr_of in *. simpl in *.
  destruct (existsb (fun c => ch_eqb c ch_blank) (sPattern slot)) eqn:Hb.
  - destruct (existsb is_upper (sPattern slot)); simpl in *; discriminate.
  - simpl. apply existsb_false_Forall in Hb.
    assert (all_letters (sPattern slot)) as Hall.
    { unfold all_letters. apply Forall_lookup. intros j c Hj.
      assert (0 <= Z.of_nat j < nLen (span slot)) as Hi
        by (apply lookup_lt_Some in Hj; lia).
      destruct (GetString_lookup _ _ _ _ _ Hget Hi) as [_ Hat].
      rewrite Nat2Z.id, Hj in Hat.
      destruct (Hcells _ _ _ Hsp Hi Hat) as [->|Hu]; [|exact Hu].
      rewrite Forall_forall in Hb. specialize (Hb ch_blank).
      rewrite ch_eqb_refl in Hb. exfalso.
      assert (true = false); [|discriminate]. apply Hb.
      eapply list_elem_of_lookup_2. exact Hj. }
    split; [|exact Hall].
    destruct (sPattern slot) as [|c s]; [simpl in HL; lia|].
    inversion Hall as [|? ? Hc _]. subst. simpl. rewrite Hc. reflexivity.
Qed.

Lemma pick_all (f : Attribute -> bool) (rs : list (Slot * Attribute)) :
  Forall (fun r => f (snd r) = true) rs -> pick f rs = map fst rs.
Proof.
  induction rs as [|r rs IH]; intros H; [reflexivity|].
  inversion H as [|? ? H1 H2]. subst. rewrite pick_cons, H1. simpl. f_equal. auto.
Qed.

Lemma Forall2_with_r {A B : Type} (P : A -> B -> Prop) (Q : B -> Prop)
  (l : list A) (k : list B) :
  Forall2 P l k -> Forall Q k -> Forall2 (fun x y => P x y /\ Q y) l k.
Proof.
  intros H. induction H as [|x y l k Hxy H IH]; intros HQ; [constructor|].
  inversion HQ as [|? ? Hy HQ']. subst. constructor; auto.
Qed.

(** C1 as the code has it: when every cell of the input grid is a block, a
    blank or a letter, and every loaded word is made of letters, every grid
    the search prints has the spans of the input grid, each span reads as an
    all-letters string that is a loaded word, and the strings of the spans
    are pairwise distinct. *)
Theorem C1_printed_grids_are_solutions (gridLines libLines : list str) (e : Engine)
  (fuel : nat) (sol : Grid) :
  Init gridLines libLines = Ok e ->
  grid_alphabet (m_grid e) ->
  Forall all_letters (m_vecWords (m_lib e)) ->
  sol ∈ fst (Search fuel e) ->
  exists strs,
    vecSpans sol = vecSpans (m_grid e) /\
    Forall2 (fun sp s => GetString sol sp attr0 = Ok (s, attr_of s) /\
                         IsFull (attr_of s) = true) (vecSpans sol) strs /\
    Forall (fun s => all_letters s /\ s ∈ m_vecWords (m_lib e) /\
                     IsWord (m_lib e) s = true) strs /\
    NoDup strs.
Proof.
  intros Hinit Halpha Hwords Hsol.
  destruct (Init_lib_inv _ _ _ Hinit) as [Hinv _].
  destruct (Init_grid _ _ _ Hinit) as [Hrect Hmax].
  rewrite Search_unfold in Hsol. simpl in Hsol. rewrite Loop_restore_eq in Hsol.
  apply (Loop_restore_invariant (m_lib e) (spans_ok (vecSpans (m_grid e)))) in Hsol.
  - destruct Hsol as [Hok (rs & Hrs & Hw & Hd & HP & HE)].
    assert (vecSpans sol = vecSpans (m_grid e)) as Hsp by apply Hok.
    rewrite <- Hsp in Hok.
    pose proof (terminal_all_full sol rs Hok Hrs HP HE) as Hfull.
    assert (pick IsFull rs = map fst rs) as Hpick.
    { apply pick_all. eapply Forall_impl; [exact Hfull|]. intros r [H _]. exact H. }
    rewrite Hpick in Hw, Hd.
    exists (map sPattern (map fst rs)). split; [exact Hsp|]. split; [|split].
    + apply read_all_spec in Hrs. rewrite map_map.
      apply Forall2_fmap_r. eapply Forall2_impl.
      * apply (Forall2_with_r _ _ _ _ Hrs Hfull).
      * simpl. intros sp r [[_ Hget] [Hf _]].
        destruct (GetString_length _ _ _ _ Hget) as (_ & _ & Ha).
        rewrite <- Ha. auto.
    + apply Forall_fmap. apply all_words_spec in Hw. rewrite Forall_fmap in Hw.
      rewrite Forall_fmap. rewrite Forall_forall in *. intros r Hr. simpl.
      destruct (Hfull r Hr) as [_ Hall]. specialize (Hw r Hr). simpl in Hw.
      split; [exact Hall|]. split; [|exact Hw].
      apply (lib_inv_IsWord _ _ Hinv Hall). exact Hw.
    + apply no_dups_spec in Hd. apply Hd.
  - intros g sp s a ws w g' Hok _ _ _ Hf Hw Hset.
    eapply spans_ok_commit; [exact Hok| |exact Hset].
    rewrite Forall_forall in Hwords. apply Hwords.
    eapply found_is_mask; eassumption.
  - apply spans_ok_init; assumption.
Qed.

Lemma C1_witness :
  Init [lit "W...."]
    [lit "HELLO"; lit "WORLD"; lit "W"; lit "O"; lit "R"; lit "L"; lit "D"] = Ok engine_W_row /\
  forall sol, sol ∈ fst (Search 2 engine_W_row) ->
  exists strs,
    Forall2 (fun sp s => GetString sol sp attr0 = Ok (s, attr_of s) /\
                         IsFull (attr_of s) = true) (vecSpans sol) strs /\
    NoDup strs.
Proof.
  assert (Init [lit "W...."]
            [lit "HELLO"; lit "WORLD"; lit "W"; lit "O"; lit "R"; lit "L"; lit "D"]
          = Ok engine_W_row) as Hinit by (apply engine_of_ok; vm_compute; reflexivity).
  split; [exact Hinit|]. intros sol Hsol.
  destruct (C1_printed_grids_are_solutions _ _ _ 2%nat sol Hinit) as (strs & _ & H1 & _ & H2).
  - unfold grid_alphabet. apply Forall_forall. intros line Hl.
    apply Forall_forall. intros c Hc.
    assert (forallb (forallb is_cell) (vecLines (m_grid engine_W_row)) = true) as Hall
      by (vm_compute; reflexivity).
    rewrite forallb_forall in Hall. specialize (Hall line (proj1 (list_elem_of_In _ _) Hl)).
    rewrite forallb_forall in Hall. apply Hall. apply list_elem_of_In. exact Hc.
  - apply Forall_forall. intros w Hw. unfold all_letters. apply Forall_forall. intros c Hc.
    assert (forallb (forallb is_upper) (m_vecWords (m_lib engine_W_row)) = true) as Hall
      by (vm_compute; reflexivity).
    rewrite forallb_forall in Hall. specialize (Hall w (proj1 (list_elem_of_In _ _) Hw)).
    rewrite forallb_forall in Hall. apply Hall. apply list_elem_of_In. exact Hc.
  - exact Hsol.
  - exists strs. auto.
Defined.

(** C1 as stated fails: the one-cell grid [?] is printed as a solution with
    an empty word list; its spans read [?], which is neither made of
    letters nor a word, and the horizontal and the vertical span read the
    same string. *)
Lemma C1_counterexample :
  Init [lit "?"] [] = Ok engine_qmark /\
  solutions (Search 1 engine_qmark) = [[lit "?"]] /\
  vecSpans (m_grid engine_qmark) =
    [mkSpan (mkPoint 0 0) 1 false; mkSpan (mkPoint 0 0) 1 true] /\
  Forall (fun sp => exists a, GetString (m_grid engine_qmark) sp attr0 = Ok (lit "?", a))
    (vecSpans (m_grid engine_qmark)) /\
  ~ all_letters (lit "?") /\
  m_vecWords (m_lib engine_qmark) = [].
Proof.
  split; [apply engine_of_ok; vm_compute; reflexivity|].
  split; [vm_compute; reflexivity|].
  split; [vm_compute; reflexivity|].
  split.
  - repeat constructor; eexists; vm_compute; reflexivity.
  - split; [|vm_compute; reflexivity].
    intros H. inversion H as [|? ? H1 _]. vm_compute in H1. discriminate.
Qed.

(** * Further properties of the grid model *)

(** ** Cell access *)

Lemma rect_writable (g : Grid) (p : Point) : rect g -> writable g p = IsInBounds g p.
Proof.
  intros Hr. unfold writable. destruct (IsInBounds g p) eqn:Hb; [|reflexivity].
  simpl. destruct (rect_at_pt g p Hr Hb) as [c Hc]. unfold at_pt, cell in Hc.
  destruct (vecLines g !! Z.to_nat (nRow p)) as [line|]; [|discriminate].
  apply Nat.ltb_lt. eapply lookup_lt_Some. exact Hc.
Qed.

Lemma SetChar_GetChar_same (g g' : Grid) (p : Point) (c : ascii) :
  SetChar g p c = Ok g' -> GetChar g' p = Ok c.
Proof.
  intros H. apply GetChar_reads. split.
  - rewrite (IsInBounds_shape g' g); [eapply SetChar_in_bounds; exact H|].
    apply (SetChar_frame _ _ _ _ H).
  - unfold at_pt. rewrite (SetChar_cell _ _ _ _ _ _ H).
    destruct (decide _) as [_|Hn]; [reflexivity|]. exfalso. apply Hn. split; reflexivity.
Qed.

Lemma GetChar_cell_eq (g1 g2 : Grid) (q : Point) :
  shape g1 = shape g2 -> at_pt g1 q = at_pt g2 q -> GetChar g1 q = GetChar g2 q.
Proof.
  intros Hs Hc. unfold GetChar. rewrite (IsInBounds_shape g1 g2 q Hs).
  fold (at_pt g1 q). fold (at_pt g2 q). rewrite Hc. reflexivity.
Qed.

Lemma SetChar_GetChar_other (g g' : Grid) (p q : Point) (c : ascii) :
  SetChar g p c = Ok g' -> q <> p -> GetChar g' q = GetChar g q.
Proof.
  intros H Hne. pose proof (SetChar_frame _ _ _ _ H) as (_ & _ & Hs).
  destruct (IsInBounds g q) eqn:Hq.
  - apply GetChar_cell_eq; [exact Hs|]. unfold at_pt.
    rewrite (SetChar_cell _ _ _ _ _ _ H). destruct (decide _) as [[E1 E2]|_]; [|reflexivity].
    exfalso. apply Hne. apply SetChar_in_bounds in H.
    apply IsInBounds_iff in H, Hq. destruct p, q. simpl in *. f_equal; lia.
  - unfold GetChar. rewrite (IsInBounds_shape g' g q Hs), Hq. reflexivity.
Qed.

(** X1: a cell written by [SetChar] is read back by [GetChar], every other
    point reads as before (an assertion failure stays one), and the
    dimensions do not change. *)
Theorem SetChar_then_GetChar (g g' : Grid) (p : Point) (c : ascii) :
  SetChar g p c = Ok g' ->
  GetChar g' p = Ok c /\
  (forall q, q <> p -> GetChar g' q = GetChar g q) /\
  rows g' = rows g /\ cols g' = cols g /\ vecSpans g' = vecSpans g.
Proof.
  intros H. split; [eapply SetChar_GetChar_same; exact H|].
  split; [intros q Hq; eapply SetChar_GetChar_other; eassumption|].
  destruct (SetChar_frame _ _ _ _ H) as (_ & Hsp & Hs).
  rewrite !rows_shape, !cols_shape, Hs. auto.
Qed.

Lemma SetChar_then_GetChar_witness :
  GetChar (mkGrid (lit "0") [lit "AB"; lit "CZ"] []) (mkPoint 1 1) = Ok "Z"%char.
Proof.
  apply (SetChar_then_GetChar (mkGrid (lit "0") [lit "AB"; lit "C."] []) _ (mkPoint 1 1)).
  vm_compute. reflexivity.
Defined.

(** X2: on a grid whose rows have one length, [GetChar] and [SetChar]
    succeed exactly on the points inside the grid and fail their assertion
    on every other point. *)
Theorem cell_access_bounds (g : Grid) (p : Point) (c : ascii) :
  rect g ->
  (IsInBounds g p = true ->
     (exists x, GetChar g p = Ok x) /\ (exists g', SetChar g p c = Ok g')) /\
  (IsInBounds g p = false -> GetChar g p = Abort /\ SetChar g p c = Abort).
Proof.
  intros Hr. split; intros Hb.
  - split.
    + destruct (rect_at_pt g p Hr Hb) as [x Hx]. exists x. apply GetChar_reads. auto.
    + rewrite SetChar_writable, (rect_writable g p Hr), Hb. eauto.
  - unfold GetChar, SetChar. rewrite Hb. auto.
Qed.

Lemma cell_access_bounds_witness :
  GetChar (mkGrid (lit "0") [lit "AB"; lit "C."] []) (mkPoint 2 0) = Abort /\
  SetChar (mkGrid (lit "0") [lit "AB"; lit "C."] []) (mkPoint 2 0) "X"%char = Abort.
Proof.
  apply (cell_access_bounds (mkGrid (lit "0") [lit "AB"; lit "C."] []) (mkPoint 2 0) "X"%char).
  - repeat constructor.
  - reflexivity.
Defined.

(** ** Span strings *)

Lemma SetString_in_bounds' (g g' : Grid) (sp : Span) (w : str) (i : Z) :
  SetString g sp w = Ok g' -> 0 <= i < nLen sp -> IsInBounds g' (pt sp i) = true.
Proof.
  intros H Hi. destruct (SetString_frame _ _ _ _ H) as (_ & _ & _ & Hs).
  rewrite (IsInBounds_shape g' g _ Hs). apply (SetString_written _ _ _ _ i H Hi).
Qed.

Lemma SetString_GetString (g g' : Grid) (sp : Span) (w : str) :
  SetString g sp w = Ok g' -> GetString g' sp attr0 = Ok (w, attr_of w).
Proof.
  intros H. destruct (SetString_frame _ _ _ _ H) as (HL & _).
  apply GetString_spec. split; [lia|]. split; [|reflexivity].
  apply Forall2_same_length_lookup_2.
  - rewrite length_seqZ. lia.
  - intros j i c Hi Hc. apply lookup_seqZ in Hi. destruct Hi as [-> Hj].
    rewrite Z.add_0_l. assert (0 <= Z.of_nat j < nLen sp) as Hr by lia.
    split; [exact Hr|]. split; [eapply SetString_in_bounds'; eassumption|].
    destruct (SetString_written _ _ _ _ _ H Hr) as [_ Hw].
    rewrite Hw, Nat2Z.id. exact Hc.
Qed.

(** X3: a word written into a span by [SetString] is the string that
    [GetString] reads from the span, with the attribute of the word. *)
Theorem SetString_then_GetString (g g' : Grid) (sp : Span) (w : str) :
  SetString g sp w = Ok g' ->
  GetString g' sp attr0 = Ok (w, attr_of w) /\
  bHasLetters (attr_of w) = existsb is_upper w /\
  bHasBlanks (attr_of w) = existsb (fun c => ch_eqb c ch_blank) w.
Proof.
  intros H. split; [eapply SetString_GetString; exact H|]. split; reflexivity.
Qed.

Lemma SetString_then_GetString_witness :
  GetString (mkGrid (lit "0") [lit "CAT"; lit "#.#"] []) (mkSpan (mkPoint 0 0) 3 false) attr0
  = Ok (lit "CAT", mkAttr true false).
Proof.
  apply (SetString_then_GetString (mkGrid (lit "0") [lit "C.T"; lit "#.#"] [])).
  vm_compute. reflexivity.
Defined.

Lemma SetString_GetChar_other (g g' : Grid) (sp : Span) (w : str) (q : Point) :
  SetString g sp w = Ok g' ->
  (forall i, 0 <= i < nLen sp -> pt sp i <> q) ->
  GetChar g' q = GetChar g q.
Proof.
  intros H Hq. destruct (SetString_frame _ _ _ _ H) as (_ & _ & _ & Hs).
  destruct (IsInBounds g q) eqn:Hb.
  - apply GetChar_cell_eq; [exact Hs|]. unfold at_pt.
    apply (SetString_other _ _ _ _ _ _ H). intros i Hi [E1 E2]. apply (Hq i Hi).
    destruct (SetString_written _ _ _ _ i H Hi) as [Hbi _].
    apply IsInBounds_iff in Hb, Hbi. destruct (pt sp i), q. simpl in *. f_equal; lia.
  - unfold GetChar. rewrite (IsInBounds_shape g' g q Hs), Hb. reflexivity.
Qed.

Lemma GetString_loop_ext (g1 g2 : Grid) (sp : Span) (idx : list Z) (a : Attribute) :
  (forall i, i ∈ idx -> 0 <= i < nLen sp -> GetChar g1 (pt sp i) = GetChar g2 (pt sp i)) ->
  GetString_loop g1 sp idx a = GetString_loop g2 sp idx a.
Proof.
  revert a. induction idx as [|i idx IH]; intros a H; simpl; [reflexivity|].
  rewrite GetPoint_pt. destruct ((0 <=? i) && (i <? nLen sp)) eqn:Hi; simpl; [|reflexivity].
  rewrite (H i); [|left|apply andb_true_iff in Hi; lia].
  destruct (GetChar g2 (pt sp i)) as [c| |]; simpl; [|reflexivity|reflexivity].
  rewrite IH; [reflexivity|]. intros j Hj. apply H. right. exact Hj.
Qed.

(** X4: [SetString] changes the cells of its span and nothing else: the
    word has the length of the span, the identifier, span list and
    dimensions are kept, every point off the span reads as before, and a
    span that shares no cell with the written one reads the same string. *)
Theorem SetString_changes_only_its_span (g g' : Grid) (sp : Span) (w : str) :
  SetString g sp w = Ok g' ->
  nLen sp = Z.of_nat (length w) /\
  sID g' = sID g /\ vecSpans g' = vecSpans g /\ rows g' = rows g /\ cols g' = cols g /\
  (forall q, (forall i, 0 <= i < nLen sp -> pt sp i <> q) -> GetChar g' q = GetChar g q) /\
  (forall sp2 a,
     (forall i j, 0 <= i < nLen sp -> 0 <= j < nLen sp2 -> pt sp i <> pt sp2 j) ->
     GetString g' sp2 a = GetString g sp2 a).
Proof.
  intros H. destruct (SetString_frame _ _ _ _ H) as (HL & Hid & Hsp & Hs).
  split; [exact HL|]. split; [exact Hid|]. split; [exact Hsp|].
  split; [rewrite !rows_shape, Hs; reflexivity|].
  split; [rewrite !cols_shape, Hs; reflexivity|]. split.
  - intros q Hq. eapply SetString_GetChar_other; eassumption.
  - intros sp2 a Hd. unfold GetString. destruct (0 <=? nLen sp2); simpl; [|reflexivity].
    apply GetString_loop_ext. intros j _ Hj.
    eapply SetString_GetChar_other; [exact H|]. intros i Hi. apply Hd; assumption.
Qed.

Lemma SetString_changes_only_its_span_witness :
  GetString (mkGrid (lit "0") [lit "CAT"; lit "#.#"] []) (mkSpan (mkPoint 1 1) 1 false) attr0 =
  GetString (mkGrid (lit "0") [lit "C.T"; lit "#.#"] []) (mkSpan (mkPoint 1 1) 1 false) attr0.
Proof.
  apply (SetString_changes_only_its_span (mkGrid (lit "0") [lit "C.T"; lit "#.#"] []) _
           (mkSpan (mkPoint 0 0) 3 false) (lit "CAT")).
  - vm_compute. reflexivity.
  - intros i j Hi Hj. unfold pt. simpl. intros E. discriminate E.
Defined.

Lemma GetString_loop_total (g : Grid) (sp : Span) (idx : list Z) (a : Attribute) :
  rect g ->
  (forall i, i ∈ idx -> 0 <= i < nLen sp /\ IsInBounds g (pt sp i) = true) ->
  exists r, GetString_loop g sp idx a = Ok r.
Proof.
  intros Hr. revert a. induction idx as [|i idx IH]; intros a H; simpl; [eauto|].
  destruct (H i) as [Hi Hb]; [left|]. rewrite GetPoint_pt.
  replace ((0 <=? i) && (i <? nLen sp)) with true by (symmetry; apply andb_true_iff; lia).
  simpl. destruct (rect_at_pt g _ Hr Hb) as [c Hc].
  rewrite (proj2 (GetChar_reads g (pt sp i) c)) by auto. simpl.
  destruct (IH (mark c a)) as [r Er]; [intros j Hj; apply H; right; exact Hj|].
  rewrite Er. simpl. eauto.
Qed.

Lemma GetString_loop_bounds (g : Grid) (sp : Span) (idx : list Z) (a : Attribute)
  (r : str * Attribute) :
  GetString_loop g sp idx a = Ok r ->
  forall i, i ∈ idx -> 0 <= i < nLen sp /\ IsInBounds g (pt sp i) = true.
Proof.
  destruct r as [s a']. intros H. apply GetString_loop_spec in H. destruct H as [H _].
  intros i Hi. apply list_elem_of_lookup in Hi. destruct Hi as [j Hj].
  destruct (Forall2_lookup_l _ _ _ _ _ H Hj) as (c & _ & H1 & H2 & _). auto.
Qed.

Lemma SetString_loop_total (sp : Span) (s : str) (idx : list Z) (g : Grid) :
  (forall i, i ∈ idx -> 0 <= i < nLen sp /\ writable g (pt sp i) = true /\
                        is_Some (s !! Z.to_nat i)) ->
  exists g', SetString_loop g sp idx s = Ok g'.
Proof.
  revert g. induction idx as [|i idx IH]; intros g H; simpl; [eauto|].
  destruct (H i) as (Hi & Hw & [c Hc]); [left|]. rewrite GetPoint_pt.
  replace ((0 <=? i) && (i <? nLen sp)) with true by (symmetry; apply andb_true_iff; lia).
  simpl. rewrite Hc. simpl. rewrite SetChar_writable, Hw. simpl.
  apply IH. intros j Hj. destruct (H j) as (H1 & H2 & H3); [right; exact Hj|].
  split; [exact H1|]. split; [|exact H3]. rewrite <- H2. apply writable_shape.
  unfold shape. simpl. apply list_eq. intros r. rewrite !list_lookup_fmap.
  destruct (decide (r = Z.to_nat (nRow (pt sp i)))) as [->|Hne].
  - rewrite list_lookup_alter_eq. destruct (vecLines g !! _); simpl; [|reflexivity].
    rewrite length_insert. reflexivity.
  - rewrite list_lookup_alter_ne by congruence. reflexivity.
Qed.

(** X5: on a grid whose rows have one length, reading a span succeeds
    exactly when its length is not negative and all its points are inside
    the grid, and writing a word succeeds exactly when the word has the
    length of the span and all its points are inside the grid; otherwise the
    operation fails an assertion. *)
Theorem span_io_succeeds_iff (g : Grid) (sp : Span) (w : str) (a : Attribute) :
  rect g ->
  (is_ok (GetString g sp a) = true <->
   0 <= nLen sp /\ forall i, 0 <= i < nLen sp -> IsInBounds g (pt sp i) = true) /\
  (is_ok (SetString g sp w) = true <->
   nLen sp = Z.of_nat (length w) /\
   forall i, 0 <= i < nLen sp -> IsInBounds g (pt sp i) = true) /\
  (is_ok (GetString g sp a) = false -> GetString g sp a = Abort) /\
  (is_ok (SetString g sp w) = false -> SetString g sp w = Abort).
Proof.
  intros Hr. split; [|split; [|split]].
  - unfold GetString. destruct (Z.leb_spec 0 (nLen sp)) as [Hn|Hn]; simpl.
    + split.
      * intros H. split; [exact Hn|]. intros i Hi.
        destruct (GetString_loop g sp (seqZ 0 (nLen sp)) a) as [r| |] eqn:E; try discriminate.
        apply (GetString_loop_bounds _ _ _ _ _ E). apply elem_of_seqZ. lia.
      * intros [_ H]. destruct (GetString_loop_total g sp (seqZ 0 (nLen sp)) a Hr) as [r Er].
        -- intros i Hi. apply elem_of_seqZ in Hi. split; [lia|]. apply H. lia.
        -- rewrite Er. reflexivity.
    + split; [discriminate|]. intros [H _]. lia.
  - rewrite SetString_unfold.
    destruct (Z.eqb_spec (nLen sp) (Z.of_nat (length w))) as [Hn|Hn].
    + split.
      * intros H. split; [exact Hn|]. intros i Hi.
        destruct (SetString_loop g sp (seqZ 0 (nLen sp)) w) as [g'| |] eqn:E; try discriminate.
        apply (SetString_loop_bounds _ _ _ _ _ E). apply elem_of_seqZ. lia.
      * intros [_ H]. destruct (SetString_loop_total sp w (seqZ 0 (nLen sp)) g) as [g' Eg].
        -- intros i Hi. apply elem_of_seqZ in Hi. split; [lia|]. split.
           ++ rewrite (rect_writable g _ Hr). apply H. lia.
           ++ apply lookup_lt_is_Some. lia.
        -- rewrite Eg. reflexivity.
    + split; [discriminate|]. intros [H _]. contradiction.
  - pose proof (GetString_no_fuel g sp a). destruct (GetString g sp a); simpl; congruence.
  - pose proof (SetString_no_fuel g sp w). destruct (SetString g sp w); simpl; congruence.
Qed.

Lemma span_io_succeeds_iff_witness :
  SetString (mkGrid (lit "0") [lit "C.T"; lit "#.#"] []) (mkSpan (mkPoint 0 0) 3 false) (lit "CA")
  = Abort.
Proof.
  apply (span_io_succeeds_iff (mkGrid (lit "0") [lit "C.T"; lit "#.#"] [])
           (mkSpan (mkPoint 0 0) 3 false) (lit "CA") attr0).
  - repeat constructor.
  - reflexivity.
Defined.

(** ** Attributes *)

Lemma existsb_true_elem {A : Type} (f : A -> bool) (l : list A) :
  existsb f l = true <-> exists x, x ∈ l /\ f x = true.
Proof.
  rewrite existsb_exists. split; intros (x & H1 & H2); exists x; split; auto;
    apply list_elem_of_In; exact H1.
Qed.

Lemma existsb_false_elem {A : Type} (f : A -> bool) (l : list A) :
  existsb f l = false <-> forall x, x ∈ l -> f x = false.
Proof.
  split.
  - intros H. apply existsb_false_Forall in H. rewrite Forall_forall in H. exact H.
  - intros H. destruct (existsb f l) eqn:E; [|reflexivity].
    apply existsb_true_elem in E. destruct E as (x & H1 & H2). rewrite (H x H1) in H2.
    discriminate.
Qed.

Lemma attr_of_full (s : str) :
  Forall fillable s -> s <> [] -> (IsFull (attr_of s) = true <-> all_letters s).
Proof.
  intros Hf Hne. unfold IsFull, attr_of, all_letters. simpl.
  rewrite andb_true_iff, negb_true_iff, existsb_false_elem, existsb_true_elem, Forall_forall.
  split.
  - intros [Hb _] c Hc. rewrite Forall_forall in Hf. destruct (Hf c Hc) as [->|Hu]; [|exact Hu].
    specialize (Hb _ Hc). rewrite ch_eqb_refl in Hb. discriminate.
  - intros H. split.
    + intros c Hc. apply ch_eqb_neq. apply is_upper_not_blank. apply H. exact Hc.
    + destruct s as [|c s]; [congruence|]. exists c. split; [left|]. apply H. left.
Qed.

Lemma attr_of_empty (s : str) :
  Forall fillable s -> s <> [] ->
  (IsEmpty (attr_of s) = true <-> Forall (fun c => c = ch_blank) s).
Proof.
  intros Hf Hne. unfold IsEmpty, attr_of. simpl.
  rewrite andb_true_iff, negb_true_iff, existsb_false_elem, existsb_true_elem, Forall_forall.
  split.
  - intros [_ Hl] c Hc. rewrite Forall_forall in Hf. destruct (Hf c Hc) as [->|Hu];
      [reflexivity|]. rewrite (Hl c Hc) in Hu. discriminate.
  - intros H. split.
    + destruct s as [|c s]; [congruence|]. exists c. split; [left|].
      rewrite (H c); [apply ch_eqb_refl|left].
    + intros c Hc. rewrite (H c Hc). reflexivity.
Qed.

(** X6: the attribute read with a span's string classifies it. The three
    tests exclude one another. For a span of at least one cell whose cells
    are blanks and letters exactly one test holds: full when every cell is
    a letter, empty when every cell is blank, partial when it has a blank
    and a letter. A string without blank and without letter passes none. *)
Theorem GetString_classifies (g : Grid) (sp : Span) (s : str) (a : Attribute) :
  GetString g sp attr0 = Ok (s, a) ->
  (IsEmpty a && IsPartial a = false) /\ (IsEmpty a && IsFull a = false) /\
  (IsPartial a && IsFull a = false) /\
  (IsPartial a = true <->
   ch_blank ∈ s /\ exists c, c ∈ s /\ is_upper c = true) /\
  ((forall c, c ∈ s -> c <> ch_blank /\ is_upper c = false) ->
   IsEmpty a = false /\ IsPartial a = false /\ IsFull a = false) /\
  (Forall fillable s -> 1 <= nLen sp ->
   (IsFull a = true <-> all_letters s) /\
   (IsEmpty a = true <-> Forall (fun c => c = ch_blank) s) /\
   (IsEmpty a || IsPartial a || IsFull a = true)).
Proof.
  intros H. destruct (GetString_length _ _ _ _ H) as (_ & HL & ->).
  split; [|split; [|split; [|split; [|split]]]].
  - unfold IsEmpty, IsPartial. destruct (bHasBlanks _), (bHasLetters _); reflexivity.
  - unfold IsEmpty, IsFull. destruct (bHasBlanks _), (bHasLetters _); reflexivity.
  - unfold IsPartial, IsFull. destruct (bHasBlanks _), (bHasLetters _); reflexivity.
  - unfold IsPartial, attr_of. simpl. rewrite andb_true_iff, !existsb_true_elem. split.
    + intros [(c & Hc & E) Hl]. apply ch_eqb_eq in E. subst c. auto.
    + intros [Hb Hl]. split; [|exact Hl]. exists ch_blank. split; [exact Hb|apply ch_eqb_refl].
  - intros Hn. unfold IsEmpty, IsPartial, IsFull, attr_of. simpl.
    assert (existsb (fun c => ch_eqb c ch_blank) s = false) as ->
      by (apply existsb_false_elem; intros c Hc; apply ch_eqb_neq; apply (Hn c Hc)).
    assert (existsb is_upper s = false) as ->
      by (apply existsb_false_elem; intros c Hc; apply (Hn c Hc)).
    auto.
  - intros Hf Hn. assert (s <> []) as Hne by (intros ->; simpl in HL; lia).
    split; [apply attr_of_full; assumption|]. split; [apply attr_of_empty; assumption|].
    unfold IsEmpty, IsPartial, IsFull, attr_of. simpl.
    destruct s as [|c s]; [congruence|]. simpl.
    inversion Hf as [|? ? Hc _]. subst. destruct Hc as [->|Hu].
    + rewrite ch_eqb_refl. change (is_upper ch_blank) with false. simpl.
      destruct (existsb is_upper s); reflexivity.
    + rewrite Hu.
      assert (ch_eqb c ch_blank = false) as ->
        by (apply ch_eqb_neq, is_upper_not_blank; exact Hu).
      simpl. destruct (existsb (fun c0 => ch_eqb c0 ch_blank) s); reflexivity.
Qed.

Lemma GetString_classifies_witness :
  IsPartial (mkAttr true true) = true <->
  ch_blank ∈ lit "C.T" /\ exists c, c ∈ lit "C.T" /\ is_upper c = true.
Proof.
  apply (GetString_classifies (mkGrid (lit "0") [lit "C.T"; lit "#.#"] [])
           (mkSpan (mkPoint 0 0) 3 false) (lit "C.T") (mkAttr true true)).
  vm_compute. reflexivity.
Defined.

(** ** The scan and the spans *)

(** X7: [Next] and [NextStopAtWrap] move a point of the grid to the same
    point, the next cell in the order of the scan (the rank grows by one):
    the next position of the line, or position 0 of the next line after the
    last position. [Next] reports whether the new point is inside the grid,
    which fails only after the last cell; [NextStopAtWrap] reports whether
    the point stayed on its line. *)
Theorem Next_follows_scan_order (g : Grid) (vert : bool) (l q : Z) :
  scan_inb g vert l q ->
  fst (Next g (mk_pt vert l q) vert) = fst (NextStopAtWrap g (mk_pt vert l q) vert) /\
  exists l' q',
    fst (Next g (mk_pt vert l q) vert) = mk_pt vert l' q' /\
    0 <= q' < width g vert /\
    scan_idx g vert l' q' = scan_idx g vert l q + 1 /\
    (snd (NextStopAtWrap g (mk_pt vert l q) vert) = true <-> l' = l /\ q' = q + 1) /\
    (snd (NextStopAtWrap g (mk_pt vert l q) vert) = false <-> l' = l + 1 /\ q' = 0) /\
    (snd (Next g (mk_pt vert l q) vert) = true <-> scan_inb g vert l' q') /\
    (snd (Next g (mk_pt vert l q) vert) = false <->
     l = nlines g vert - 1 /\ q = width g vert - 1).
Proof.
  intros [Hl Hq]. unfold Next, NextStopAtWrap. rewrite advance_mk.
  destruct (Z.geb_spec (q + 1) (width g vert)) as [Hw|Hw]; simpl.
  - split; [reflexivity|]. exists (l + 1), 0. split; [reflexivity|]. split; [lia|].
    split; [unfold scan_idx; lia|]. split; [split; [discriminate|lia]|].
    split; [split; auto|]. split.
    + rewrite IsInBounds_mk. unfold scan_inb. tauto.
    + rewrite IsInBounds_mk_false. lia.
  - split; [reflexivity|]. exists l, (q + 1). split; [reflexivity|]. split; [lia|].
    split; [unfold scan_idx; lia|]. split; [split; auto|].
    split; [split; [discriminate|lia]|]. split.
    + rewrite IsInBounds_mk. unfold scan_inb. tauto.
    + rewrite IsInBounds_mk_false. lia.
Qed.

Lemma Next_follows_scan_order_witness :
  fst (Next (mkGrid (lit "0") [lit "AB"; lit "C."] []) (mkPoint 0 1) false) =
  fst (NextStopAtWrap (mkGrid (lit "0") [lit "AB"; lit "C."] []) (mkPoint 0 1) false).
Proof.
  apply (Next_follows_scan_order (mkGrid (lit "0") [lit "AB"; lit "C."] []) false 0 1).
  unfold scan_inb, nlines, width, rows, cols. simpl. lia.
Defined.

Lemma sorted_from_apart (g : Grid) (vert : bool) (k : Z) (sps : list Span)
  (a b : nat) (sp1 sp2 : Span) :
  Forall (good_span g vert) sps -> sorted_from g vert k sps ->
  sps !! a = Some sp1 -> sps !! b = Some sp2 -> (a < b)%nat ->
  scan_idx g vert (span_line vert sp1) (span_pos vert sp1) + nLen sp1 <=
  scan_idx g vert (span_line vert sp2) (span_pos vert sp2).
Proof.
  revert k a b. induction sps as [|sp sps IH]; intros k a b Hg Hs Ha Hb Hlt; [discriminate|].
  inversion Hg as [|? ? Hsp Hg']. subst. destruct Hs as [Hk Hs].
  destruct b as [|b]; [lia|]. simpl in Hb. destruct a as [|a].
  - simpl in Ha. injection Ha as <-.
    pose proof (sorted_from_lower g vert _ sps Hg' Hs) as Hlow.
    rewrite Forall_forall in Hlow. apply Hlow. eapply list_elem_of_lookup_2. exact Hb.
  - simpl in Ha. apply (IH _ a b Hg' Hs Ha Hb). lia.
Qed.

Lemma good_span_covers_idx (g : Grid) (vert : bool) (sp : Span) (l q : Z) :
  good_span g vert sp -> covers sp (mk_pt vert l q) ->
  l = span_line vert sp /\ span_pos vert sp <= q < span_pos vert sp + nLen sp.
Proof.
  intros (Hv & _) (i & Hi & Hp). rewrite (pt_scan vert sp i Hv) in Hp.
  unfold mk_pt, span_line, span_pos in *. destruct vert; injection Hp as H1 H2; lia.
Qed.

Lemma sorted_from_disjoint (g : Grid) (vert : bool) (k : Z) (sps : list Span)
  (a b : nat) (sp1 sp2 : Span) (p : Point) :
  Forall (good_span g vert) sps -> sorted_from g vert k sps ->
  sps !! a = Some sp1 -> sps !! b = Some sp2 ->
  covers sp1 p -> covers sp2 p -> a = b.
Proof.
  intros Hg Hs Ha Hb H1 H2.
  assert (p = mk_pt vert (if vert then nCol p else nRow p) (if vert then nRow p else nCol p))
    as Hp by (destruct p, vert; reflexivity).
  rewrite Hp in H1, H2.
  pose proof Hg as Hg'. rewrite Forall_forall in Hg'.
  assert (good_span g vert sp1) as G1 by (apply Hg'; eapply list_elem_of_lookup_2; exact Ha).
  assert (good_span g vert sp2) as G2 by (apply Hg'; eapply list_elem_of_lookup_2; exact Hb).
  destruct (good_span_covers_idx _ _ _ _ _ G1 H1) as [L1 Q1].
  destruct (good_span_covers_idx _ _ _ _ _ G2 H2) as [L2 Q2].
  destruct (Nat.lt_trichotomy a b) as [Hlt|[Heq|Hgt]]; [|exact Heq|].
  - pose proof (sorted_from_apart _ _ _ _ _ _ _ _ Hg Hs Ha Hb Hlt) as Hd.
    unfold scan_idx in Hd. rewrite <- L1, <- L2 in Hd. lia.
  - pose proof (sorted_from_apart _ _ _ _ _ _ _ _ Hg Hs Hb Ha Hgt) as Hd.
    unfold scan_idx in Hd. rewrite <- L1, <- L2 in Hd. lia.
Qed.

(** X8: the spans derived from a grid do not overlap within a direction:
    two entries of the span list that have the same orientation and cover
    one point are the same entry. *)
Theorem spans_of_one_direction_are_disjoint (g g' : Grid) (a b : nat)
  (sp1 sp2 : Span) (p : Point) :
  CheckSize g = Ok tt -> vecSpans g = [] -> FillSpans g = Ok g' ->
  vecSpans g' !! a = Some sp1 -> vecSpans g' !! b = Some sp2 ->
  bVert sp1 = bVert sp2 -> covers sp1 p -> covers sp2 p -> a = b.
Proof.
  intros Hsize He Hfill Ha Hb Hv H1 H2. apply CheckSize_spec in Hsize.
  destruct (FillSpans_spec g Hsize He) as (hs & vs & E & Hg1 & Hs1 & _ & Hg2 & Hs2 & _).
  rewrite E in Hfill. injection Hfill as <-. simpl in Ha, Hb.
  assert (forall sp, sp ∈ hs -> bVert sp = false) as Hh
    by (intros sp Hin; rewrite Forall_forall in Hg1; apply (Hg1 sp Hin)).
  assert (forall sp, sp ∈ vs -> bVert sp = true) as Hvv
    by (intros sp Hin; rewrite Forall_forall in Hg2; apply (Hg2 sp Hin)).
  destruct (decide (a < length hs)%nat) as [La|La];
    destruct (decide (b < length hs)%nat) as [Lb|Lb].
  - rewrite lookup_app_l in Ha, Hb by assumption.
    eapply (sorted_from_disjoint g false); eassumption.
  - exfalso. rewrite lookup_app_l in Ha by assumption.
    rewrite lookup_app_r in Hb by lia.
    rewrite (Hh sp1), (Hvv sp2) in Hv; [discriminate| |];
      eapply list_elem_of_lookup_2; eassumption.
  - exfalso. rewrite lookup_app_l in Hb by assumption.
    rewrite lookup_app_r in Ha by lia.
    rewrite (Hh sp2), (Hvv sp1) in Hv; [discriminate| |];
      eapply list_elem_of_lookup_2; eassumption.
  - rewrite lookup_app_r in Ha, Hb by lia.
    assert (a - length hs = b - length hs)%nat; [|lia].
    eapply (sorted_from_disjoint g true); eassumption.
Qed.

Lemma spans_of_one_direction_are_disjoint_witness :
  FillSpans (mkGrid (lit "0") [lit "A.#"] []) =
  Ok (mkGrid (lit "0") [lit "A.#"]
        [mkSpan (mkPoint 0 0) 2 false; mkSpan (mkPoint 0 0) 1 true;
         mkSpan (mkPoint 0 1) 1 true]) /\
  covers (mkSpan (mkPoint 0 0) 2 false) (mkPoint 0 1) /\
  0%nat = 0%nat.
Proof.
  assert (FillSpans (mkGrid (lit "0") [lit "A.#"] []) =
          Ok (mkGrid (lit "0") [lit "A.#"]
                [mkSpan (mkPoint 0 0) 2 false; mkSpan (mkPoint 0 0) 1 true;
                 mkSpan (mkPoint 0 1) 1 true])) as Hfill by (vm_compute; reflexivity).
  assert (covers (mkSpan (mkPoint 0 0) 2 false) (mkPoint 0 1)) as Hc
    by (exists 1; split; [simpl; lia|reflexivity]).
  split; [exact Hfill|]. split; [exact Hc|].
  apply (spans_of_one_direction_are_disjoint (mkGrid (lit "0") [lit "A.#"] [])
           (mkGrid (lit "0") [lit "A.#"]
              [mkSpan (mkPoint 0 0) 2 false; mkSpan (mkPoint 0 0) 1 true;
               mkSpan (mkPoint 0 1) 1 true])
           0%nat 0%nat (mkSpan (mkPoint 0 0) 2 false) (mkSpan (mkPoint 0 0) 2 false)
           (mkPoint 0 1)); try exact Hfill; try reflexivity; try exact Hc.
Defined.

Lemma Loop_no_spans (fuel : nat) (lib : Library) (g : Grid) (d : Z) :
  vecSpans g = [] -> Loop (S fuel) lib g d = ([g], Ok tt).
Proof. intros H. simpl. rewrite H. reflexivity. Qed.

Lemma all_blocks_no_span (g : Grid) :
  rect g -> Forall (maximal_run g) (vecSpans g) ->
  (forall line, line ∈ vecLines g -> Forall (fun c => c = ch_block) line) ->
  vecSpans g = [].
Proof.
  intros Hr Hm Hall. destruct (vecSpans g) as [|sp sps]; [reflexivity|]. exfalso.
  inversion Hm as [|? ? (Hn & Hcells & _) _]. subst.
  destruct (Hcells 0) as [Hb Hblk]; [lia|].
  rewrite (IsBlock_blk g _ Hr Hb) in Hblk. injection Hblk as Hblk. unfold blk in Hblk.
  destruct (rect_at_pt g _ Hr Hb) as [c Hc]. rewrite Hc in Hblk.
  destruct (at_pt_elem g _ c Hc) as (line & Hl & Hcl).
  specialize (Hall line Hl). rewrite Forall_forall in Hall. rewrite (Hall c Hcl) in Hblk.
  rewrite ch_eqb_refl in Hblk. discriminate.
Qed.

(** X9: a grid made of blocks only (in particular a grid file without grid
    line) has no span, and the search prints it once, unchanged, and ends
    normally at the first node, whatever the dictionary. *)
Theorem block_grid_is_printed_unchanged (gridLines libLines : list str) (e : Engine)
  (fuel : nat) :
  Init gridLines libLines = Ok e ->
  (forall line, line ∈ vecLines (m_grid e) -> Forall (fun c => c = ch_block) line) ->
  vecSpans (m_grid e) = [] /\ Search (S fuel) e = ([m_grid e], Ok e).
Proof.
  intros Hinit Hall. destruct (Init_grid _ _ _ Hinit) as [Hr Hm].
  pose proof (all_blocks_no_span _ Hr Hm Hall) as Hs. split; [exact Hs|].
  rewrite Search_unfold, (Loop_no_spans _ _ _ _ Hs). reflexivity.
Qed.

Lemma block_grid_is_printed_unchanged_witness :
  solutions (Search 1 (engine_of (Init [lit "##"; lit "##"] [lit "CAT"]))) =
  [[lit "##"; lit "##"]].
Proof.
  destruct (block_grid_is_printed_unchanged [lit "##"; lit "##"] [lit "CAT"]
              (engine_of (Init [lit "##"; lit "##"] [lit "CAT"])) 0%nat) as [_ H].
  - apply engine_of_ok. vm_compute. reflexivity.
  - intros line Hl.
    assert (forallb (forallb (fun c => ch_eqb c ch_block))
              (vecLines (m_grid (engine_of (Init [lit "##"; lit "##"] [lit "CAT"])))) = true)
      as Hall by (vm_compute; reflexivity).
    rewrite forallb_forall in Hall. specialize (Hall line (proj1 (list_elem_of_In _ _) Hl)).
    rewrite forallb_forall in Hall. apply Forall_forall. intros c Hc.
    apply ch_eqb_eq. apply Hall. apply list_elem_of_In. exact Hc.
  - rewrite H. vm_compute. reflexivity.
Defined.

(** * Further properties of the dictionary *)

Lemma is_mask_of_matches (p : str) (w : Word) : is_mask_of p w <-> matches p w.
Proof.
  unfold matches. split.
  - intros (i & _ & ->). rewrite mask_word_masked. unfold masked.
    apply Forall2_same_length_lookup_2; [apply length_imap|].
    intros j c x Hc Hx. rewrite list_lookup_imap, Hx in Hc. simpl in Hc. injection Hc as <-.
    unfold agrees. destruct (Z.testbit i (Z.of_nat j)); auto.
  - intros H.
    assert (p = wildcard_at (fun j => bool_decide (p !! j = Some ch_blank)) w) as ->.
    { unfold wildcard_at. apply list_eq. intros j. rewrite list_lookup_imap.
      destruct (w !! j) as [x|] eqn:Hx; simpl.
      - destruct (Forall2_lookup_r _ _ _ _ _ H Hx) as (c & Hc & Ha).
        rewrite Hc. f_equal. destruct Ha as [->| ->].
        + rewrite bool_decide_eq_true_2 by reflexivity. reflexivity.
        + destruct (bool_decide (Some x = Some ch_blank)) eqn:E; [|reflexivity].
          apply bool_decide_eq_true in E. injection E as ->. reflexivity.
      - apply lookup_ge_None. apply lookup_ge_None in Hx.
        rewrite (Forall2_length _ _ _ H). exact Hx. }
    apply wildcard_is_mask.
Qed.

Lemma found_not_empty (lib : Library) (p : str) (ws : list Word) :
  lib_inv lib -> FindWord lib p = Some ws -> ws <> [].
Proof.
  intros Hinv Hf. unfold FindWord in Hf.
  assert (is_Some (m_umapWords lib !! p)) as Hk by (rewrite Hf; eauto).
  apply (inv_keys _ Hinv) in Hk. destruct Hk as (w & Hw & Hi & Hm).
  destruct (lib_inv_find lib w p Hinv Hw Hi Hm) as (ws' & E & Hin).
  rewrite Hf in E. injection E as <-. intros ->. inversion Hin.
Qed.

Lemma matches_indexable (p : str) (w : Word) :
  Z.of_nat (length p) <= 30 -> matches p w -> indexable w.
Proof.
  intros Hp Hm. unfold indexable. rewrite <- (Forall2_length _ _ _ Hm). lia.
Qed.

(** X10: what [FindWord] answers after a load, for a pattern of at most 30
    characters. It finds a list exactly when some loaded word matches the
    pattern (same length, and at every position the pattern has the
    wildcard or the word's character); the list holds exactly the loaded
    words that match. For every pattern the list found is never empty, so
    the assertion in the loop of [CommitSlot] cannot fail, and [IsWord]
    holds of exactly the strings for which [FindWord] finds a list. *)
Theorem FindWord_is_pattern_matching (lines : list str) (nMaxSize : Z) (lib : Library)
  (p : str) :
  ReadFromFile Library0 lines nMaxSize = Ok lib ->
  (Z.of_nat (length p) <= 30 ->
   (FindWord lib p = None <-> forall w, w ∈ m_vecWords lib -> ~ matches p w) /\
   (forall ws, FindWord lib p = Some ws ->
      forall w, w ∈ ws <-> w ∈ m_vecWords lib /\ matches p w)) /\
  (forall ws, FindWord lib p = Some ws -> ws <> []) /\
  (IsWord lib p = true <-> exists ws, FindWord lib p = Some ws).
Proof.
  intros Hload.
  assert (lib_inv lib) as Hinv by (eapply ReadFromFile_inv; [apply lib_inv_empty|exact Hload]).
  split; [|split].
  - intros Hp. split.
    + unfold FindWord. split.
      * intros Hn w Hw Hm. pose proof (matches_indexable p w Hp Hm) as Hi.
        apply is_mask_of_matches in Hm.
        destruct (lib_inv_find lib w p Hinv Hw Hi Hm) as (ws & E & _). congruence.
      * intros Hn. destruct (m_umapWords lib !! p) as [ws|] eqn:E; [|reflexivity].
        exfalso. assert (is_Some (m_umapWords lib !! p)) as Hk by (rewrite E; eauto).
        apply (inv_keys _ Hinv) in Hk. destruct Hk as (w & Hw & _ & Hm).
        apply (Hn w Hw). apply is_mask_of_matches. exact Hm.
    + intros ws Hf w. rewrite <- is_mask_of_matches.
      pose proof (inv_members _ Hinv p w) as H. unfold bucket, FindWord in *.
      rewrite Hf in H. simpl in H. rewrite H. split; [tauto|].
      intros [H1 H2]. split; [exact H1|]. split; [|exact H2].
      apply (matches_indexable p w Hp). apply is_mask_of_matches. exact H2.
  - intros ws Hf. eapply found_not_empty; eassumption.
  - unfold IsWord, FindWord. destruct (m_umapWords lib !! p) as [ws|]; split; eauto;
      try discriminate. intros [ws H]. discriminate.
Qed.

Lemma FindWord_is_pattern_matching_witness :
  ReadFromFile Library0 [lit "COT"; lit "CAT"; lit "COT"; lit "DOG"] 3 = Ok lib_COT /\
  (FindWord lib_COT (lit ".O.") = None <->
   forall w, w ∈ m_vecWords lib_COT -> ~ matches (lit ".O.") w) /\
  (forall ws, FindWord lib_COT (lit ".O.") = Some ws ->
     forall w, w ∈ ws <-> w ∈ m_vecWords lib_COT /\ matches (lit ".O.") w).
Proof.
  assert (ReadFromFile Library0 [lit "COT"; lit "CAT"; lit "COT"; lit "DOG"] 3 = Ok lib_COT)
    as Hload by (vm_compute; reflexivity).
  split; [exact Hload|].
  apply (FindWord_is_pattern_matching _ 3 lib_COT (lit ".O.") Hload).
  simpl. lia.
Defined.

Lemma ReadFromFile_app (lines1 lines2 : list str) (nMaxSize : Z) (lib : Library) :
  ReadFromFile lib (lines1 ++ lines2) nMaxSize =
  do lib1 <- ReadFromFile lib lines1 nMaxSize; ReadFromFile lib1 lines2 nMaxSize.
Proof.
  revert lib. induction lines1 as [|line rest IH]; intros lib; cbn [ReadFromFile app]; [reflexivity|].
  destruct line as [|c line]; [apply IH|].
  destruct (Z.of_nat (length (strip_last (ToUpper (c :: line)))) <=? to_size_t nMaxSize);
    [|apply IH].
  destruct (CreatePatternHash (m_umapWords lib) (strip_last (ToUpper (c :: line))));
    simpl; [apply IH|reflexivity|reflexivity].
Qed.

(** X11: loading is incremental. Reading one list of lines after another
    into the same library gives the library that reading their
    concatenation gives; the words of the second list come after those of
    the first in the master list, and the words already loaded stay words
    and stay in the buckets where they were. *)
Theorem ReadFromFile_continues (lines1 lines2 : list str) (nMaxSize : Z)
  (lib1 lib2 : Library) :
  ReadFromFile Library0 lines1 nMaxSize = Ok lib1 ->
  ReadFromFile lib1 lines2 nMaxSize = Ok lib2 ->
  ReadFromFile Library0 (lines1 ++ lines2) nMaxSize = Ok lib2 /\
  (exists added, m_vecWords lib2 = m_vecWords lib1 ++ added) /\
  (forall s, IsWord lib1 s = true -> IsWord lib2 s = true) /\
  (forall p ws w, FindWord lib1 p = Some ws -> w ∈ ws ->
     exists ws', FindWord lib2 p = Some ws' /\ w ∈ ws').
Proof.
  intros H1 H2.
  assert (ReadFromFile Library0 (lines1 ++ lines2) nMaxSize = Ok lib2) as H12
    by (rewrite ReadFromFile_app, H1; exact H2).
  assert (lib_inv lib1) as I1 by (eapply ReadFromFile_inv; [apply lib_inv_empty|exact H1]).
  assert (lib_inv lib2) as I2 by (eapply ReadFromFile_inv; [apply lib_inv_empty|exact H12]).
  pose proof (ReadFromFile_words _ _ _ _ H2) as Hw.
  split; [exact H12|]. split; [eauto|]. split.
  - intros s. unfold IsWord.
    destruct (m_umapWords lib1 !! s) as [ws|] eqn:E; [intros _|discriminate].
    assert (is_Some (m_umapWords lib1 !! s)) as Hk by (rewrite E; eauto).
    apply (inv_keys _ I1) in Hk. destruct Hk as (w & Hin & Hi & Hm).
    destruct (lib_inv_find lib2 w s I2) as (ws' & -> & _);
      [|exact Hi|exact Hm|reflexivity].
    rewrite Hw. apply elem_of_app. left. exact Hin.
  - intros p ws w Hf Hin. destruct (found_is_mask lib1 p ws w I1 Hf Hin) as [Hin1 Hm].
    pose proof (found_indexable lib1 p ws w I1 Hf Hin) as Hi.
    unfold FindWord. apply lib_inv_find; [exact I2| |exact Hi|exact Hm].
    rewrite Hw. apply elem_of_app. left. exact Hin1.
Qed.

Lemma ReadFromFile_continues_witness :
  ReadFromFile Library0 ([lit "CAT"] ++ [lit "DOG"]) 3 = Ok lib_CAT_DOG /\
  (exists added, m_vecWords lib_CAT_DOG = m_vecWords lib_CAT ++ added) /\
  (forall s, IsWord lib_CAT s = true -> IsWord lib_CAT_DOG s = true) /\
  (forall p ws w, FindWord lib_CAT p = Some ws -> w ∈ ws ->
     exists ws', FindWord lib_CAT_DOG p = Some ws' /\ w ∈ ws').
Proof.
  apply (ReadFromFile_continues [lit "CAT"] [lit "DOG"] 3 lib_CAT lib_CAT_DOG).
  - vm_compute. reflexivity.
  - vm_compute. reflexivity.
Defined.

Lemma push_bucket_same (m : gmap str (list Word)) (p : str) (w : Word) :
  bucket (push_bucket m p w) p = bucket m p ++ [w].
Proof. unfold bucket, push_bucket. rewrite lookup_insert_eq. reflexivity. Qed.

Lemma push_bucket_other (m : gmap str (list Word)) (k p : str) (w : Word) :
  k <> p -> bucket (push_bucket m k w) p = bucket m p.
Proof. intros H. unfold bucket, push_bucket. rewrite lookup_insert_ne by exact H. reflexivity. Qed.

Lemma push_all_absent (keys : list str) (w : Word) (m : gmap str (list Word)) (p : str) :
  p ∉ keys -> bucket (fold_left (fun m' k => push_bucket m' k w) keys m) p = bucket m p.
Proof.
  revert m. induction keys as [|k keys IH]; intros m Hp; simpl; [reflexivity|].
  rewrite IH by (intros H; apply Hp; right; exact H).
  apply push_bucket_other. intros ->. apply Hp. left.
Qed.

Lemma push_all_once (keys : list str) (w : Word) (m : gmap str (list Word)) (p : str) :
  NoDup keys -> p ∈ keys ->
  bucket (fold_left (fun m' k => push_bucket m' k w) keys m) p = bucket m p ++ [w].
Proof.
  revert m. induction keys as [|k keys IH]; intros m Hnd Hp; [inversion Hp|].
  apply NoDup_cons in Hnd as [Hk Hnd]. simpl.
  destruct (decide (k = p)) as [->|Hne].
  - rewrite push_all_absent by exact Hk. apply push_bucket_same.
  - apply elem_of_cons in Hp as [->|Hp]; [congruence|].
    rewrite IH by assumption. rewrite push_bucket_other by exact Hne. reflexivity.
Qed.

Lemma small_bits (i L n : Z) : 0 <= i < 2 ^ L -> L <= n -> Z.testbit i n = false.
Proof.
  intros Hi Hn. destruct (decide (i = 0)) as [->|Hz]; [apply Z.bits_0|].
  apply Z.bits_above_log2; [lia|].
  assert (Z.log2 i < L); [|lia]. apply Z.log2_lt_pow2; lia.
Qed.

Lemma mask_word_inj (w : Word) (i i' : Z) :
  ch_blank ∉ w ->
  0 <= i < 2 ^ Z.of_nat (length w) -> 0 <= i' < 2 ^ Z.of_nat (length w) ->
  mask_word w i = mask_word w i' -> i = i'.
Proof.
  intros Hw Hi Hi' E. apply Z.bits_inj'. intros n Hn.
  destruct (decide (n < Z.of_nat (length w))) as [Hlt|Hge].
  - destruct (lookup_lt_is_Some_2 w (Z.to_nat n)) as [c Hc]; [lia|].
    pose proof (mask_word_lookup w i _ _ Hc) as H1.
    pose proof (mask_word_lookup w i' _ _ Hc) as H2.
    rewrite E, H2 in H1. rewrite Z2Nat.id in H1 by lia. injection H1 as H1.
    assert (c <> ch_blank) as Hcb.
    { intros ->. apply Hw. eapply list_elem_of_lookup_2. exact Hc. }
    destruct (Z.testbit i n), (Z.testbit i' n); congruence.
  - rewrite (small_bits i (Z.of_nat (length w)) n), (small_bits i' (Z.of_nat (length w)) n);
      [reflexivity|lia|lia|lia|lia].
Qed.

Lemma mask_keys_NoDup (w : Word) :
  ch_blank ∉ w -> NoDup (map (mask_word w) (seqZ 0 (pow2_int (Z.of_nat (length w))))).
Proof.
  intros Hw. destruct (decide (indexable w)) as [Hi|Hi].
  - rewrite (pow2_int_indexable w Hi).
    change (NoDup (mask_word w <$> seqZ 0 (2 ^ Z.of_nat (length w)))).
    apply NoDup_fmap_2_strong; [|apply NoDup_seqZ].
    intros i i' Hi1 Hi2 E. apply elem_of_seqZ in Hi1, Hi2.
    apply (mask_word_inj w); [exact Hw|lia|lia|exact E].
  - rewrite (pow2_int_long w Hi). constructor.
Qed.

Lemma ordered_buckets_add (lib : Library) (word : Word) (m' : gmap str (list Word)) :
  ordered_buckets lib -> ch_blank ∉ word ->
  CreatePatternHash (m_umapWords lib) word = Ok m' ->
  ordered_buckets (mkLibrary (m_vecWords lib ++ [word]) m').
Proof.
  intros Hord Hw Hc p. simpl. rewrite filter_app, <- Hord.
  rewrite (CreatePatternHash_fold _ _ _ Hc).
  rewrite filter_cons, filter_nil.
  destruct (decide (matches p word /\ indexable word)) as [[Hm Hi]|Hm].
  - apply push_all_once; [apply mask_keys_NoDup; exact Hw|].
    apply elem_of_mask_keys. split; [exact Hi|]. apply is_mask_of_matches. exact Hm.
  - rewrite app_nil_r. apply push_all_absent. intros Hin. apply Hm.
    apply elem_of_mask_keys in Hin. destruct Hin as [Hi Hin].
    split; [|exact Hi]. apply is_mask_of_matches. exact Hin.
Qed.

Lemma ReadFromFile_ordered (lines : list str) (nMaxSize : Z) (lib lib' : Library) :
  ordered_buckets lib -> ReadFromFile lib lines nMaxSize = Ok lib' ->
  (forall w, w ∈ m_vecWords lib' -> ch_blank ∉ w) -> ordered_buckets lib'.
Proof.
  revert lib. induction lines as [|line rest IH]; intros lib Hord Hload Hw; cbn [ReadFromFile] in Hload.
  - injection Hload as <-. exact Hord.
  - destruct line as [|c line]; [eapply IH; eassumption|].
    destruct (Z.of_nat (length (strip_last (ToUpper (c :: line)))) <=? to_size_t nMaxSize);
      [|eapply IH; eassumption].
    destruct (CreatePatternHash (m_umapWords lib) (strip_last (ToUpper (c :: line))))
      as [m'| |] eqn:Hc; simpl in Hload; try discriminate.
    eapply IH; [|exact Hload|exact Hw].
    apply ordered_buckets_add; [exact Hord| |exact Hc].
    apply Hw. rewrite (ReadFromFile_words _ _ _ _ Hload). simpl.
    apply elem_of_app. left. apply elem_of_app. right. left.
Qed.

(** X12: the candidates of a pattern come in dictionary order. When no
    loaded word contains the wildcard character, the list [FindWord]
    returns for a pattern of at most 30 characters is the master list
    filtered by the pattern: the matching words in the order of the file, a
    word listed twice in the file twice in the list. *)
Theorem candidates_come_in_file_order (lines : list str) (nMaxSize : Z) (lib : Library)
  (p : str) :
  ReadFromFile Library0 lines nMaxSize = Ok lib ->
  (forall w, w ∈ m_vecWords lib -> ch_blank ∉ w) ->
  Z.of_nat (length p) <= 30 ->
  bucket (m_umapWords lib) p = filter (matches p) (m_vecWords lib) /\
  (forall ws, FindWord lib p = Some ws -> ws = filter (matches p) (m_vecWords lib)).
Proof.
  intros Hload Hw Hp.
  assert (ordered_buckets lib) as Hord.
  { eapply ReadFromFile_ordered; [|exact Hload|exact Hw]. intros q. reflexivity. }
  assert (bucket (m_umapWords lib) p = filter (matches p) (m_vecWords lib)) as Hb.
  { rewrite Hord. apply list_filter_iff. intros w. split; [tauto|].
    intros Hm. split; [exact Hm|]. apply (matches_indexable p w Hp Hm). }
  split; [exact Hb|]. intros ws Hf. rewrite <- Hb. unfold bucket, FindWord in *.
  rewrite Hf. reflexivity.
Qed.

Lemma candidates_come_in_file_order_witness :
  bucket (m_umapWords lib_COT) (lit "C.T") =
    filter (matches (lit "C.T")) (m_vecWords lib_COT) /\
  m_vecWords lib_COT = [lit "COT"; lit "CAT"; lit "COT"; lit "DOG"] /\
  bucket (m_umapWords lib_COT) (lit "C.T") = [lit "COT"; lit "CAT"; lit "COT"].
Proof.
  assert (m_vecWords lib_COT = [lit "COT"; lit "CAT"; lit "COT"; lit "DOG"]) as E
    by (vm_compute; reflexivity).
  split; [|split; [exact E|vm_compute; reflexivity]].
  refine (proj1 (candidates_come_in_file_order
                   [lit "COT"; lit "CAT"; lit "COT"; lit "DOG"] 3 lib_COT (lit "C.T") _ _ _)).
  - vm_compute. reflexivity.
  - intros w Hw Hin. rewrite E in Hw. apply list_elem_of_In in Hw, Hin.
    simpl in Hw. destruct Hw as [<-|[<-|[<-|[<-|[]]]]]; vm_compute in Hin;
      intuition discriminate.
  - simpl. lia.
Defined.

Lemma toupper_alpha (c : ascii) : is_alpha c = true -> is_upper (toupper c) = true.
Proof.
  intros H. destruct (toupper_spec c) as [H1 H2]. unfold is_alpha in H. unfold is_upper.
  destruct (decide (97 <= code c <= 122)) as [Hl|Hl].
  - rewrite (H1 Hl). lia.
  - rewrite (H2 Hl). lia.
Qed.

Lemma trailer_code (c : ascii) :
  is_trailer c = true -> code c = 13 \/ code c = 32 \/ code c = 9.
Proof.
  unfold is_trailer, ch_eqb.
  change (code "013"%char) with 13. change (code " "%char) with 32.
  change (code "009"%char) with 9. lia.
Qed.

Lemma toupper_trailer (c : ascii) : is_trailer c = true -> toupper c = c.
Proof.
  intros H. apply trailer_code in H. apply (toupper_spec c). lia.
Qed.

Lemma upper_not_trailer (c : ascii) : is_upper c = true -> is_trailer c = false.
Proof.
  intros H. destruct (is_trailer c) eqn:E; [|reflexivity].
  apply trailer_code in E. unfold is_upper in H. lia.
Qed.

Lemma normalise_letters_line (body tail : str) :
  Forall (fun c => is_alpha c = true) body ->
  tail = [] \/ (exists c, tail = [c] /\ is_trailer c = true) ->
  normalise (body ++ tail) = map toupper body.
Proof.
  intros Hb Ht. unfold normalise. rewrite ToUpper_map.
  destruct Ht as [->|(c & -> & Hc)].
  - rewrite app_nil_r. destruct body as [|b body] using rev_ind; [reflexivity|].
    rewrite map_app. simpl. rewrite strip_last_snoc.
    rewrite upper_not_trailer; [reflexivity|].
    apply toupper_alpha. apply Forall_app in Hb as [_ Hb]. inversion Hb; assumption.
  - rewrite map_app. simpl. rewrite strip_last_snoc, (toupper_trailer c Hc), Hc. reflexivity.
Qed.

(** X13: a word file of letters loads clean words. When every line is made
    of ASCII letters of either case, alone or followed by one carriage
    return, space or tab, every loaded word is made of upper-case letters
    only: the upper-cased letters of its line, with neither the wildcard
    nor the block character. The letters of the line are all of it, or all
    of it but a last carriage return, space or tab. *)
Theorem letters_file_gives_letter_words (lines : list str) (nMaxSize : Z) (lib : Library) :
  (forall line, line ∈ lines -> letters_line line) ->
  ReadFromFile Library0 lines nMaxSize = Ok lib ->
  forall w, w ∈ m_vecWords lib ->
    all_letters w /\ (ch_blank ∉ w) /\ (ch_block ∉ w) /\
    exists line body tail,
      line ∈ lines /\ line = body ++ tail /\
      Forall (fun c => is_alpha c = true) body /\
      (tail = [] \/ exists c, tail = [c] /\ is_trailer c = true) /\
      w = map toupper body.
Proof.
  intros Hlines Hload w Hw.
  rewrite (ReadFromFile_words _ _ _ _ Hload) in Hw. simpl in Hw.
  apply list_elem_of_In, in_map_iff in Hw. destruct Hw as (line & <- & Hin).
  apply list_elem_of_In, list_elem_of_filter in Hin. destruct Hin as [_ Hin].
  destruct (Hlines line Hin) as (body & tail & -> & Hb & Ht).
  rewrite (normalise_letters_line body tail Hb Ht).
  assert (all_letters (map toupper body)) as Hall.
  { unfold all_letters. apply Forall_forall. intros c Hc.
    change (c ∈ toupper <$> body) in Hc. apply list_elem_of_fmap in Hc.
    destruct Hc as (b & -> & Hb'). apply toupper_alpha.
    rewrite Forall_forall in Hb. apply Hb. exact Hb'. }
  split; [exact Hall|]. split; [|split].
  - intros H. unfold all_letters in Hall. rewrite Forall_forall in Hall.
    apply Hall in H. vm_compute in H. discriminate.
  - intros H. unfold all_letters in Hall. rewrite Forall_forall in Hall.
    apply Hall in H. vm_compute in H. discriminate.
  - exists (body ++ tail), body, tail.
    split; [exact Hin|]. split; [reflexivity|]. split; [exact Hb|].
    split; [exact Ht|reflexivity].
Qed.

Lemma letters_file_gives_letter_words_witness : all_letters (lit "CAT").
Proof.
  apply (letters_file_gives_letter_words [lit "cat" ++ ["013"%char]] 3 lib_CAT).
  - intros line Hl. apply list_elem_of_singleton in Hl. subst line.
    exists (lit "cat"), ["013"%char]. split; [reflexivity|]. split.
    + unfold lit. simpl. repeat constructor.
    + right. exists "013"%char. split; reflexivity.
  - vm_compute. reflexivity.
  - assert (m_vecWords lib_CAT = [lit "CAT"]) as E by (vm_compute; reflexivity).
    rewrite E. left.
Defined.

Lemma count_len_cons (k : nat) (w : Word) (words : list Word) :
  count_len k (w :: words) = (if decide (length w = k) then 1 else 0) + count_len k words.
Proof.
  unfold count_len. rewrite filter_cons. destruct (decide (length w = k)); simpl; lia.
Qed.

Lemma ComputeStats_loop_spec (words : list Word) (counts : list Z) :
  length counts = 18%nat ->
  length (ComputeStats_loop words counts) = 18%nat /\
  forall k c, counts !! k = Some c ->
    ComputeStats_loop words counts !! k = Some (c + count_len k words).
Proof.
  revert counts. induction words as [|w words IH]; intros counts Hlen.
  - split; [exact Hlen|]. intros k c Hk. simpl. unfold count_len. simpl.
    rewrite Z.add_0_r. exact Hk.
  - simpl. destruct (Z.of_nat (length w) <? 18) eqn:Hw.
    + rewrite Nat2Z.id.
      destruct (IH (alter Z.succ (length w) counts)) as [H1 H2];
        [rewrite length_alter; exact Hlen|].
      split; [exact H1|]. intros k c Hk.
      rewrite count_len_cons. destruct (decide (length w = k)) as [<-|Hne].
      * rewrite (H2 (length w) (Z.succ c)); [f_equal; lia|].
        rewrite list_lookup_alter, decide_True by reflexivity. rewrite Hk. reflexivity.
      * rewrite (H2 k c); [f_equal; lia|].
        rewrite list_lookup_alter, decide_False by exact Hne. exact Hk.
    + destruct (IH counts Hlen) as [H1 H2]. split; [exact H1|].
      intros k c Hk. rewrite count_len_cons.
      pose proof (lookup_lt_Some _ _ _ Hk) as Hlt.
      destruct (decide (length w = k)) as [E|_]; [lia|].
      rewrite (H2 k c Hk). f_equal.
Qed.

(** X14: [ComputeStats] builds the histogram of word lengths. Called on a
    library whose count vector is empty it leaves 18 counters, and counter
    [k] is the number of words of the master list of length [k] (words of
    18 characters or more are counted nowhere); called when the vector is
    not empty, a second time for instance, it fails its assertion. *)
Theorem ComputeStats_is_length_histogram (lib : Library) (m_vecCounts : list Z) :
  (m_vecCounts <> [] -> ComputeStats lib m_vecCounts = Abort) /\
  exists counts, ComputeStats lib [] = Ok counts /\ length counts = 18%nat /\
    (forall k, (k < 18)%nat -> counts !! k = Some (count_len k (m_vecWords lib))) /\
    (forall counts', ComputeStats lib counts = Ok counts' -> False).
Proof.
  split.
  - intros H. destruct m_vecCounts; [congruence|reflexivity].
  - exists (ComputeStats_loop (m_vecWords lib) (replicate 18 0)).
    destruct (ComputeStats_loop_spec (m_vecWords lib) (replicate 18 0)) as [H1 H2];
      [reflexivity|].
    split; [reflexivity|]. split; [exact H1|]. split.
    + intros k Hk. rewrite (H2 k 0); [f_equal|].
      apply lookup_replicate. split; [reflexivity|exact Hk].
    + intros counts'.
      destruct (ComputeStats_loop (m_vecWords lib) (replicate 18 0)); [discriminate H1|].
      discriminate.
Qed.

(** X15: [GetWord] is safe exactly inside the master list. With an index
    from 0 to the number of loaded words (excluded) it returns the word at
    that position; when that word has at most 30 characters, [IsWord]
    accepts it and [FindWord] lists it under its own text. With any other
    index [GetWord] fails its assertion. *)
Theorem GetWord_returns_a_loaded_word (lines : list str) (nMaxSize : Z) (lib : Library)
  (i : Z) :
  ReadFromFile Library0 lines nMaxSize = Ok lib ->
  (0 <= i < Z.of_nat (length (m_vecWords lib)) ->
   exists w, GetWord lib i = Ok w /\ m_vecWords lib !! Z.to_nat i = Some w /\
     (Z.of_nat (length w) <= 30 ->
      IsWord lib w = true /\ exists ws, FindWord lib w = Some ws /\ w ∈ ws)) /\
  (~ 0 <= i < Z.of_nat (length (m_vecWords lib)) -> GetWord lib i = Abort).
Proof.
  intros Hload.
  assert (lib_inv lib) as Hinv by (eapply ReadFromFile_inv; [apply lib_inv_empty|exact Hload]).
  unfold GetWord. split.
  - intros Hi. destruct (lookup_lt_is_Some_2 (m_vecWords lib) (Z.to_nat i)) as [w Hw]; [lia|].
    exists w. replace ((0 <=? i) && (i <? Z.of_nat (length (m_vecWords lib)))) with true by lia.
    simpl. rewrite Hw. split; [reflexivity|]. split; [reflexivity|]. intros Hlen.
    destruct (lib_inv_find lib w w Hinv) as (ws & E & Hin);
      [eapply list_elem_of_lookup_2; exact Hw|unfold indexable; lia|apply self_mask|].
    unfold IsWord, FindWord. rewrite E. eauto.
  - intros Hi. replace ((0 <=? i) && (i <? Z.of_nat (length (m_vecWords lib)))) with false by lia.
    reflexivity.
Qed.

Lemma GetWord_returns_a_loaded_word_witness :
  exists w, GetWord lib_CAT 0 = Ok w /\ m_vecWords lib_CAT !! Z.to_nat 0 = Some w /\
    (Z.of_nat (length w) <= 30 ->
     IsWord lib_CAT w = true /\ exists ws, FindWord lib_CAT w = Some ws /\ w ∈ ws).
Proof.
  apply (GetWord_returns_a_loaded_word [lit "CAT"] 3 lib_CAT 0).
  - vm_compute. reflexivity.
  - assert (m_vecWords lib_CAT = [lit "CAT"]) as E by (vm_compute; reflexivity).
    rewrite E. simpl. lia.
Defined.

(** * Further properties of the engine *)

Lemma GetString_total (g : Grid) (sp : Span) :
  rect g -> 0 <= nLen sp ->
  (forall i, 0 <= i < nLen sp -> IsInBounds g (pt sp i) = true) ->
  exists r, GetString g sp attr0 = Ok r.
Proof.
  intros Hr Hn H. unfold GetString.
  replace (0 <=? nLen sp) with true by lia. simpl.
  apply GetString_loop_total; [exact Hr|].
  intros i Hi. apply elem_of_seqZ in Hi. split; [lia|]. apply H. lia.
Qed.

Lemma SetString_total (g : Grid) (sp : Span) (w : str) :
  rect g -> nLen sp = Z.of_nat (length w) ->
  (forall i, 0 <= i < nLen sp -> IsInBounds g (pt sp i) = true) ->
  exists g', SetString g sp w = Ok g'.
Proof.
  intros Hr Hn H. rewrite SetString_unfold.
  replace (nLen sp =? Z.of_nat (length w)) with true by lia.
  apply SetString_loop_total. intros i Hi. apply elem_of_seqZ in Hi.
  split; [lia|]. split.
  - rewrite rect_writable by exact Hr. apply H. lia.
  - apply lookup_lt_is_Some. lia.
Qed.

Lemma read_all_total (g : Grid) (spans : list Span) :
  (forall sp, sp ∈ spans -> exists r, GetString g sp attr0 = Ok r) ->
  exists rs, read_all g spans = Ok rs.
Proof.
  induction spans as [|sp spans IH]; intros H; simpl; [eauto|].
  destruct (H sp) as [r Hr]; [left|]. rewrite Hr. simpl.
  destruct IH as [rs Hrs]; [intros sp' Hsp'; apply H; right; exact Hsp'|].
  rewrite Hrs. simpl. eauto.
Qed.

Lemma PrintSpans_loop_total (g : Grid) (spans : list Span) :
  (forall sp, sp ∈ spans -> exists r, GetString g sp attr0 = Ok r) ->
  PrintSpans_loop g spans = Ok tt.
Proof.
  induction spans as [|sp spans IH]; intros H; simpl; [reflexivity|].
  destruct (H sp) as [r Hr]; [left|]. rewrite Hr. simpl.
  apply IH. intros sp' Hsp'. apply H. right. exact Hsp'.
Qed.

Lemma CheckSize_loop_no_fuel (c : Z) (ls : list str) : CheckSize_loop c ls <> OutOfFuel.
Proof.
  induction ls as [|s ls IH]; simpl; [discriminate|].
  destruct (Z.of_nat (length s) =? c); simpl; [exact IH|discriminate].
Qed.

Lemma maximal_run_reads (g : Grid) (sp : Span) :
  rect g -> maximal_run g sp -> exists r, GetString g sp attr0 = Ok r.
Proof.
  intros Hr (Hn & Hcells & _). apply GetString_total; [exact Hr|lia|].
  intros i Hi. apply (Hcells i Hi).
Qed.

(** X16: when [Init] fails. On a grid file whose kept lines all have the
    length of the first and whose larger dimension is at most 30, [Init]
    succeeds whatever the word file holds: the span scan ends, every span
    can be read back, and every word that passes the length filter can be
    indexed. On a grid file whose kept lines have different lengths it
    fails the assertion of [CheckSize], before any word is read. *)
Theorem Init_fails_only_on_ragged_grid (gridLines libLines : list str) :
  (rect (LoadFromFile Grid0 gridLines) ->
   MaxSize (LoadFromFile Grid0 gridLines) <= 30 ->
   exists e, Init gridLines libLines = Ok e) /\
  (~ rect (LoadFromFile Grid0 gridLines) -> Init gridLines libLines = Abort).
Proof.
  split.
  - intros Hr Hmax. unfold Init. cbv zeta.
    rewrite (proj2 (CheckSize_spec _) Hr). cbn [res_bind].
    destruct (FillSpans_spec (LoadFromFile Grid0 gridLines) Hr eq_refl)
      as (hs & vs & E & Hg1 & _ & _ & Hg2 & _ & _).
    rewrite E. cbn [res_bind].
    assert (PrintSpans (set_spans (LoadFromFile Grid0 gridLines) (hs ++ vs)) = Ok tt) as HP.
    { apply PrintSpans_loop_total. intros sp Hsp.
      apply maximal_run_reads; [exact Hr|].
      change (sp ∈ hs ++ vs) in Hsp. apply elem_of_app in Hsp.
      rewrite Forall_forall in Hg1, Hg2.
      destruct Hsp as [Hsp|Hsp]; [apply Hg1 in Hsp|apply Hg2 in Hsp];
        apply (good_span_maximal _ _ _ Hr) in Hsp; apply Hsp. }
    rewrite HP. cbn [res_bind].
    destruct (ReadFromFile_returns libLines
                (MaxSize (set_spans (LoadFromFile Grid0 gridLines) (hs ++ vs))) Library0)
      as [lib Hlib].
    rewrite Hlib. cbn [res_bind]. eauto.
  - intros Hr. unfold Init. cbv zeta.
    pose proof (CheckSize_spec (LoadFromFile Grid0 gridLines)) as Hs.
    pose proof (CheckSize_loop_no_fuel (cols (LoadFromFile Grid0 gridLines))
                  (vecLines (LoadFromFile Grid0 gridLines))) as Hf.
    fold (CheckSize (LoadFromFile Grid0 gridLines)) in Hf.
    destruct (CheckSize (LoadFromFile Grid0 gridLines)) as [[]| |]; cbn [res_bind].
    + exfalso. apply Hr. apply Hs. reflexivity.
    + reflexivity.
    + congruence.
Qed.

Lemma Init_fails_only_on_ragged_grid_witness :
  exists e, Init [lit "A."; lit ".B"] [lit "AB"] = Ok e.
Proof.
  apply (Init_fails_only_on_ragged_grid [lit "A."; lit ".B"] [lit "AB"]).
  - unfold rect. repeat constructor.
  - vm_compute. discriminate.
Defined.

Lemma no_dups_exact (vF : list Slot) (set : gset str) :
  no_dups vF set =
  Ok (bool_decide (NoDup (map sPattern vF) /\
                   Forall (fun s => s ∉ set) (map sPattern vF))).
Proof.
  revert set. induction vF as [|w vF IH]; intros set; cbn [no_dups map].
  - rewrite bool_decide_eq_true_2; [reflexivity|]. split; constructor.
  - unfold ExistsInSet. destruct (bool_decide (sPattern w ∈ set)) eqn:E.
    + apply bool_decide_eq_true in E. rewrite bool_decide_eq_false_2; [reflexivity|].
      intros [_ H]. inversion H; subst. contradiction.
    + apply bool_decide_eq_false in E. unfold AddToSet, ExistsInSet.
      rewrite bool_decide_eq_false_2 by exact E. cbn [negb assert res_bind].
      rewrite IH. f_equal.
      apply bool_decide_ext. rewrite NoDup_cons, Forall_cons, !Forall_forall. split.
      * intros [Hnd H]. split; [split; [|exact Hnd]|split; [exact E|]].
        -- intros Hin. apply (H _ Hin). apply elem_of_union. left.
           apply elem_of_singleton. reflexivity.
        -- intros x Hx Hs. apply (H _ Hx). apply elem_of_union. right. exact Hs.
      * intros [[Hw Hnd] [_ H]]. split; [exact Hnd|].
        intros x Hx Hs. apply elem_of_union in Hs. destruct Hs as [Hs|Hs].
        -- apply elem_of_singleton in Hs. subst x. contradiction.
        -- apply (H _ Hx Hs).
Qed.

(** X17: the duplicate check of [Loop] is exact and cannot fail. Started
    from any set, the loop over the full slots answers true exactly when
    their strings are pairwise distinct and none is in the set; since
    [ExistsInSet] is tested before every [AddToSet], the assertion of
    [AddToSet] never fails there. From the empty set, as in [Loop], the
    answer is whether the strings are pairwise distinct. On its own,
    [AddToSet] fails exactly on a string the set already holds. *)
Theorem duplicate_check_is_exact (vF : list Slot) (set : gset str) (s : str) :
  no_dups vF set =
    Ok (bool_decide (NoDup (map sPattern vF) /\
                     Forall (fun x => x ∉ set) (map sPattern vF))) /\
  no_dups vF ∅ = Ok (bool_decide (NoDup (map sPattern vF))) /\
  (AddToSet set s = Abort <-> s ∈ set) /\
  (forall set', AddToSet set s = Ok set' ->
     forall x, ExistsInSet set' x = true <-> x = s \/ ExistsInSet set x = true).
Proof.
  split; [apply no_dups_exact|]. split; [|split].
  - rewrite no_dups_exact. f_equal. apply bool_decide_ext. split; [tauto|].
    intros H. split; [exact H|]. apply Forall_forall. intros x _ Hx.
    apply elem_of_empty in Hx. exact Hx.
  - unfold AddToSet, ExistsInSet. destruct (bool_decide (s ∈ set)) eqn:E; simpl.
    + apply bool_decide_eq_true in E. tauto.
    + apply bool_decide_eq_false in E. split; [discriminate|contradiction].
  - intros set'. unfold AddToSet, ExistsInSet.
    destruct (bool_decide (s ∈ set)); simpl; [discriminate|]. intros [= <-] x.
    rewrite !bool_decide_eq_true, elem_of_union, elem_of_singleton. tauto.
Qed.

Lemma full_not_other (a : Attribute) :
  IsFull a = true -> IsEmpty a = false /\ IsPartial a = false.
Proof. destruct a as [[] []]; simpl; intros H; try discriminate; auto. Qed.

Lemma read_all_full (g : Grid) (spans : list Span) (strs : list str) :
  Forall2 (fun sp s => GetString g sp attr0 = Ok (s, attr_of s) /\
                       IsFull (attr_of s) = true) spans strs ->
  exists rs, read_all g spans = Ok rs /\
    pick IsEmpty rs = [] /\ pick IsPartial rs = [] /\
    map sPattern (pick IsFull rs) = strs.
Proof.
  intros H. induction H as [|sp s spans strs [Hget Hfull] H IH]; simpl.
  - exists []. auto.
  - destruct IH as (rs & Hrs & HE & HP & HF). rewrite Hget, Hrs. simpl.
    exists ((mkSlot sp s, attr_of s) :: rs). split; [reflexivity|].
    destruct (full_not_other _ Hfull) as [H1 H2].
    rewrite !pick_cons. simpl. rewrite H1, H2, Hfull, HE, HP. simpl. rewrite HF. auto.
Qed.

(** X18: on a grid with every span filled, the search is a checker. When
    every span reads as a full string, [Loop] makes no commit and no
    recursive call: it prints the grid, once, when every string is a key of
    the dictionary and the strings are pairwise distinct, prints nothing
    otherwise, and returns normally in both cases. *)
Theorem filled_grid_is_checked (lib : Library) (g : Grid) (strs : list str)
  (fuel : nat) (d : Z) :
  Forall2 (fun sp s => GetString g sp attr0 = Ok (s, attr_of s) /\
                       IsFull (attr_of s) = true) (vecSpans g) strs ->
  Loop (S fuel) lib g d =
  (if bool_decide (Forall (fun s => IsWord lib s = true) strs /\ NoDup strs)
   then [g] else [], Ok tt).
Proof.
  intros H. destruct (read_all_full _ _ _ H) as (rs & Hrs & HE & HP & HF).
  rewrite Loop_restore_eq. cbn [Loop_restore]. rewrite classify_read_all, Hrs.
  cbn [res_bind]. rewrite bindM_lift_ok. cbn [fst snd app].
  rewrite HE, HP. cbn [length Z.of_nat Z.eqb andb].
  destruct (all_words lib (pick IsFull rs)) eqn:Hw; cbn [negb].
  - apply all_words_spec in Hw.
    assert (Forall (fun s => IsWord lib s = true) strs) as Hw'.
    { rewrite <- HF. apply Forall_forall. intros s Hs.
      change (s ∈ sPattern <$> pick IsFull rs) in Hs. apply list_elem_of_fmap in Hs.
      destruct Hs as (slot & -> & Hslot). rewrite Forall_forall in Hw. apply Hw. exact Hslot. }
    rewrite no_dups_exact, bindM_lift_ok, HF.
    destruct (bool_decide (NoDup strs /\ Forall (fun s => s ∉ (∅ : gset str)) strs)) eqn:Hd;
      cbn [negb].
    + apply bool_decide_eq_true in Hd. rewrite bool_decide_eq_true_2 by tauto. reflexivity.
    + apply bool_decide_eq_false in Hd. rewrite bool_decide_eq_false_2; [reflexivity|].
      intros [_ Hnd]. apply Hd. split; [exact Hnd|].
      apply Forall_forall. intros x _ Hx. apply elem_of_empty in Hx. exact Hx.
  - rewrite bool_decide_eq_false_2; [reflexivity|]. intros [Hall _].
    assert (all_words lib (pick IsFull rs) = true); [|congruence].
    apply all_words_spec. apply Forall_forall. intros slot Hslot.
    rewrite Forall_forall in Hall. apply Hall. rewrite <- HF.
    change (sPattern slot ∈ sPattern <$> pick IsFull rs). apply list_elem_of_fmap. eauto.
Qed.

Lemma filled_grid_is_checked_witness :
  Loop 1 lib_CAT grid_AB 0 =
  (if bool_decide (Forall (fun s => IsWord lib_CAT s = true) [lit "AB"] /\ NoDup [lit "AB"])
   then [grid_AB] else [], Ok tt).
Proof.
  apply (filled_grid_is_checked lib_CAT grid_AB [lit "AB"] 0 0).
  constructor; [|constructor]. split; vm_compute; reflexivity.
Defined.

Lemma snd_bindM_abort {A B : Type} (m : M A) (f : A -> M B) :
  snd (bindM m f) = Abort ->
  snd m = Abort \/ exists a, snd m = Ok a /\ snd (f a) = Abort.
Proof.
  unfold bindM. destruct m as [out [a| |]]; simpl; try discriminate; eauto.
Qed.

Lemma rect_shape (g g' : Grid) : shape g' = shape g -> rect g -> rect g'.
Proof.
  intros Hs Hr. unfold rect in *. rewrite Forall_forall in *.
  intros l Hl. rewrite (cols_shape g'), Hs, <- (cols_shape g).
  apply list_elem_of_lookup in Hl. destruct Hl as [i Hi].
  assert (shape g' !! i = Some (length l)) as H1
    by (unfold shape; rewrite list_lookup_fmap, Hi; reflexivity).
  rewrite Hs in H1. unfold shape in H1. rewrite list_lookup_fmap in H1.
  destruct (vecLines g !! i) as [l0|] eqn:E; [|discriminate]. simpl in H1.
  injection H1 as H1. rewrite <- H1. apply Hr. eapply list_elem_of_lookup_2. exact E.
Qed.

Lemma no_blank_mask (s : str) (w : Word) : ch_blank ∉ s -> is_mask_of s w -> s = w.
Proof.
  intros Hs Hm. apply is_mask_of_matches in Hm. unfold matches in Hm.
  induction Hm as [|c x s w [Hc|Hc] Hm IH].
  - reflexivity.
  - exfalso. apply Hs. subst c. left.
  - subst c. f_equal. apply IH. intros H. apply Hs. right. exact H.
Qed.

Lemma candidate_fits (lib : Library) (g : Grid) (sp : Span) (s : str) (a : Attribute)
  (ws : list Word) (w : Word) :
  lib_inv lib -> rect g -> GetString g sp attr0 = Ok (s, a) ->
  FindWord lib s = Some ws -> w ∈ ws ->
  exists g', SetString g sp w = Ok g'.
Proof.
  intros Hinv Hr Hget Hf Hw.
  destruct (found_is_mask lib s ws w Hinv Hf Hw) as [_ (i & _ & Hs)].
  destruct (GetString_length _ _ _ _ Hget) as (Hn & Hl & _).
  apply SetString_total; [exact Hr| |].
  - rewrite <- Hl, Hs, length_mask_word. reflexivity.
  - intros j Hj. apply (GetString_lookup _ _ _ _ _ Hget Hj).
Qed.

Lemma full_no_blank (s : str) : bHasBlanks (attr_of s) = false -> ch_blank ∉ s.
Proof.
  unfold attr_of. simpl. intros H Hin.
  rewrite existsb_false_elem in H. specialize (H _ Hin).
  rewrite ch_eqb_refl in H. discriminate.
Qed.

Lemma IsFull_no_blank (a : Attribute) : IsFull a = true -> bHasBlanks a = false.
Proof. destruct a as [[] []]; simpl; intros H; try discriminate; reflexivity. Qed.

Lemma full_string_kept (g gs : Grid) (sp : Span) (s s' : str) (a a' : Attribute) :
  preserves g gs -> GetString g sp attr0 = Ok (s, a) -> bHasBlanks a = false ->
  GetString gs sp attr0 = Ok (s', a') -> s = s'.
Proof.
  intros (_ & _ & _ & Hcells) Hg Ha Hgs.
  destruct (GetString_length _ _ _ _ Hg) as (Hn & Hl & Hattr).
  destruct (GetString_length _ _ _ _ Hgs) as (_ & Hl' & _).
  subst a. apply full_no_blank in Ha.
  apply (list_eq_same_length s s' (length s)); [lia|reflexivity|].
  intros i x y Hi Hx Hy.
  assert (0 <= Z.of_nat i < nLen sp) as Hr by lia.
  destruct (GetString_lookup _ _ _ _ _ Hg Hr) as [_ H1].
  destruct (GetString_lookup _ _ _ _ _ Hgs Hr) as [_ H2].
  rewrite Nat2Z.id in H1, H2. rewrite Hx in H1. rewrite Hy in H2.
  unfold at_pt in H1, H2. apply Hcells in H1.
  - rewrite H1 in H2. congruence.
  - intros ->. apply Ha. eapply list_elem_of_lookup_2. exact Hx.
Qed.

Lemma pattern_matches_completion (g gs : Grid) (sp : Span) (s s' : str) (a a' : Attribute) :
  preserves g gs -> GetString g sp attr0 = Ok (s, a) ->
  GetString gs sp attr0 = Ok (s', a') -> matches s s'.
Proof.
  intros (_ & _ & _ & Hcells) Hg Hgs.
  destruct (GetString_length _ _ _ _ Hg) as (Hn & Hl & _).
  destruct (GetString_length _ _ _ _ Hgs) as (_ & Hl' & _).
  apply Forall2_same_length_lookup_2; [lia|].
  intros i x y Hx Hy.
  assert (0 <= Z.of_nat i < nLen sp) as Hr by (apply lookup_lt_Some in Hx; lia).
  destruct (GetString_lookup _ _ _ _ _ Hg Hr) as [_ H1].
  destruct (GetString_lookup _ _ _ _ _ Hgs Hr) as [_ H2].
  rewrite Nat2Z.id in H1, H2. rewrite Hx in H1. rewrite Hy in H2.
  unfold at_pt in H1, H2. unfold agrees.
  destruct (decide (x = ch_blank)) as [->|Hne]; [left; reflexivity|right].
  apply Hcells in H1; [|exact Hne]. rewrite H1 in H2. congruence.
Qed.

Lemma key_without_blank_is_word (lib : Library) (s : str) :
  lib_inv lib -> IsWord lib s = true -> ch_blank ∉ s ->
  s ∈ m_vecWords lib /\ indexable s.
Proof.
  intros Hinv Hw Hs. unfold IsWord in Hw.
  destruct (m_umapWords lib !! s) as [ws|] eqn:E; [|discriminate].
  assert (is_Some (m_umapWords lib !! s)) as Hk by (rewrite E; eauto).
  apply (inv_keys _ Hinv) in Hk. destruct Hk as (w & Hin & Hi & Hm).
  rewrite (no_blank_mask s w Hs Hm). auto.
Qed.

Lemma full_slots_sub (g gs : Grid) (spans : list Span) (strs : list str) :
  preserves g gs ->
  Forall2 (fun sp s => GetString gs sp attr0 = Ok (s, attr_of s) /\
                       IsFull (attr_of s) = true) spans strs ->
  forall rs, read_all g spans = Ok rs ->
    sublist (map sPattern (pick IsFull rs)) strs.
Proof.
  intros Hp H. induction H as [|sp s spans strs [Hgs _] H IH]; intros rs Hrs; simpl in Hrs.
  - injection Hrs as <-. constructor.
  - destruct (GetString g sp attr0) as [[s0 a0]| |] eqn:Hg; simpl in Hrs; try discriminate.
    destruct (read_all g spans) as [rs'| |] eqn:Hrs'; simpl in Hrs; try discriminate.
    injection Hrs as <-. rewrite pick_cons. cbn [fst snd].
    destruct (IsFull a0) eqn:Hf.
    + cbn [map sPattern]. apply IsFull_no_blank in Hf.
      rewrite (full_string_kept g gs sp s0 s a0 _ Hp Hg Hf Hgs).
      apply sublist_skip. apply IH. reflexivity.
    + apply sublist_cons. apply IH. reflexivity.
Qed.

Lemma snd_bindM_ok {A B : Type} (m : M A) (f : A -> M B) (b : B) :
  snd (bindM m f) = Ok b ->
  exists a, snd m = Ok a /\ snd (f a) = Ok b /\ fst (bindM m f) = fst m ++ fst (f a).
Proof.
  unfold bindM. destruct m as [out [a| |]]; simpl; try discriminate. eauto.
Qed.

Lemma CommitSlot_restore_loop_ok (loop : Grid -> Z -> M unit) (grid : Grid)
  (slot : Slot) (words rest : list Word) (d : Z) (u : unit) :
  snd (CommitSlot_restore_loop loop grid slot words rest d) = Ok u ->
  forall w, w ∈ rest ->
    exists g', SetString grid (span slot) w = Ok g' /\
      (exists u', snd (loop g' d) = Ok u') /\
      forall x, x ∈ fst (loop g' d) ->
                x ∈ fst (CommitSlot_restore_loop loop grid slot words rest d).
Proof.
  induction rest as [|w0 rest IH]; intros H w Hw; [inversion Hw|].
  cbn [CommitSlot_restore_loop] in H |- *.
  apply snd_bindM_ok in H. destruct H as ([] & _ & H & ->).
  apply snd_bindM_ok in H. destruct H as (g0 & Hg0 & H & ->).
  apply snd_bindM_ok in H. destruct H as (u0 & Hu0 & H & ->).
  simpl in Hg0. apply elem_of_cons in Hw. destruct Hw as [->|Hw].
  - exists g0. split; [exact Hg0|]. split; [eauto|].
    intros x Hx. apply elem_of_app. right. apply elem_of_app. right.
    apply elem_of_app. left. exact Hx.
  - destruct (IH H w Hw) as (g' & H1 & H2 & H3). exists g'.
    split; [exact H1|]. split; [exact H2|].
    intros x Hx. apply elem_of_app. right. apply elem_of_app. right.
    apply elem_of_app. right. apply H3. exact Hx.
Qed.

Lemma Loop_restore_partial (n : nat) (lib : Library) (g : Grid) (d : Z)
  (rs : list (Slot * Attribute)) (slot : Slot) (vP : list Slot) :
  read_all g (vecSpans g) = Ok rs ->
  all_words lib (pick IsFull rs) = true -> no_dups (pick IsFull rs) ∅ = Ok true ->
  pick IsPartial rs = slot :: vP ->
  Loop_restore (S n) lib g d = CommitSlot_restore (Loop_restore n lib) lib g slot (d + 1).
Proof.
  intros Hrs Hw Hd HP. cbn [Loop_restore]. rewrite classify_read_all, Hrs.
  cbn [res_bind]. rewrite bindM_lift_ok. cbn [fst snd app].
  rewrite Hw. cbn [negb]. rewrite Hd, bindM_lift_ok. cbn [negb]. rewrite HP.
  assert ((Z.of_nat (length (slot :: vP)) =? 0) = false) as ->
    by (apply Z.eqb_neq; simpl length; lia).
  cbn [andb].
  assert ((0 <? Z.of_nat (length (slot :: vP))) = true) as ->
    by (apply Z.ltb_lt; simpl length; lia).
  unfold assert. rewrite bindM_lift_ok.
  change (lift ((slot :: vP) !! 0%nat)) with (Ok slot). rewrite bindM_lift_ok.
  reflexivity.
Qed.

Lemma commit_toward (g gs g' : Grid) (sp : Span) (s : str) (a : Attribute) :
  preserves g gs -> GetString gs sp attr0 = Ok (s, a) -> SetString g sp s = Ok g' ->
  preserves g' gs.
Proof.
  intros (Hid & Hsp & Hsh & Hcells) Hgs Hset.
  destruct (SetString_frame _ _ _ _ Hset) as (_ & Hid' & Hsp' & Hsh').
  unfold preserves. split; [congruence|]. split; [congruence|]. split; [congruence|].
  intros r k c Hc Hn.
  destruct (on_span_dec sp r k) as [(i & Hi & [-> ->])|Hno].
  - destruct (SetString_written _ _ _ _ i Hset Hi) as [_ Hwr].
    destruct (GetString_lookup _ _ _ _ i Hgs Hi) as [_ Hrd].
    unfold at_pt in Hwr, Hrd. rewrite Hrd, <- Hwr. exact Hc.
  - rewrite (SetString_other _ _ _ _ _ _ Hset Hno) in Hc. apply Hcells; assumption.
Qed.

Lemma cell_shape (g1 g2 : Grid) (r k : nat) :
  shape g1 = shape g2 ->
  is_Some (cell (vecLines g1) r k) -> is_Some (cell (vecLines g2) r k).
Proof.
  intros Hs H. unfold cell in *.
  assert (shape g1 !! r = shape g2 !! r) as E by (rewrite Hs; reflexivity).
  unfold shape in E. rewrite !list_lookup_fmap in E.
  destruct (vecLines g1 !! r) as [l1|]; [|destruct H; discriminate].
  destruct (vecLines g2 !! r) as [l2|]; [|discriminate]. simpl in E. injection E as E.
  apply lookup_lt_is_Some. rewrite <- E. apply lookup_lt_is_Some. exact H.
Qed.

Lemma terminal_is_completion (g0 g gs : Grid) (rs : list (Slot * Attribute)) :
  blanks_covered g0 -> preserves g0 g -> preserves g gs ->
  read_all g (vecSpans g) = Ok rs ->
  pick IsPartial rs = [] -> pick IsEmpty rs = [] -> g = gs.
Proof.
  intros Hcov (_ & Hsp0 & Hsh0 & Hc0) (Hid & Hsp & Hsh & Hc) Hrs HP HE.
  apply grid_ext; [congruence|congruence|congruence|].
  intros r k. destruct (cell (vecLines g) r k) as [c|] eqn:E.
  - destruct (decide (c = ch_blank)) as [->|Hne]; [|symmetry; apply Hc; assumption].
    exfalso.
    destruct (cell_shape g g0 r k) as [c0 E0]; [congruence|rewrite E; eauto|].
    assert (c0 = ch_blank) as ->.
    { destruct (decide (c0 = ch_blank)) as [|Hne0]; [assumption|].
      apply Hc0 in E0; [|exact Hne0]. congruence. }
    destruct (Hcov r k E0) as (sp & i & Hin & Hi & Hpt).
    rewrite <- Hsp0 in Hin. apply list_elem_of_lookup in Hin. destruct Hin as [j Hj].
    apply read_all_spec in Hrs.
    destruct (Forall2_lookup_l _ _ _ _ _ Hrs Hj) as ([slot a] & Hrj & Hspan & Hget).
    cbn [fst snd] in Hspan, Hget.
    destruct (GetString_length _ _ _ _ Hget) as (_ & _ & Ha).
    destruct (GetString_lookup _ _ _ _ _ Hget Hi) as [_ Hat].
    unfold at_pt in Hat. rewrite Hpt in Hat. cbn [nRow nCol] in Hat.
    rewrite !Nat2Z.id, E in Hat.
    assert (bHasBlanks a = true) as Hb.
    { rewrite Ha. unfold attr_of. cbn [bHasBlanks]. apply existsb_true_elem.
      exists ch_blank. split; [|apply ch_eqb_refl].
      eapply list_elem_of_lookup_2. symmetry. exact Hat. }
    assert ((slot, a) ∈ rs) as Hel by (eapply list_elem_of_lookup_2; exact Hrj).
    destruct (bHasLetters a) eqn:Hl.
    + assert (slot ∈ pick IsPartial rs) as Hx
        by (apply pick_elem; exists a; split; [exact Hel|unfold IsPartial; rewrite Hb, Hl; reflexivity]).
      rewrite HP in Hx. inversion Hx.
    + assert (slot ∈ pick IsEmpty rs) as Hx
        by (apply pick_elem; exists a; split; [exact Hel|unfold IsEmpty; rewrite Hb, Hl; reflexivity]).
      rewrite HE in Hx. inversion Hx.
  - destruct (cell (vecLines gs) r k) as [c|] eqn:E'; [|reflexivity].
    destruct (cell_shape gs g r k) as [c' Hc']; [congruence|rewrite E'; eauto|]. congruence.
Qed.

Lemma Loop_restore_complete (lib : Library) (g0 gs : Grid) :
  lib_inv lib -> blanks_covered g0 -> solved lib gs ->
  forall fuel g d u,
    preserves g0 g -> preserves g gs ->
    snd (Loop_restore fuel lib g d) = Ok u -> gs ∈ fst (Loop_restore fuel lib g d).
Proof.
  intros Hinv Hcov (strs & Hstrs & Hwords & Hnd) fuel.
  induction fuel as [|n IH]; intros g d u Hp0 Hp H; [discriminate|].
  assert (vecSpans gs = vecSpans g) as Hsp by apply Hp.
  rewrite Hsp in Hstrs.
  destruct (read_all g (vecSpans g)) as [rs| |] eqn:Hrs.
  2,3: cbn [Loop_restore] in H; rewrite classify_read_all, Hrs in H; discriminate H.
  pose proof (full_slots_sub g gs _ _ Hp Hstrs rs Hrs) as Hsub.
  assert (all_words lib (pick IsFull rs) = true) as Hw.
  { apply all_words_spec. apply Forall_forall. intros slot Hslot.
    rewrite Forall_forall in Hwords. apply Hwords.
    eapply elem_of_sublist; [|exact Hsub].
    change (sPattern slot ∈ sPattern <$> pick IsFull rs). apply list_elem_of_fmap. eauto. }
  assert (no_dups (pick IsFull rs) ∅ = Ok true) as Hd.
  { rewrite no_dups_exact. f_equal. apply bool_decide_eq_true_2. split.
    - eapply sublist_NoDup; eassumption.
    - apply Forall_forall. intros x _ Hx. apply elem_of_empty in Hx. exact Hx. }
  destruct (pick IsPartial rs) as [|slot vP] eqn:HP.
  - destruct (pick IsEmpty rs) as [|e0 vE] eqn:HE.
    + rewrite <- (terminal_is_completion g0 g gs rs Hcov Hp0 Hp Hrs HP HE).
      cbn [Loop_restore]. rewrite classify_read_all, Hrs.
      cbn [res_bind]. rewrite bindM_lift_ok. cbn [fst snd app].
      rewrite Hw. cbn [negb]. rewrite Hd, bindM_lift_ok. cbn [negb]. rewrite HP, HE.
      simpl. left.
    + exfalso. revert H. cbn [Loop_restore]. rewrite classify_read_all, Hrs.
      cbn [res_bind]. rewrite bindM_lift_ok. cbn [fst snd app].
      rewrite Hw. cbn [negb]. rewrite Hd, bindM_lift_ok. cbn [negb]. rewrite HP, HE.
      simpl. discriminate.
  - rewrite (Loop_restore_partial n lib g d rs slot vP Hrs Hw Hd HP) in H |- *.
    assert (slot ∈ pick IsPartial rs) as Hslot by (rewrite HP; left).
    apply pick_elem in Hslot. destruct Hslot as (a & Ha & Hpa).
    destruct (read_all_elem _ _ _ _ _ Hrs Ha) as [Hin Hget].
    apply list_elem_of_lookup in Hin. destruct Hin as [j Hj].
    destruct (Forall2_lookup_l _ _ _ _ _ Hstrs Hj) as (s & Hsj & Hgs & Hfull).
    assert (s ∈ strs) as Hs by (eapply list_elem_of_lookup_2; exact Hsj).
    assert (s ∈ m_vecWords lib /\ indexable s) as [Hsw Hsi].
    { apply key_without_blank_is_word; [exact Hinv| |].
      - rewrite Forall_forall in Hwords. apply Hwords. exact Hs.
      - apply full_no_blank. apply IsFull_no_blank. exact Hfull. }
    assert (is_mask_of (sPattern slot) s) as Hm.
    { apply is_mask_of_matches. eapply pattern_matches_completion; eassumption. }
    destruct (lib_inv_find lib s (sPattern slot) Hinv Hsw Hsi Hm) as (ws & Hf & Hws).
    unfold CommitSlot_restore, FindWord in H |- *. rewrite Hf in H |- *.
    destruct (CommitSlot_restore_loop_ok _ _ _ _ _ _ _ H s Hws)
      as (g' & Hset & [u' Hu'] & Hout).
    apply Hout. apply (IH g' (d + 1) u'); [| |exact Hu'].
    + eapply preserves_trans; [exact Hp0|].
      eapply commit_preserves; [exact Hinv|exact Hget|exact Hf|exact Hws|exact Hset].
    + eapply commit_toward; eassumption.
Qed.

Lemma Init_blanks_covered (gridLines libLines : list str) (e : Engine) :
  Init gridLines libLines = Ok e -> blanks_covered (m_grid e).
Proof.
  unfold Init. cbv zeta.
  destruct (CheckSize (LoadFromFile Grid0 gridLines)) as [[]| |] eqn:Hsize;
    cbn [res_bind]; try discriminate.
  apply CheckSize_spec in Hsize.
  destruct (FillSpans_spec (LoadFromFile Grid0 gridLines) Hsize eq_refl)
    as (hs & vs & E & Hg1 & _ & Hc1 & _ & _ & _).
  rewrite E. cbn [res_bind].
  destruct (PrintSpans _) as [[]| |]; cbn [res_bind]; try discriminate.
  destruct (ReadFromFile Library0 libLines _) as [lib| |]; cbn [res_bind]; try discriminate.
  intros [= <-]. cbn [m_grid]. intros r k Hcell.
  change (vecSpans (set_spans (LoadFromFile Grid0 gridLines) (hs ++ vs))) with (hs ++ vs).
  change (vecLines (set_spans (LoadFromFile Grid0 gridLines) (hs ++ vs)))
    with (vecLines (LoadFromFile Grid0 gridLines)) in Hcell.
  set (g := LoadFromFile Grid0 gridLines) in *.
  set (p := mkPoint (Z.of_nat r) (Z.of_nat k)).
  assert (at_pt g p = Some ch_blank) as Hat
    by (unfold at_pt, p; cbn [nRow nCol]; rewrite !Nat2Z.id; exact Hcell).
  assert (IsInBounds g p = true) as Hb.
  { apply IsInBounds_iff. unfold p. cbn [nRow nCol]. unfold cell in Hcell.
    destruct (vecLines g !! r) as [line|] eqn:Hl; [|discriminate].
    pose proof (lookup_lt_Some _ _ _ Hl) as H1.
    pose proof (lookup_lt_Some _ _ _ Hcell) as H2.
    unfold rect in Hsize. rewrite Forall_forall in Hsize.
    assert (Z.of_nat (length line) = cols g) as H3
      by (apply Hsize; eapply list_elem_of_lookup_2; exact Hl).
    unfold rows. lia. }
  destruct (covered_from_covers g false hs p Hsize Hg1 Hc1 Hb) as (sp & Hin & i & Hi & Hpt).
  - rewrite (IsBlock_blk g p Hsize Hb). unfold blk. rewrite Hat. reflexivity.
  - exists sp, i. split; [apply elem_of_app; left; exact Hin|]. split; [exact Hi|exact Hpt].
Qed.

(** X20: the search misses no completion. After a successful [Init], when
    the search runs to its end without a failed assertion, it prints every
    grid that completes the input grid correctly: every grid with the rows
    and spans of the input, the cells of the input that are not blank
    unchanged, every span a full string that is a key of the dictionary,
    and the strings pairwise distinct. *)
Theorem search_finds_every_completion (gridLines libLines : list str) (e : Engine)
  (fuel : nat) (gs : Grid) :
  Init gridLines libLines = Ok e ->
  snd (Search fuel e) = Ok e ->
  preserves (m_grid e) gs -> solved (m_lib e) gs ->
  gs ∈ fst (Search fuel e).
Proof.
  intros Hinit Hok Hp Hs. destruct (Init_lib_inv _ _ _ Hinit) as [Hinv _].
  rewrite Search_unfold in Hok |- *. cbn [fst snd] in Hok |- *.
  destruct (snd (Loop fuel (m_lib e) (m_grid e) 0)) as [u| |] eqn:E; try discriminate.
  rewrite Loop_restore_eq in E |- *.
  apply (Loop_restore_complete (m_lib e) (m_grid e) gs Hinv
           (Init_blanks_covered _ _ _ Hinit) Hs fuel (m_grid e) 0 u);
    [apply preserves_refl|exact Hp|exact E].
Qed.

Lemma search_finds_every_completion_witness :
  grid_A_row_solved ∈ fst (Search 2 engine_A_row).
Proof.
  assert (vecLines (m_grid engine_A_row) = [lit "A."]) as HL by (vm_compute; reflexivity).
  apply (search_finds_every_completion [lit "A."] [lit "A"; lit "B"; lit "AB"]).
  - apply engine_of_ok. vm_compute. reflexivity.
  - apply Search_ok. vm_compute. reflexivity.
  - unfold preserves. split; [vm_compute; reflexivity|]. split; [reflexivity|].
    split; [vm_compute; reflexivity|].
    intros r k c Hc Hn. rewrite HL in Hc.
    destruct r as [|r]; [|destruct r; discriminate Hc].
    destruct k as [|[|k]]; [exact Hc| |destruct k; discriminate Hc].
    injection Hc as <-. exfalso. apply Hn. reflexivity.
  - exists [lit "AB"; lit "A"; lit "B"].
    assert (vecSpans grid_A_row_solved =
            [mkSpan (mkPoint 0 0) 2 false; mkSpan (mkPoint 0 0) 1 true;
             mkSpan (mkPoint 0 1) 1 true]) as -> by (vm_compute; reflexivity).
    split; [|split].
    + repeat (constructor; [split; vm_compute; reflexivity|]). constructor.
    + repeat (constructor; [vm_compute; reflexivity|]). constructor.
    + refine (bool_decide_unpack _ _). vm_compute. exact I.
Defined.

Lemma NoDup_bindM {A B : Type} (m : M A) (f : A -> M B) :
  NoDup (fst m) ->
  (forall a, snd m = Ok a ->
     NoDup (fst (f a)) /\ forall x, x ∈ fst m -> x ∉ fst (f a)) ->
  NoDup (fst (bindM m f)).
Proof.
  intros Hm Hf. unfold bindM. destruct (snd m) as [a| |] eqn:E; simpl; try exact Hm.
  destruct (Hf a eq_refl) as [H1 H2]. apply NoDup_app. auto.
Qed.

Lemma NoDup_bind_lift {A B : Type} (r : res A) (f : A -> M B) :
  (forall a, r = Ok a -> NoDup (fst (f a))) -> NoDup (fst (bindM (liftM r) f)).
Proof.
  intros H. apply NoDup_bindM; [constructor|].
  intros a Ha. split; [apply H; exact Ha|]. intros x Hx. inversion Hx.
Qed.

Lemma commit_distinct (g g1 g2 x : Grid) (sp : Span) (w1 w2 : Word) :
  SetString g sp w1 = Ok g1 -> SetString g sp w2 = Ok g2 ->
  ch_blank ∉ w1 -> ch_blank ∉ w2 ->
  preserves g1 x -> preserves g2 x -> w1 = w2.
Proof.
  intros H1 H2 Hb1 Hb2 (_ & _ & _ & Hc1) (_ & _ & _ & Hc2).
  destruct (SetString_frame _ _ _ _ H1) as (Hl1 & _).
  destruct (SetString_frame _ _ _ _ H2) as (Hl2 & _).
  apply (list_eq_same_length w1 w2 (length w1)); [lia|reflexivity|].
  intros i a b Hi Ha Hb.
  assert (0 <= Z.of_nat i < nLen sp) as Hr by lia.
  destruct (SetString_written _ _ _ _ _ H1 Hr) as [_ E1].
  destruct (SetString_written _ _ _ _ _ H2 Hr) as [_ E2].
  rewrite Nat2Z.id in E1, E2. rewrite Ha in E1. rewrite Hb in E2.
  unfold at_pt in E1, E2.
  apply Hc1 in E1; [|intros ->; apply Hb1; eapply list_elem_of_lookup_2; exact Ha].
  apply Hc2 in E2; [|intros ->; apply Hb2; eapply list_elem_of_lookup_2; exact Hb].
  congruence.
Qed.

Lemma CommitSlot_restore_loop_NoDup (loop : Grid -> Z -> M unit) (grid : Grid)
  (slot : Slot) (words rest : list Word) (d : Z) :
  (forall g', NoDup (fst (loop g' d))) ->
  (forall g' x, x ∈ fst (loop g' d) -> preserves g' x) ->
  NoDup rest -> (forall w, w ∈ rest -> ch_blank ∉ w) ->
  NoDup (fst (CommitSlot_restore_loop loop grid slot words rest d)).
Proof.
  intros Hnd Hpres. induction rest as [|w rest IH]; intros Hrest Hblank;
    cbn [CommitSlot_restore_loop]; [constructor|].
  apply NoDup_cons in Hrest as [Hw Hrest].
  apply NoDup_bind_lift. intros _ _. apply NoDup_bind_lift. intros g1 Hg1.
  apply NoDup_bindM; [apply Hnd|]. intros _ _. split.
  - apply IH; [exact Hrest|]. intros w' Hw'. apply Hblank. right. exact Hw'.
  - intros x Hx1 Hx2. apply CommitSlot_restore_loop_emits in Hx2.
    destruct Hx2 as (w2 & g2 & Hw2 & Hg2 & Hx2).
    apply Hw. 
    rewrite (commit_distinct grid g1 g2 x (span slot) w w2 Hg1 Hg2); [exact Hw2| | | |].
    + apply Hblank. left.
    + apply Hblank. right. exact Hw2.
    + apply Hpres. exact Hx1.
    + apply Hpres. exact Hx2.
Qed.

Lemma Loop_restore_NoDup (lib : Library) :
  lib_inv lib -> ordered_buckets lib -> NoDup (m_vecWords lib) ->
  (forall w, w ∈ m_vecWords lib -> ch_blank ∉ w) ->
  forall fuel g d, NoDup (fst (Loop_restore fuel lib g d)).
Proof.
  intros Hinv Hord Hnd Hblank fuel.
  induction fuel as [|n IH]; intros g d; [constructor|].
  cbn [Loop_restore]. apply NoDup_bind_lift. intros slots _.
  destruct (negb (all_words lib (snd slots))); [constructor|].
  apply NoDup_bind_lift. intros unique _.
  destruct (negb unique); [constructor|].
  destruct ((Z.of_nat (length (snd (fst slots))) =? 0) &&
            (Z.of_nat (length (fst (fst slots))) =? 0)).
  { apply NoDup_singleton. }
  apply NoDup_bind_lift. intros _ _. apply NoDup_bind_lift. intros slot _.
  unfold CommitSlot_restore. destruct (FindWord lib (sPattern slot)) as [ws|] eqn:Hf;
    [|constructor].
  assert (ws = filter (fun w => matches (sPattern slot) w /\ indexable w) (m_vecWords lib))
    as Hws.
  { rewrite <- Hord. unfold bucket, FindWord in *. rewrite Hf. reflexivity. }
  apply CommitSlot_restore_loop_NoDup.
  - intros g'. apply IH.
  - intros g' x Hx. rewrite <- Loop_restore_eq in Hx. eapply Loop_preserves; eassumption.
  - rewrite Hws. apply NoDup_filter. exact Hnd.
  - intros w Hw. rewrite Hws in Hw. apply list_elem_of_filter in Hw. apply Hblank, Hw.
Qed.

(** X21: no grid is printed twice. After a successful [Init], when the
    loaded words are pairwise distinct and none holds the wildcard
    character, the grids the search prints are pairwise distinct, however
    the search ends. *)
Theorem search_prints_no_grid_twice (gridLines libLines : list str) (e : Engine)
  (fuel : nat) :
  Init gridLines libLines = Ok e ->
  NoDup (m_vecWords (m_lib e)) ->
  (forall w, w ∈ m_vecWords (m_lib e) -> ch_blank ∉ w) ->
  NoDup (fst (Search fuel e)).
Proof.
  intros Hinit Hnd Hblank. destruct (Init_lib_inv _ _ _ Hinit) as [Hinv Hload].
  rewrite Search_unfold. cbn [fst]. rewrite Loop_restore_eq.
  apply Loop_restore_NoDup; [exact Hinv| |exact Hnd|exact Hblank].
  eapply ReadFromFile_ordered; [|exact Hload|exact Hblank]. intros q. reflexivity.
Qed.

Lemma search_prints_no_grid_twice_witness :
  NoDup (fst (Search 2 engine_two)) /\
  solutions (Search 2 engine_two) = [[lit "AB"]; [lit "AC"]].
Proof.
  assert (m_vecWords (m_lib engine_two) = [lit "A"; lit "B"; lit "C"; lit "AB"; lit "AC"])
    as HW by (vm_compute; reflexivity).
  split; [|vm_compute; reflexivity].
  apply (search_prints_no_grid_twice [lit "A."] [lit "A"; lit "B"; lit "C"; lit "AB"; lit "AC"]).
  - apply engine_of_ok. vm_compute. reflexivity.
  - rewrite HW. refine (bool_decide_unpack _ _). vm_compute. exact I.
  - intros w Hw Hin. rewrite HW in Hw. apply list_elem_of_In in Hw, Hin.
    simpl in Hw. destruct Hw as [<-|[<-|[<-|[<-|[<-|[]]]]]]; vm_compute in Hin;
      intuition discriminate.
Defined.

(** ** The progress assertion is the only one that can fail *)

Lemma CommitSlot_restore_loop_abort (loop : Grid -> Z -> M unit) (grid : Grid)
  (slot : Slot) (words rest : list Word) (d : Z) :
  words <> [] ->
  (forall w, w ∈ rest -> SetString grid (span slot) w <> Abort) ->
  snd (CommitSlot_restore_loop loop grid slot words rest d) = Abort ->
  exists pre w post g',
    rest = pre ++ w :: post /\
    Forall (fun w0 => exists g0, SetString grid (span slot) w0 = Ok g0 /\
                                 snd (loop g0 d) = Ok tt) pre /\
    SetString grid (span slot) w = Ok g' /\ snd (loop g' d) = Abort.
Proof.
  intros Hne. induction rest as [|w rest IH]; intros Hset; simpl; [discriminate|].
  intros H. apply snd_bindM_abort in H. destruct H as [H|(_ & _ & H)].
  { simpl in H. destruct words; [congruence|discriminate]. }
  apply snd_bindM_abort in H. destruct H as [H|(g' & Hg & H)].
  { simpl in H. exfalso. apply (Hset w); [left|exact H]. }
  simpl in Hg. apply snd_bindM_abort in H. destruct H as [H|([] & Hu & H)].
  - exists [], w, rest, g'. split; [reflexivity|]. split; [constructor|]. auto.
  - destruct (IH (fun w' Hw' => Hset w' (list_elem_of_further _ _ _ Hw')) H)
      as (pre & w' & post & g'' & -> & Hpre & H1 & H2).
    exists (w :: pre), w', post, g''. split; [reflexivity|].
    split; [constructor; eauto|]. auto.
Qed.

Lemma CommitSlot_restore_loop_aborts (loop : Grid -> Z -> M unit) (grid : Grid)
  (slot : Slot) (words pre post : list Word) (w : Word) (g' : Grid) (d : Z) :
  words <> [] ->
  Forall (fun w0 => exists g0, SetString grid (span slot) w0 = Ok g0 /\
                               snd (loop g0 d) = Ok tt) pre ->
  SetString grid (span slot) w = Ok g' -> snd (loop g' d) = Abort ->
  snd (CommitSlot_restore_loop loop grid slot words (pre ++ w :: post) d) = Abort.
Proof.
  intros Hne Hpre Hset Hab. induction Hpre as [|w0 pre (g0 & H0 & H1) Hpre IH];
    cbn [app CommitSlot_restore_loop].
  - destruct words; [congruence|]. cbn [negb assert]. rewrite bindM_lift_ok.
    rewrite Hset, bindM_lift_ok. unfold bindM at 1. rewrite Hab. reflexivity.
  - destruct words as [|x words]; [congruence|]. cbn [negb assert].
    rewrite bindM_lift_ok. rewrite H0, bindM_lift_ok. unfold bindM at 1. rewrite H1.
    cbn [snd]. apply IH.
Qed.

Lemma Loop_restore_fails (lib : Library) :
  lib_inv lib ->
  forall fuel g d,
    rect g -> spans_inside g ->
    snd (Loop_restore fuel lib g d) = Abort -> fails_progress lib fuel g d.
Proof.
  intros Hinv fuel. induction fuel as [|n IH]; intros g d Hr Hin H; [discriminate|].
  destruct (read_all_total g (vecSpans g)) as [rs Hrs].
  { intros sp Hsp. unfold spans_inside in Hin. rewrite Forall_forall in Hin.
    destruct (Hin sp Hsp) as [Hn Hb]. apply GetString_total; assumption. }
  assert (classify g (vecSpans g) [] [] [] =
          Ok (pick IsEmpty rs, pick IsPartial rs, pick IsFull rs)) as Hcl
    by (rewrite classify_read_all, Hrs; reflexivity).
  destruct (all_words lib (pick IsFull rs)) eqn:Hw.
  2:{ exfalso. revert H. cbn [Loop_restore]. rewrite Hcl, bindM_lift_ok.
      cbn [fst snd]. rewrite Hw. discriminate. }
  destruct (no_dups_cases (pick IsFull rs) ∅) as [b Hd]. destruct b.
  2:{ exfalso. revert H. cbn [Loop_restore]. rewrite Hcl, bindM_lift_ok.
      cbn [fst snd]. rewrite Hw. cbn [negb]. rewrite Hd, bindM_lift_ok. discriminate. }
  destruct (pick IsPartial rs) as [|slot vP] eqn:HP.
  - destruct (pick IsEmpty rs) as [|e0 vE] eqn:HE.
    + exfalso. revert H. cbn [Loop_restore]. rewrite Hcl, bindM_lift_ok.
      cbn [fst snd]. rewrite Hw. cbn [negb]. rewrite Hd, bindM_lift_ok. discriminate.
    + eapply fails_here; [exact Hcl|exact Hw|exact Hd|discriminate].
  - rewrite (Loop_restore_partial n lib g d rs slot vP Hrs Hw Hd HP) in H.
    unfold CommitSlot_restore in H.
    destruct (FindWord lib (sPattern slot)) as [ws|] eqn:Hf; [|discriminate].
    assert (slot ∈ pick IsPartial rs) as Hslot by (rewrite HP; left).
    apply pick_elem in Hslot. destruct Hslot as (a & Ha & Hpa).
    destruct (read_all_elem _ _ _ _ _ Hrs Ha) as [_ Hget].
    destruct ws as [|w0 ws]; [discriminate|].
    apply CommitSlot_restore_loop_abort in H; [|discriminate|].
    2:{ intros w Hw'.
        destruct (candidate_fits lib g (span slot) _ a _ w Hinv Hr Hget Hf Hw') as [g' Hg'].
        rewrite Hg'. discriminate. }
    destruct H as (pre & w & post & g' & Hsplit & Hpre & Hset & Hab).
    destruct (SetString_frame _ _ _ _ Hset) as (_ & _ & Hsp & Hsh).
    eapply fails_below; [exact Hcl|exact Hw|exact Hd| | |exact Hset|].
    + rewrite Hf, Hsplit. reflexivity.
    + eapply Forall_impl; [exact Hpre|]. intros x (g0 & H0 & H1).
      exists g0. rewrite Loop_restore_eq. auto.
    + apply IH; [| |exact Hab].
      * eapply rect_shape; eassumption.
      * unfold spans_inside in *. rewrite Hsp.
        eapply Forall_impl; [exact Hin|]. intros sp [Hn Hb]. split; [exact Hn|].
        intros i Hi. rewrite (IsInBounds_shape g' g _ Hsh). apply Hb. exact Hi.
Qed.

Lemma fails_progress_aborts (lib : Library) (fuel : nat) (g : Grid) (d : Z) :
  fails_progress lib fuel g d -> snd (Loop_restore fuel lib g d) = Abort.
Proof.
  intros H. induction H as [n g d vE vF Hcl Hw Hd HE
                           |n g d vE vP vF slot pre post w g' Hcl Hw Hd Hf Hpre Hset _ IH].
  - cbn [Loop_restore]. rewrite Hcl, bindM_lift_ok. cbn [fst snd].
    rewrite Hw. cbn [negb]. rewrite Hd, bindM_lift_ok. cbn [negb length Z.of_nat Z.eqb andb].
    destruct vE as [|e0 vE]; [congruence|]. reflexivity.
  - cbn [Loop_restore]. rewrite Hcl, bindM_lift_ok. cbn [fst snd].
    rewrite Hw. cbn [negb]. rewrite Hd, bindM_lift_ok. cbn [negb].
    assert ((Z.of_nat (length (slot :: vP)) =? 0) = false) as ->
      by (apply Z.eqb_neq; simpl length; lia).
    cbn [andb].
    assert ((0 <? Z.of_nat (length (slot :: vP))) = true) as ->
      by (apply Z.ltb_lt; simpl length; lia).
    unfold assert. rewrite bindM_lift_ok.
    change (lift ((slot :: vP) !! 0%nat)) with (Ok slot). rewrite bindM_lift_ok.
    unfold CommitSlot_restore. rewrite Hf.
    apply CommitSlot_restore_loop_aborts with (g' := g');
      [destruct pre; discriminate| |exact Hset|exact IH].
    eapply Forall_impl; [exact Hpre|]. intros x (g0 & H0 & H1).
    exists g0. rewrite <- Loop_restore_eq. auto.
Qed.

(** X19: the search can fail at the progress assertion only. After a
    successful [Init], on every grid that extends the input grid (same rows
    and spans, every cell of the input that is not blank unchanged) the
    span reads of [Loop] return normally, so does its duplicate loop, and
    every candidate that [FindWord] returns for the string of a span can be
    written into the span; and [Search] ends on a failed assertion exactly
    when its run ends on the failed progress assertion: depth first, every
    node on the way passes both prunes, the candidates tried before were
    searched to their end, and the node reached has an empty slot and no
    partial slot. *)
Theorem search_fails_only_at_progress_assertion (gridLines libLines : list str)
  (e : Engine) (fuel : nat) :
  Init gridLines libLines = Ok e ->
  (forall g, preserves (m_grid e) g ->
     (exists r, classify g (vecSpans g) [] [] [] = Ok r) /\
     (forall vF, exists b, no_dups vF ∅ = Ok b) /\
     (forall sp s a ws w,
        sp ∈ vecSpans g -> GetString g sp attr0 = Ok (s, a) ->
        FindWord (m_lib e) s = Some ws -> w ∈ ws ->
        exists g', SetString g sp w = Ok g')) /\
  (snd (Search fuel e) = Abort <-> fails_progress (m_lib e) fuel (m_grid e) 0).
Proof.
  intros Hinit. destruct (Init_lib_inv _ _ _ Hinit) as [Hinv _].
  destruct (Init_grid _ _ _ Hinit) as [Hr Hmax].
  assert (spans_inside (m_grid e)) as Hin.
  { unfold spans_inside. eapply Forall_impl; [exact Hmax|].
    intros sp (Hn & Hcells & _). split; [lia|]. intros i Hi. apply (Hcells i Hi). }
  split.
  - intros g (_ & Hsp & Hsh & _).
    assert (rect g) as Hrg by (eapply rect_shape; eassumption).
    split; [|split].
    + destruct (read_all_total g (vecSpans g)) as [rs Hrs].
      * intros sp Hsp'. rewrite Hsp in Hsp'. unfold spans_inside in Hin.
        rewrite Forall_forall in Hin. destruct (Hin sp Hsp') as [Hn Hb].
        apply GetString_total; [exact Hrg|exact Hn|].
        intros i Hi. rewrite (IsInBounds_shape g (m_grid e) _ Hsh). apply Hb. exact Hi.
      * rewrite classify_read_all, Hrs. cbn [res_bind]. eauto.
    + intros vF. apply no_dups_cases.
    + intros sp s a ws w _ Hget Hf Hw.
      eapply candidate_fits; eassumption.
  - rewrite Search_unfold. cbn [snd]. rewrite Loop_restore_eq. split.
    + intros H. apply Loop_restore_fails; [exact Hinv|exact Hr|exact Hin|].
      destruct (snd (Loop_restore fuel (m_lib e) (m_grid e) 0)); congruence.
    + intros H. rewrite (fails_progress_aborts _ _ _ _ H). reflexivity.
Qed.

Lemma search_fails_only_at_progress_assertion_witness :
  snd (Search 2 engine_split) = Abort /\
  fails_progress (m_lib engine_split) 2 (m_grid engine_split) 0.
Proof.
  assert (snd (Search 2 engine_split) = Abort) as H by (vm_compute; reflexivity).
  split; [exact H|].
  assert (Init [lit "A.#."] [lit "A"; lit "B"; lit "AB"] = Ok engine_split) as Hinit
    by (apply engine_of_ok; vm_compute; reflexivity).
  destruct (search_fails_only_at_progress_assertion _ _ engine_split 2 Hinit) as [_ Hiff].
  apply Hiff. exact H.
Defined.
